(** * tstetromino: the rules engine of [tetris.ts]

    A shallow embedding of the core of [src/tetris.ts] (geometry, shape
    catalog, piece movement and rotation, grid, bag randomizer, and the
    per-tick step), followed by the properties of it that the
    specification states; then the keyboard handler and the drawing code,
    with further properties of the whole.

    Conventions of the embedding.
    - A JavaScript [number] is an exact rational [Q].  Every number the
      core manipulates is an integer or a half-integer of small size, on
      which IEEE double arithmetic is exact; two numbers are the same
      JavaScript value when they are [==] as rationals.
    - An array whose cells are assigned by index ([number[]] rows of the
      grid, the bag) is a list of optional values: [None] is a hole, which
      reads as [undefined].
    - A method is a function from the store it can reach to an [outcome]:
      a normal return with the new store, or a thrown exception together
      with the store as it was left when the exception was raised.
    - A [while] loop runs under a bound on its iterations, and the result
      is [None] when the bound is reached; the properties give a bound
      under which the loop ends.
    - Of the page, the model keeps the colour last passed to each cell
      element. *)

From Stdlib Require Import QArith ZArith Lia Lqa String Ascii Sorted.
From stdpp Require Import base option list.

Set Default Proof Using "Type".

(** ** Numbers *)

(** Truncation toward zero, the first step of JavaScript's ToInt32. *)
Definition trunc (q : Q) : Z := Z.quot (Qnum q) (Zpos (Qden q)).

(** Reduction modulo 2^32 into the signed 32-bit range. *)
Definition wrap32 (z : Z) : Z := ((z + 2 ^ 31) mod 2 ^ 32 - 2 ^ 31)%Z.

(** [x | 0] *)
Definition toInt32 (q : Q) : Z := wrap32 (trunc q).

(** [isInt(x)]: [x === (x|0)] *)
Definition isInt (q : Q) : bool := Qeq_bool q (inject_Z (toInt32 q)).

Definition Qltb (a b : Q) : bool := negb (Qle_bool b a).
Definition Qgeb (a b : Q) : bool := Qle_bool b a.

(** [Math.max(a, b)] *)
Definition Math_max (a b : Q) : Q := if Qle_bool a b then b else a.

(** [arrayMax(xs)] with its second argument omitted, as every caller does:
    [xs.reduce((x, y) => Math.max(x, y), xs[0])].  For an empty array
    JavaScript starts from [undefined]; the only callers pass the block
    coordinates of a piece, which are [NUM_BLOCKS] many, and the default
    [0] stands in that unused place. *)
Definition arrayMax (xs : list Q) : Q := fold_left Math_max xs (hd 0%Q xs).

(** A number is mathematically an integer. *)
Definition integral (q : Q) : bool := (Qnum q mod Zpos (Qden q) =? 0)%Z.

(** The array index a number denotes, if any: a non-negative integer. *)
Definition as_index (q : Q) : option nat :=
  if integral q && (0 <=? Qnum q)%Z
  then Some (Z.to_nat (Qnum q / Zpos (Qden q)))
  else None.

(** ** Exceptions and outcomes *)

Inductive thrown : Type :=
  | Assertion (message : string)   (* [throw message] from [assert] *)
  | TypeError.                     (* member access on [undefined] *)

Inductive outcome (S A : Type) : Type :=
  | Ret (a : A) (s : S)
  | Throw (e : thrown) (s : S).
Arguments Ret {S A} a s.
Arguments Throw {S A} e s.

Definition M (S A : Type) : Type := S -> outcome S A.

Definition ret {S A} (a : A) : M S A := fun s => Ret a s.
Definition bind {S A B} (m : M S A) (k : A -> M S B) : M S B :=
  fun s => match m s with
           | Ret a s' => k a s'
           | Throw e s' => Throw e s'
           end.
Definition throw {S A} (e : thrown) : M S A := fun s => Throw e s.
Definition get {S} : M S S := fun s => Ret s s.
Definition put {S} (s : S) : M S unit := fun _ => Ret tt s.
Definition modify {S} (f : S -> S) : M S unit := fun s => Ret tt (f s).

Declare Scope js_scope.
Delimit Scope js_scope with js.
Notation "x <- c1 ;; c2" := (bind c1 (fun x => c2))
  (at level 100, c1 at next level, right associativity) : js_scope.
Notation "c1 ;; c2" := (bind c1 (fun _ => c2))
  (at level 100, right associativity) : js_scope.

(** [assert(cond, message)] *)
Definition assert {S} (cond : bool) (message : string) : M S unit :=
  if cond then ret tt else throw (Assertion message).

(** Run [m] on a part of the store picked by [proj] and put the part back
    with [upd], also when [m] throws: an exception does not roll back what
    was already written. *)
Definition zoom {S T A} (proj : S -> T) (upd : T -> S -> S) (m : M T A)
  : M S A :=
  fun s => match m (proj s) with
           | Ret a t => Ret a (upd t s)
           | Throw e t => Throw e (upd t s)
           end.

(** ** Arrays with holes *)

Module JsArray.
Abbreviation t A := (list (option A)) (only parsing).

(** [a[k]] for a number [k]; [None] is [undefined].  A key that is not
    an index names a property outside the elements; the model does not
    track such properties and reads them as [undefined]. *)
Definition read {A} (a : t A) (k : Q) : option A :=
  match as_index k with
  | Some i => mjoin (a !! i)
  | None => None
  end.

(** [a[k] = v], where [v = None] stores [undefined].  Inside the array the
    cell is overwritten; at an index past the end the array grows, the
    cells in between being holes; a key that is not an index leaves the
    elements as they are. *)
Definition write {A} (a : t A) (k : Q) (v : option A) : t A :=
  match as_index k with
  | Some i =>
      if (i <? length a)%nat then <[i := v]> a
      else a ++ replicate (i - length a) None ++ [v]
  | None => a
  end.

(** The test [v !== 0] on a cell read from a number array; a hole or
    [undefined] is not [0].  [Array.prototype.every] skips holes, so
    [row.every(x => x !== 0)] is [forallb nonzero row] as well. *)
Definition nonzero (c : option Q) : bool :=
  match c with
  | Some v => negb (Qeq_bool v 0)
  | None => true
  end.
End JsArray.

(** ** Constants *)

Definition NUM_BLOCKS : nat := 4.
Definition GRID_WIDTH : nat := 10.
Definition GRID_HEIGHT : nat := 20.
Definition MAX_KICK : Z := 3.

Definition PIECE_STRINGS : list string :=
  [ (* I *) ("#   " ++ "O:  " ++ "O:  " ++ "#   ")%string;
    (* J *) (" #  " ++ " O  " ++ "##  " ++ "    ")%string;
    (* L *) ("#   " ++ "O   " ++ "##  " ++ "    ")%string;
    (* O *) ("OO  " ++ "OO  " ++ "    " ++ "    ")%string;
    (* S *) (" ## " ++ "#O  " ++ "    " ++ "    ")%string;
    (* Z *) ("##  " ++ " O# " ++ "    " ++ "    ")%string;
    (* T *) ("#O# " ++ " #  " ++ "    " ++ "    ")%string ].

(** ** Point *)

Module Point.
Record t : Type := mk { x : Q; y : Q }.

(** Equality of points as pairs of JavaScript numbers. *)
Definition same (p q : t) : Prop := (x p == x q)%Q /\ (y p == y q)%Q.

(** [rotate(ccw, center)]: both new coordinates are computed from the old
    ones before either is stored. *)
Definition rotate (ccw : bool) (center : t) (this : t) : t :=
  let xFactor : Q := (if ccw then -1 else 1)%Q in
  let yFactor : Q := (if ccw then 1 else -1)%Q in
  mk (x center + xFactor * (y this - y center))%Q
     (y center + yFactor * (x this - x center))%Q.
End Point.

Definition POINT_ZERO : Point.t := Point.mk 0 0.

(** ** The grid *)

(** [grid: number[][]]: the rows from top to bottom.  The outer array is
    only changed by [push], [splice] and [unshift], so it has no holes. *)
Abbreviation Row := (list (option Q)) (only parsing).
Abbreviation Grid := (list (list (option Q))) (only parsing).

(** [grid[k]] for a number [k] *)
Definition grid_row (g : Grid) (k : Q) : option Row :=
  match as_index k with
  | Some i => g !! i
  | None => None
  end.

(** The initial grid: [GRID_HEIGHT] rows of [GRID_WIDTH] zeros. *)
Definition emptyRow : Row := replicate GRID_WIDTH (Some 0%Q).
Definition emptyGrid : Grid := replicate GRID_HEIGHT emptyRow.

(** [grid[rk][ck]]: [None] when the row is [undefined], where the member
    access throws; otherwise the cell, which may itself be [undefined]. *)
Definition grid_read (g : Grid) (rk ck : Q) : option (option Q) :=
  match grid_row g rk with
  | Some row => Some (JsArray.read row ck)
  | None => None
  end.

(** [grid[rk][ck] = v]: [None] when the row is [undefined]. *)
Definition grid_write (g : Grid) (rk ck : Q) (v : Q) : option Grid :=
  match as_index rk with
  | Some i =>
      match g !! i with
      | Some row => Some (<[i := JsArray.write row ck (Some v)]> g)
      | None => None
      end
  | None => None
  end.

(** ** The kick-offset table *)

(** [Array.prototype.sort] with a comparator: the elements in ascending
    order of the comparator, elements that compare equal keeping their
    relative order (the sort is stable).  [insert_sorted a l] puts [a],
    which preceded the elements of [l] in the array, before the first
    element it is not greater than. *)
Fixpoint insert_sorted {A} (cmp : A -> A -> Q) (a : A) (l : list A) : list A :=
  match l with
  | [] => [a]
  | b :: l' =>
      if Qltb 0 (cmp a b) then b :: insert_sorted cmp a l' else a :: b :: l'
  end.

Definition sort {A} (cmp : A -> A -> Q) (l : list A) : list A :=
  foldr (insert_sorted cmp) [] l.

(** [KICK_RANGE]: the loop [for (dx = -MAX_KICK; dx <= MAX_KICK; dx++)]. *)
Definition KICK_RANGE : list Q :=
  map (fun k : nat => inject_Z (Z.of_nat k - MAX_KICK))
      (seq 0 (Z.to_nat (2 * MAX_KICK + 1))).

Definition sqmag (a : Point.t) : Q :=
  (Point.x a * Point.x a + Point.y a * Point.y a)%Q.

Definition KICK_DELTAS : list Point.t :=
  sort (fun a b => sqmag a - sqmag b)%Q
    (foldl (fun a b => a ++ b) []
       (map (fun dy => map (fun dx => Point.mk dx dy) KICK_RANGE) KICK_RANGE)).

(** ** Piece *)

Module Piece.
Record t : Type := mk {
  blocks : list Point.t;
  centroid : Point.t;
  index : Q;
  position : Point.t
}.

Definition set_blocks (bs : list Point.t) (p : t) : t :=
  mk bs (centroid p) (index p) (position p).
Definition set_position (pos : Point.t) (p : t) : t :=
  mk (blocks p) (centroid p) (index p) pos.

(** The constructor.  [position.clone()] copies the two numbers. *)
Definition new {S} (blocks : list Point.t) (centroid : Point.t) (index : Q)
    (position : Point.t) : M S t :=
  (assert (length blocks =? NUM_BLOCKS)%nat "piece must have 4 blocks" ;;
   assert (isInt (Point.x centroid * 2) && isInt (Point.y centroid * 2))
     "centroid should be a multiple of 1/2" ;;
   assert (isInt index) "index should be an integer" ;;
   assert (Qltb 0 index) "index should be greater than 0" ;;
   ret (mk blocks centroid index position))%js.

(** [clone()] goes through the constructor again. *)
Definition clone {S} (p : t) : M S t :=
  new (blocks p) (centroid p) (index p) (position p).

(** What a method of a piece can reach: the receiver and the global
    [grid]. *)
Record store : Type := Store { this : t; grid : Grid }.

Definition on_this (f : t -> t) (s : store) : store :=
  Store (f (this s)) (grid s).

(** [place()] *)
Fixpoint place_loop (pts : list Point.t) : M store unit :=
  match pts with
  | [] => ret tt
  | pt :: rest =>
      (s <- get ;;
       let pos := position (this s) in
       match grid_write (grid s) (Point.y pt + Point.y pos)
                        (Point.x pt + Point.x pos) (index (this s)) with
       | Some g' => put (Store (this s) g') ;; place_loop rest
       | None => throw TypeError
       end)%js
  end.

Definition place : M store unit :=
  (s <- get ;; place_loop (blocks (this s)))%js.

(** [rotate(ccw)] *)
Definition rotate (ccw : bool) : M store unit :=
  modify (on_this (fun p =>
    set_blocks (map (Point.rotate ccw (centroid p)) (blocks p)) p)).

(** [fitsAt(x, y)] *)
Fixpoint fitsAt_loop (pts : list Point.t) (x y : Q) : M store bool :=
  match pts with
  | [] => ret true
  | pt :: rest =>
      let px := (Point.x pt + x)%Q in
      let py := (Point.y pt + y)%Q in
      if Qltb px 0 || Qgeb px (inject_Z (Z.of_nat GRID_WIDTH))
         || Qgeb py (inject_Z (Z.of_nat GRID_HEIGHT))
      then ret false
      else if Qltb py 0 then fitsAt_loop rest x y
      else
        (s <- get ;;
         match grid_read (grid s) py px with
         | None => throw TypeError
         | Some c =>
             if JsArray.nonzero c then ret false else fitsAt_loop rest x y
         end)%js
  end.

Definition fitsAt (x y : Q) : M store bool :=
  (s <- get ;; fitsAt_loop (blocks (this s)) x y)%js.

(** [moveDown()]: the result is whether the piece locked. *)
Definition moveDown : M store bool :=
  (s <- get ;;
   let pos := position (this s) in
   fits <- fitsAt (Point.x pos) (Point.y pos + 1) ;;
   if fits
   then modify (on_this (set_position
                  (Point.mk (Point.x pos) (Point.y pos + 1)))) ;;
        ret false
   else place ;; ret true)%js.

(** [moveHoriz(dx)] *)
Definition moveHoriz (dx : Q) : M store bool :=
  (assert (isInt dx) "dx should be a number" ;;
   s <- get ;;
   let pos := position (this s) in
   fits <- fitsAt (Point.x pos + dx) (Point.y pos) ;;
   if fits
   then modify (on_this (set_position
                  (Point.mk (Point.x pos + dx) (Point.y pos)))) ;;
        ret true
   else ret false)%js.

(** [kickRotate(ccw)]: the loop over [KICK_DELTAS] returns from the method
    at the first offset that fits; [None] means the loop ran to its end. *)
Fixpoint kick_loop (ds : list Point.t) : M store (option bool) :=
  match ds with
  | [] => ret None
  | d :: rest =>
      (s <- get ;;
       let pos := position (this s) in
       fits <- fitsAt (Point.x pos + Point.x d) (Point.y pos + Point.y d) ;;
       if fits
       then modify (on_this (set_position
                      (Point.mk (Point.x pos + Point.x d)
                                (Point.y pos + Point.y d)))) ;;
            ret (Some true)
       else kick_loop rest)%js
  end.

Definition kickRotate (ccw : bool) : M store bool :=
  (rotate ccw ;;
   r <- kick_loop KICK_DELTAS ;;
   match r with
   | Some b => ret b
   | None => rotate (negb ccw) ;; ret false
   end)%js.
End Piece.

(** ** The shape catalog *)

(** The state of the scan in [pieceFromString]: the blocks found so far,
    the two sums of [centroid] and [centroid_count]. *)
Record scan : Type := Scan {
  scan_blocks : list Point.t;
  scan_cx : Q;
  scan_cy : Q;
  scan_count : Q
}.

Definition is_char (c : option ascii) (a : ascii) : bool :=
  match c with
  | Some c' => Ascii.eqb c' a
  | None => false
  end.

(** One iteration of the loop over [i]. *)
Definition scan_step (str : string) (st : scan) (i : nat) : scan :=
  let c := String.get i str in
  let x := inject_Z (Z.of_nat i mod Z.of_nat (NUM_BLOCKS)) in
  let y := inject_Z (toInt32 (inject_Z (Z.of_nat i) / inject_Z (Z.of_nat NUM_BLOCKS))) in
  let st1 :=
    if is_char c "#" || is_char c "O"
    then Scan (scan_blocks st ++ [Point.mk x y])
              (scan_cx st) (scan_cy st) (scan_count st)
    else st in
  if is_char c "O" || is_char c ":"
  then Scan (scan_blocks st1) (scan_cx st1 + x) (scan_cy st1 + y)
            (scan_count st1 + 1)
  else st1.

Definition pieceFromString {S} (str : string) (index : Q) : M S Piece.t :=
  (assert (String.length str =? NUM_BLOCKS * NUM_BLOCKS)%nat
     "piece string should have length 16" ;;
   let st := foldl (scan_step str) (Scan [] 0 0 0)
               (seq 0 (NUM_BLOCKS * NUM_BLOCKS)) in
   assert (length (scan_blocks st) =? NUM_BLOCKS)%nat
     "piece string should have 4 blocks" ;;
   assert (Qltb 0 (scan_count st))
     "piece string should have at least one centroid" ;;
   Piece.new (scan_blocks st)
     (Point.mk (scan_cx st / scan_count st) (scan_cy st / scan_count st))
     index POINT_ZERO)%js.

(** [PIECE_STRINGS.map((str, i) => pieceFromString(str, i + 1))] *)
Fixpoint map_pieces {St} (strs : list string) (i : nat)
  : M St (list Piece.t) :=
  match strs with
  | [] => ret []
  | str :: rest =>
      (p <- pieceFromString str (inject_Z (Z.of_nat i) + 1) ;;
       ps <- map_pieces rest (S i) ;;
       ret (p :: ps))%js
  end.

(** The catalog is built when the script is loaded; no assertion fails
    (lemma [PIECES_built] below), so the script goes on with this value. *)
Definition PIECES : list Piece.t :=
  match map_pieces PIECE_STRINGS 0 tt with
  | Ret ps _ => ps
  | Throw _ _ => []
  end.

(** ** The bag randomizer *)

Module Bag.
Record t : Type := mk {
  bag : JsArray.t Piece.t;
  index : Z
}.

(** What a method of the bag can reach: the receiver, and the results of
    the calls of [Math.random()] still to come, the next one first. *)
Record store : Type := Store { this : t; entropy : nat -> Q }.

(** [Math.random()] *)
Definition random : M store Q :=
  fun s => Ret (entropy s 0%nat) (Store (this s) (fun n => entropy s (S n))).

(** [[this.bag[i], this.bag[j]] = [this.bag[j], this.bag[i]]]: the right
    side is read in full before the two cells are assigned, [i] first. *)
Definition swap (i j : Q) (b : JsArray.t Piece.t) : JsArray.t Piece.t :=
  let bj := JsArray.read b j in
  let bi := JsArray.read b i in
  JsArray.write (JsArray.write b i bj) j bi.

(** The loop of [shuffle()], entered with the loop variable at [i]. *)
Fixpoint shuffle_loop (i : nat) : M store unit :=
  match i with
  | O => ret tt
  | S i' =>
      (r <- random ;;
       let j := toInt32 (r * (inject_Z (Z.of_nat i) + 1)) in
       modify (fun s =>
         Store (mk (swap (inject_Z (Z.of_nat i)) (inject_Z j) (bag (this s)))
                   (index (this s)))
               (entropy s)) ;;
       shuffle_loop i')%js
  end.

(** [shuffle()] *)
Definition shuffle : M store unit :=
  (s <- get ;;
   shuffle_loop (length (bag (this s)) - 1) ;;
   modify (fun s => Store (mk (bag (this s)) 0) (entropy s)))%js.

(** [next()]: the result is [None] when the cell read is [undefined]. *)
Definition next : M store (option Piece.t) :=
  (s <- get ;;
   let ret_ := JsArray.read (bag (this s)) (inject_Z (index (this s))) in
   let index' := (index (this s) + 1)%Z in
   put (Store (mk (bag (this s)) index') (entropy s)) ;;
   (if (index' >=? Z.of_nat (length (bag (this s))))%Z
    then shuffle else ret tt) ;;
   ret ret_)%js.

(** [PIECES.map(p => p.clone())] *)
Fixpoint clone_all {St} (ps : list Piece.t) : M St (list Piece.t) :=
  match ps with
  | [] => ret []
  | p :: rest =>
      (p' <- Piece.clone p ;;
       ps' <- clone_all rest ;;
       ret (p' :: ps'))%js
  end.

(** [new Bag()], run on the pending results of [Math.random()].  The
    field [index] is first assigned by [shuffle()]. *)
Definition new : M (nat -> Q) t :=
  (ps <- clone_all PIECES ;;
   zoom (fun e => Store (mk (map Some ps) 0) e) (fun s _ => entropy s)
     (shuffle ;; s <- get ;; ret (this s)))%js.
End Bag.

(** ** The session *)

Module Game.
Record t : Type := mk {
  grid : Grid;
  currentPiece : option Piece.t;
  bag : Bag.t;
  entropy : nat -> Q
}.

(** Call a method of the piece that [currentPiece] refers to: the object
    is mutated in place, so the variable sees the change. *)
Definition call_current {A} (p : Piece.t) (m : M Piece.store A) : M t A :=
  zoom (fun g => Piece.Store p (grid g))
       (fun s g => mk (Piece.grid s) (Some (Piece.this s)) (bag g) (entropy g))
       m.

Definition call_bag {A} (m : M Bag.store A) : M t A :=
  zoom (fun g => Bag.Store (bag g) (entropy g))
       (fun s g => mk (grid g) (currentPiece g) (Bag.this s) (Bag.entropy s))
       m.

Definition set_currentPiece (c : option Piece.t) : M t unit :=
  modify (fun g => mk (grid g) c (bag g) (entropy g)).

(** [spawn()] *)
Definition spawn : M t unit :=
  (g <- get ;;
   assert (match currentPiece g with None => true | Some _ => false end)
     "spawning while current piece is not null" ;;
   nxt <- call_bag Bag.next ;;
   match nxt with
   | None => throw TypeError
   | Some q =>
       p <- Piece.clone q ;;
       set_currentPiece (Some p) ;;
       let spawnX :=
         inject_Z (toInt32
           ((inject_Z (Z.of_nat GRID_WIDTH)
             - arrayMax (map Point.x (Piece.blocks p))) / 2)) in
       let spawnY := (-1 - arrayMax (map Point.y (Piece.blocks p)))%Q in
       set_currentPiece
         (Some (Piece.set_position (Point.mk spawnX spawnY) p))
   end)%js.

(** The first loop of [clearLines()], entered with the loop variable at
    [n - 1]. *)
Fixpoint clear_loop (n : nat) : M Grid unit :=
  match n with
  | O => ret tt
  | S y =>
      (g <- get ;;
       match g !! y with
       | None => throw TypeError
       | Some row =>
           (if forallb JsArray.nonzero row then put (delete y g) else ret tt) ;;
           clear_loop y
       end)%js
  end.

(** The second loop, [while (grid.length !== GRID_HEIGHT) grid.unshift(newRow)],
    with a bound on the number of iterations; [None] when the bound is
    reached. *)
Fixpoint refill (fuel : nat) (g : Grid) : option Grid :=
  if (length g =? GRID_HEIGHT)%nat then Some g
  else match fuel with
       | O => None
       | S fuel' => refill fuel' (replicate GRID_WIDTH (Some 0%Q) :: g)
       end.

(** [clearLines()] *)
Definition clearLines (fuel : nat) (g : Grid) : option (outcome Grid unit) :=
  match clear_loop GRID_HEIGHT g with
  | Ret _ g1 =>
      match refill fuel g1 with
      | Some g2 => Some (Ret tt g2)
      | None => None
      end
  | Throw e g1 => Some (Throw e g1)
  end.

Definition set_grid (gr : Grid) (g : t) : t :=
  mk gr (currentPiece g) (bag g) (entropy g).

(** [movePieceDown()], the step the interval timer runs.  The final call
    of [render()] draws the state into the page and assigns nothing in
    this store; it is left out. *)
Definition movePieceDown (fuel : nat) (g : t) : option (outcome t unit) :=
  match currentPiece g with
  | None => Some (spawn g)
  | Some p =>
      match call_current p Piece.moveDown g with
      | Ret true g1 => Some (set_currentPiece None g1)
      | Ret false g1 =>
          match clearLines fuel (grid g1) with
          | Some (Ret _ gr) => Some (Ret tt (set_grid gr g1))
          | Some (Throw e gr) => Some (Throw e (set_grid gr g1))
          | None => None
          end
      | Throw e g1 => Some (Throw e g1)
      end
  end.
End Game.

(** ** Vocabulary of the statements *)

(** The store an outcome ends in, whether it returned or threw. *)
Definition final {S A} (o : outcome S A) : S :=
  match o with
  | Ret _ s => s
  | Throw _ s => s
  end.

(** Both coordinates of a point are integers. *)
Definition integral_point (pt : Point.t) : bool :=
  integral (Point.x pt) && integral (Point.y pt).

(** Every block of a piece has integer coordinates. *)
Definition integral_blocks (p : Piece.t) : bool :=
  forallb integral_point (Piece.blocks p).

(** Two block sequences hold the same numbers, block by block. *)
Definition same_blocks (bs bs' : list Point.t) : Prop :=
  Forall2 Point.same bs bs'.

(** The grid invariant: [GRID_HEIGHT] rows, each of [GRID_WIDTH] cells
    that hold a number. *)
Definition wf_row (row : Row) : bool :=
  (length row =? GRID_WIDTH)%nat
  && forallb (fun c : option Q => match c with Some _ => true | None => false end)
       row.

Definition wf_grid (g : Grid) : bool :=
  (length g =? GRID_HEIGHT)%nat && forallb wf_row g.

(** The grid cell in row [row] and column [col] exists and is empty: it
    holds the number 0. *)
Definition cell_empty (g : Grid) (row col : Q) : bool :=
  match grid_read g row col with
  | Some (Some v) => Qeq_bool v 0
  | _ => false
  end.

(** The condition of the specification on one absolute cell: the column
    is in [0, width), the row is below [height], and a row that is not
    above the grid has an empty cell there. *)
Definition cell_passable (g : Grid) (col row : Q) : Prop :=
  (0 <= col)%Q /\ (col < inject_Z (Z.of_nat GRID_WIDTH))%Q
  /\ (row < inject_Z (Z.of_nat GRID_HEIGHT))%Q
  /\ ((0 <= row)%Q -> cell_empty g row col = true).

(** The condition on every block of a piece placed at [(x, y)]. *)
Definition fits_spec (p : Piece.t) (g : Grid) (x y : Q) : Prop :=
  Forall (fun b => cell_passable g (Point.x b + x) (Point.y b + y))
         (Piece.blocks p).

(** Every block's absolute row is in [0, height). *)
Definition rows_on_grid (p : Piece.t) : bool :=
  forallb (fun b =>
    let row := (Point.y b + Point.y (Piece.position p))%Q in
    Qle_bool 0 row && Qltb row (inject_Z (Z.of_nat GRID_HEIGHT)))
    (Piece.blocks p).

(** Every block's absolute column is in [0, width). *)
Definition columns_on_grid (p : Piece.t) : bool :=
  forallb (fun b =>
    let col := (Point.x b + Point.x (Piece.position p))%Q in
    Qle_bool 0 col && Qltb col (inject_Z (Z.of_nat GRID_WIDTH)))
    (Piece.blocks p).

(** Some block's absolute row is negative. *)
Definition above_grid (p : Piece.t) : bool :=
  existsb (fun b => Qltb (Point.y b + Point.y (Piece.position p)) 0)
    (Piece.blocks p).

(** The candidate kick offsets in the words of the specification: every
    pair (dx, dy) with dx and dy in [-3, 3]. *)
Definition kick_candidates : list Point.t :=
  flat_map (fun dy : Z =>
    map (fun dx : Z => Point.mk (inject_Z dx) (inject_Z dy))
        [-3; -2; -1; 0; 1; 2; 3]%Z)
    [-3; -2; -1; 0; 1; 2; 3]%Z.

(** Ascending order of dx^2 + dy^2. *)
Definition by_sqmag (a b : Point.t) : Prop := (sqmag a <= sqmag b)%Q.

(** The position of a piece moved by an offset. *)
Definition kicked (d : Point.t) (p : Piece.t) : Piece.t :=
  Piece.set_position
    (Point.mk (Point.x (Piece.position p) + Point.x d)
              (Point.y (Piece.position p) + Point.y d)) p.

(** A piece with its blocks rotated about its centroid. *)
Definition turned (ccw : bool) (p : Piece.t) : Piece.t :=
  Piece.set_blocks
    (map (Point.rotate ccw (Piece.centroid p)) (Piece.blocks p)) p.

(** A row in which every cell is non-empty. *)
Definition row_full (row : Row) : bool := forallb JsArray.nonzero row.

(** Line clearing in the words of the specification: the full rows of the
    grid as it is before any removal are discarded, and as many empty
    rows are put on top. *)
Definition cleared (g : Grid) : Grid :=
  let kept := List.filter (fun row => negb (row_full row)) g in
  replicate (length g - length kept) emptyRow ++ kept.

(** [n] consecutive calls of [next()], with their results in order. *)
Fixpoint next_calls (n : nat) : M Bag.store (list (option Piece.t)) :=
  match n with
  | O => ret []
  | S n' =>
      (r <- Bag.next ;;
       rs <- next_calls n' ;;
       ret (r :: rs))%js
  end.

(** The kind identities of the pieces a run of calls returned; [None] for
    a result that is [undefined]. *)
Definition identities (run : list (option Piece.t)) : list (option Q) :=
  map (fmap Piece.index) run.

(** [Math.random()] keeps to its contract: every result is in [0, 1). *)
Definition unit_interval (entropy : nat -> Q) : Prop :=
  forall k, (0 <= entropy k)%Q /\ (entropy k < 1)%Q.

(** The invariant of the bag: its cells are the pieces of the catalog in
    some order, the cursor is in [0, bagSize), and the random numbers to
    come are in [0, 1). *)
Definition bag_ok (s : Bag.store) : Prop :=
  Bag.bag (Bag.this s) ≡ₚ map Some PIECES
  /\ (0 <= Bag.index (Bag.this s)
      < Z.of_nat (length (Bag.bag (Bag.this s))))%Z
  /\ unit_interval (Bag.entropy s).

(** ** Sample states *)

(** The O piece as [spawn()] leaves it: column [(10 - 1) / 2 | 0 = 4], row
    [-1 - 1 = -2]. *)
Definition O_spawned : Piece.t :=
  Piece.mk [Point.mk 0 0; Point.mk 1 0; Point.mk 0 1; Point.mk 1 1]
    (Point.mk (2 # 4) (2 # 4)) 4 (Point.mk 4 (-2)).

(** The O piece resting on the floor of the grid, and one row above it. *)
Definition O_floor : Piece.t := Piece.set_position (Point.mk 4 18) O_spawned.
Definition O_above_floor : Piece.t :=
  Piece.set_position (Point.mk 4 17) O_spawned.

(** Column 5 filled to the top, as five I pieces dropped from their spawn
    column leave it. *)
Definition tower : Grid :=
  replicate GRID_HEIGHT (<[5%nat := Some 1%Q]> emptyRow).

(** A grid with rows 3 and 5 full and three cells set in row 4. *)
Definition fullRow : Row := replicate GRID_WIDTH (Some 2%Q).
Definition partRow : Row :=
  <[0%nat := Some 3%Q]> (<[1%nat := Some 3%Q]> (<[2%nat := Some 3%Q]> emptyRow)).
Definition two_full_rows : Grid :=
  <[3%nat := fullRow]> (<[4%nat := partRow]> (<[5%nat := fullRow]> emptyGrid)).

(** A session about to complete the bottom row: row 19 is full except
    for columns 4 and 5, and the O piece rests in those columns on the
    floor. *)
Definition gapRow : Row :=
  [Some 1; Some 1; Some 1; Some 1; Some 0; Some 0;
   Some 1; Some 1; Some 1; Some 1]%Q.
Definition nearly_full : Grid := replicate 19 emptyRow ++ [gapRow].
Definition closing_session : Game.t :=
  Game.mk nearly_full (Some O_floor) (Bag.mk (map Some PIECES) 0)
    (fun _ => 0%Q).

(** The T piece after [rotate(false)], at the top of a grid whose column
    5 is filled from row 2 down: it cannot move down, and its third block
    is above the grid. *)
Definition T_turned : Piece.t :=
  Piece.set_position (Point.mk 4 0)
    (turned false
       (Piece.mk [Point.mk 0 0; Point.mk 1 0; Point.mk 2 0; Point.mk 1 1]
          (Point.mk 1 0) 7 POINT_ZERO)).
Definition high_stack : Grid :=
  replicate 2 emptyRow ++ replicate 18 (<[5%nat := Some 1%Q]> emptyRow).

(** ** Vocabulary of the further properties *)

(** The assertions of the [Piece] constructor, as a test on a piece. *)
Definition valid_piece (p : Piece.t) : bool :=
  (length (Piece.blocks p) =? NUM_BLOCKS)%nat
  && (isInt (Point.x (Piece.centroid p) * 2)
      && isInt (Point.y (Piece.centroid p) * 2))
  && isInt (Piece.index p)
  && Qltb 0 (Piece.index p).


(** What no method of a piece changes: the centroid, the identity and the
    number of blocks. *)
Definition same_kind (p p' : Piece.t) : Prop :=
  Piece.centroid p' = Piece.centroid p
  /\ Piece.index p' = Piece.index p
  /\ length (Piece.blocks p') = length (Piece.blocks p).


(** ** More of the source: the hard drop and the ghost row *)

(** The hard drop of the keyboard handler,
    [while (!currentPiece.moveDown());], with a bound on the number of
    calls; [None] when the bound is reached. *)
Fixpoint hardDrop (fuel : nat) (s : Piece.store)
  : option (outcome Piece.store unit) :=
  match fuel with
  | O => None
  | S fuel' =>
      match Piece.moveDown s with
      | Ret true s' => Some (Ret tt s')
      | Ret false s' => hardDrop fuel' s'
      | Throw e s' => Some (Throw e s')
      end
  end.

(** The ghost row of [render()]:
    [while (currentPiece.fitsAt(currentPiece.position.x, ghostY + 1)) ghostY++;]
    with a bound on the number of tests. *)
Fixpoint ghost_loop (fuel : nat) (ghostY : Q) (s : Piece.store)
  : option (outcome Piece.store Q) :=
  match fuel with
  | O => None
  | S fuel' =>
      match Piece.fitsAt (Point.x (Piece.position (Piece.this s)))
                         (ghostY + 1) s with
      | Ret true s' => ghost_loop fuel' (ghostY + 1) s'
      | Ret false s' => Some (Ret ghostY s')
      | Throw e s' => Some (Throw e s')
      end
  end.

(** [let ghostY = currentPiece.position.y;] and the loop. *)
Definition ghostRow (fuel : nat) (s : Piece.store)
  : option (outcome Piece.store Q) :=
  ghost_loop fuel (Point.y (Piece.position (Piece.this s))) s.


(** The position [spawn()] computes for a piece of kind [k]. *)
Definition spawnPosition (k : Piece.t) : Point.t :=
  Point.mk
    (inject_Z (toInt32
       ((inject_Z (Z.of_nat GRID_WIDTH)
         - arrayMax (map Point.x (Piece.blocks k))) / 2)))
    (-1 - arrayMax (map Point.y (Piece.blocks k))).

(** Every block's absolute row is negative. *)
Definition all_above (p : Piece.t) : bool :=
  forallb (fun b => Qltb (Point.y b + Point.y (Piece.position p)) 0)
    (Piece.blocks p).

(** Some block's absolute row is -1, the row just above the grid. *)
Definition touches_top (p : Piece.t) : bool :=
  existsb (fun b => Qeq_bool (Point.y b + Point.y (Piece.position p)) (-1))
    (Piece.blocks p).


(** ** More of the source: the keyboard handler *)

Definition discard {S A} (o : outcome S A) : outcome S unit :=
  match o with
  | Ret _ s => Ret tt s
  | Throw e s => Throw e s
  end.

(** The [keydown] listener of [setupKeyboard()], applied to [ev.code].
    Its calls of [render()] draw the state into the page and assign
    nothing in this store; they are left out.  The loop of the hard drop
    has a bound, as in [hardDrop]. *)
Definition keydown (fuel : nat) (code : string) (g : Game.t)
  : option (outcome Game.t unit) :=
  match Game.currentPiece g with
  | None => Some (Ret tt g)
  | Some p =>
      if String.eqb code "ArrowLeft"
      then Some (discard (Game.call_current p (Piece.moveHoriz (-1)) g))
      else if String.eqb code "ArrowRight"
      then Some (discard (Game.call_current p (Piece.moveHoriz 1) g))
      else if String.eqb code "ArrowDown"
      then Some (discard (Game.call_current p Piece.moveDown g))
      else if String.eqb code "ArrowUp"
      then match hardDrop fuel (Piece.Store p (Game.grid g)) with
           | Some (Ret _ s) =>
               Some (Ret tt (Game.mk (Piece.grid s) (Some (Piece.this s))
                               (Game.bag g) (Game.entropy g)))
           | Some (Throw e s) =>
               Some (Throw e (Game.mk (Piece.grid s) (Some (Piece.this s))
                                (Game.bag g) (Game.entropy g)))
           | None => None
           end
      else if String.eqb code "KeyZ"
      then Some (discard (Game.call_current p (Piece.kickRotate true) g))
      else if String.eqb code "KeyX"
      then Some (discard (Game.call_current p (Piece.kickRotate false) g))
      else Some (Ret tt g)
  end.

(** ** The invariant of a session *)

(** Every block's absolute row is above the floor of the grid. *)
Definition rows_above_floor (p : Piece.t) : bool :=
  forallb (fun b =>
    Qltb (Point.y b + Point.y (Piece.position p))
         (inject_Z (Z.of_nat GRID_HEIGHT)))
    (Piece.blocks p).

(** The active piece passes the constructor's assertions, is on the
    integer lattice, with a centroid that keeps it there, and has every
    block within the columns of the grid and above its floor. *)
Definition piece_ok (p : Piece.t) : bool :=
  integral_blocks p && integral_point (Piece.position p)
  && integral (Point.x (Piece.centroid p) - Point.y (Piece.centroid p))
  && integral (Point.y (Piece.centroid p) * 2)
  && valid_piece p
  && columns_on_grid p && rows_above_floor p.

(** The grid is well-formed, the bag is in order, and the active piece,
    if there is one, is in order. *)
Definition session_ok (g : Game.t) : Prop :=
  wf_grid (Game.grid g) = true
  /\ bag_ok (Bag.Store (Game.bag g) (Game.entropy g))
  /\ match Game.currentPiece g with
     | Some p => piece_ok p = true
     | None => True
     end.


(** ** Templates in the words of the catalog *)

(** The cell of a 4x4 template at scan index [i]: column [i mod 4], row
    [i / 4]. *)
Definition template_cell (i : nat) : Point.t :=
  Point.mk (inject_Z (Z.of_nat (i mod 4))) (inject_Z (Z.of_nat (i / 4))).

(** The character at scan index [i] marks a block: ['#'] or ['O']. *)
Definition marks_block (str : string) (i : nat) : bool :=
  is_char (String.get i str) "#" || is_char (String.get i str) "O".

(** The character at scan index [i] counts for the centroid: ['O'] or
    [':']. *)
Definition marks_centroid (str : string) (i : nat) : bool :=
  is_char (String.get i str) "O" || is_char (String.get i str) ":".

Definition Qsum (l : list Q) : Q := fold_right Qplus 0%Q l.


(** The scan of [pieceFromString] over a whole template: the state after
    the loop. *)
Definition scan_all (str : string) : scan :=
  foldl (scan_step str) (Scan [] 0 0 0) (seq 0 (NUM_BLOCKS * NUM_BLOCKS)).


(** ** More of the source: drawing *)

Definition BACKGROUND_COLOR : string := "#343434".

Definition COLORS : list string :=
  [ BACKGROUND_COLOR; (* I *) "cyan"; (* J *) "blue"; (* L *) "orange";
    (* O *) "yellow"; (* S *) "lime"; (* Z *) "red"; (* T *) "purple" ]%string.

(** [gridEls: GridCellElement[][]], which [createGrid()] builds with
    [push]: rows of cell elements, without holes.  Of a cell element the
    model keeps the value last assigned to [el.style.backgroundColor],
    a string or [undefined] ([None]); what the browser makes of that value
    is outside the program. *)
Abbreviation Screen := (list (list (option string))) (only parsing).

(** [COLORS[k]], where [k] is a number or [undefined]. *)
Definition COLORS_at (k : option Q) : option string :=
  match k with
  | Some q =>
      match as_index q with
      | Some i => COLORS !! i
      | None => None
      end
  | None => None
  end.

(** [gridEls[rk][ck].setColor(color)]: a TypeError when [gridEls[rk]] or
    [gridEls[rk][ck]] is [undefined]. *)
Definition setColor_at (rk ck : Q) (color : option string) : M Screen unit :=
  fun scr =>
    match as_index rk with
    | Some i =>
        match scr !! i with
        | Some row =>
            match as_index ck with
            | Some j =>
                if (j <? length row)%nat
                then Ret tt (<[i := <[j := color]> row]> scr)
                else Throw TypeError scr
            | None => Throw TypeError scr
            end
        | None => Throw TypeError scr
        end
    | None => Throw TypeError scr
    end.

(** [a || b] with [a: number | null]: [null] and [0] are falsy. *)
Definition number_or (a : option Q) (b : Q) : Q :=
  match a with
  | Some v => if Qeq_bool v 0 then b else v
  | None => b
  end.

(** [a || b] with [a: string | null]: [null] and the empty string are
    falsy. *)
Definition color_or (a b : option string) : option string :=
  match a with
  | Some EmptyString => b
  | Some c => Some c
  | None => b
  end.

(** [Piece.render(colorOverride, positionOverrideX, positionOverrideY)];
    the method reads the receiver and assigns only to the cell elements. *)
Fixpoint Piece_render_loop (this : Piece.t) (colorOverride : option string)
    (posX posY : Q) (pts : list Point.t) : M Screen unit :=
  match pts with
  | [] => ret tt
  | pt :: rest =>
      if Qltb (Point.y pt + posY) 0
      then Piece_render_loop this colorOverride posX posY rest
      else
        (setColor_at (Point.y pt + posY) (Point.x pt + posX)
           (color_or colorOverride (COLORS_at (Some (Piece.index this)))) ;;
         Piece_render_loop this colorOverride posX posY rest)%js
  end.

Definition Piece_render (colorOverride : option string)
    (positionOverrideX positionOverrideY : option Q) (this : Piece.t)
  : M Screen unit :=
  let posX := number_or positionOverrideX (Point.x (Piece.position this)) in
  let posY := number_or positionOverrideY (Point.y (Piece.position this)) in
  Piece_render_loop this colorOverride posX posY (Piece.blocks this).

(** [renderGrid()], which reads the global [grid].  The inner loop over
    [x], for the row [y]; a TypeError when [grid[y]] is [undefined]. *)
Fixpoint renderGrid_cells (g : Grid) (y : nat) (xs : list nat)
  : M Screen unit :=
  match xs with
  | [] => ret tt
  | x :: rest =>
      match grid_read g (inject_Z (Z.of_nat y)) (inject_Z (Z.of_nat x)) with
      | None => throw TypeError
      | Some c =>
          (setColor_at (inject_Z (Z.of_nat y)) (inject_Z (Z.of_nat x))
             (COLORS_at c) ;;
           renderGrid_cells g y rest)%js
      end
  end.

Fixpoint renderGrid_rows (g : Grid) (ys : list nat) : M Screen unit :=
  match ys with
  | [] => ret tt
  | y :: rest =>
      (renderGrid_cells g y (seq 0 GRID_WIDTH) ;; renderGrid_rows g rest)%js
  end.

Definition renderGrid (g : Grid) : M Screen unit :=
  renderGrid_rows g (seq 0 GRID_HEIGHT).

(** The session together with the page it is drawn into. *)
Record page : Type := Page { session : Game.t; gridEls : Screen }.

Definition on_screen {A} (m : M Screen A) : M page A :=
  zoom gridEls (fun scr u => Page (session u) scr) m.

(** [render()], with the bound of [ghost_loop] on its loop. *)
Definition render (fuel : nat) (u : page) : option (outcome page unit) :=
  match on_screen (renderGrid (Game.grid (session u))) u with
  | Throw e u1 => Some (Throw e u1)
  | Ret _ u1 =>
      match Game.currentPiece (session u1) with
      | None => Some (Ret tt u1)
      | Some p =>
          let back (s : Piece.store) :=
            Page (Game.mk (Piece.grid s) (Some (Piece.this s))
                    (Game.bag (session u1)) (Game.entropy (session u1)))
                 (gridEls u1) in
          match ghostRow fuel (Piece.Store p (Game.grid (session u1))) with
          | None => None
          | Some (Throw e s) => Some (Throw e (back s))
          | Some (Ret ghostY s) =>
              let q := Piece.this s in
              Some (on_screen
                      (Piece_render (Some "gray"%string)
                         (Some (Point.x (Piece.position q))) (Some ghostY) q ;;
                       Piece_render None None None q)%js
                      (back s))
          end
      end
  end.

(** [movePieceDown()] with its final [render()]: the whole step of the
    interval timer.  After [spawn()] the function returns at once, so
    nothing is drawn in that step. *)
Definition movePieceDown_drawn (fuel : nat) (u : page)
  : option (outcome page unit) :=
  match Game.currentPiece (session u) with
  | None =>
      Some (zoom session (fun g u' => Page g (gridEls u')) Game.spawn u)
  | Some _ =>
      match Game.movePieceDown fuel (session u) with
      | None => None
      | Some (Throw e g) => Some (Throw e (Page g (gridEls u)))
      | Some (Ret _ g) => render fuel (Page g (gridEls u))
      end
  end.

(** The page as [createGrid()] leaves it: the constructor of
    [GridCellElement] gives every cell the background colour. *)
Definition blank_page : Screen :=
  replicate GRID_HEIGHT (replicate GRID_WIDTH (Some BACKGROUND_COLOR)).

(** ** Vocabulary of the drawing *)

(** The page has [GRID_HEIGHT] rows of [GRID_WIDTH] cell elements, as
    [createGrid()] leaves it. *)
Definition screen_ok (scr : Screen) : bool :=
  (length scr =? GRID_HEIGHT)%nat
  && forallb (fun row => (length row =? GRID_WIDTH)%nat) scr.

(** The colour of the cell element in row [r], column [c]. *)
Definition colour_of (scr : Screen) (r c : nat) : option (option string) :=
  scr !! r ≫= fun row => row !! c.

(** What the grid alone shows in a cell: the colour of the number there. *)
Definition grid_colour (g : Grid) (r c : nat) : option string :=
  COLORS_at (g !! r ≫= fun row => mjoin (row !! c)).

(** The block [b] of a piece at [(posX, posY)] is on the cell in row [r],
    column [c]. *)
Definition on_cell (posX posY : Q) (r c : nat) (b : Point.t) : bool :=
  Qeq_bool (Point.y b + posY) (inject_Z (Z.of_nat r))
  && Qeq_bool (Point.x b + posX) (inject_Z (Z.of_nat c)).

(** Some block of the piece, with the piece in its column and in row
    [posY], is on the cell in row [r], column [c]. *)
Definition covers (p : Piece.t) (posY : Q) (r c : nat) : bool :=
  existsb (on_cell (Point.x (Piece.position p)) posY r c) (Piece.blocks p).

(** What [render()] leaves in a cell, with [ghostY] the row its loop
    found: the colour of the active piece on the cells of its blocks;
    gray on the other cells of the ghost, which is the piece in row
    [ghostY || position.y]; and the colour of the grid's number
    elsewhere. *)
Definition shown (g : Game.t) (ghostY : Q) (r c : nat) : option string :=
  match Game.currentPiece g with
  | Some p =>
      let posY := Point.y (Piece.position p) in
      if covers p posY r c then COLORS_at (Some (Piece.index p))
      else if covers p (number_or (Some ghostY) posY) r c
      then Some "gray"%string
      else grid_colour (Game.grid g) r c
  | None => grid_colour (Game.grid g) r c
  end.



(** ** Directions of rotation *)

(** The two pairs of formulas of the specification. *)
Definition clockwise_formulas (center p : Point.t) : Point.t :=
  Point.mk (Point.x center - (Point.y p - Point.y center))
           (Point.y center + (Point.x p - Point.x center)).

Definition counter_clockwise_formulas (center p : Point.t) : Point.t :=
  Point.mk (Point.x center + (Point.y p - Point.y center))
           (Point.y center - (Point.x p - Point.x center)).

(** The grid is shown with its rows counted downward: [grid[0]] is the
    top row, and [y] grows toward the floor.  Seen on the screen, a turn
    about [center] that takes [p] to [p'] is a clockwise quarter turn when
    the two offsets from the center are at a right angle, of the same
    length, and the turn goes the way from the positive x axis (to the
    right) to the positive y axis (down). *)
Definition clockwise_on_screen (center p p' : Point.t) : Prop :=
  let dx := (Point.x p - Point.x center)%Q in
  let dy := (Point.y p - Point.y center)%Q in
  let dx' := (Point.x p' - Point.x center)%Q in
  let dy' := (Point.y p' - Point.y center)%Q in
  (dx * dx' + dy * dy' == 0)%Q
  /\ (dx' * dx' + dy' * dy' == dx * dx + dy * dy)%Q
  /\ (0 < dx * dy' - dy * dx')%Q.

(** The T piece of the catalog, fallen to row 5 of the grid: the flat
    side in row 5, the stem one row below the centroid. *)
Definition T_falling : Piece.t :=
  Piece.mk [Point.mk 0 0; Point.mk 1 0; Point.mk 2 0; Point.mk 1 1]
    (Point.mk 1 0) 7 (Point.mk 4 5).

(** * Properties *)

(** ** Numbers and indices *)

Lemma integral_iff (q : Q) :
  integral q = true <-> exists z : Z, (q == inject_Z z)%Q.
Proof.
  destruct q as [n d]. unfold integral, Qeq. cbn [Qnum Qden inject_Z].
  rewrite Z.eqb_eq. split.
  - intros H. exists (n / Zpos d)%Z.
    pose proof (Z.div_mod n (Zpos d) ltac:(lia)). lia.
  - intros [z Hz]. rewrite Z.mul_1_r in Hz. subst n.
    apply Z.mod_mul. lia.
Qed.

Lemma integral_inject_Z (z : Z) : integral (inject_Z z) = true.
Proof. apply integral_iff. exists z. reflexivity. Qed.

Lemma integral_proper (q q' : Q) :
  (q == q')%Q -> integral q = integral q'.
Proof.
  intros E. apply eq_true_iff_eq. rewrite !integral_iff.
  split; intros [z Hz]; exists z; [rewrite <- E | rewrite E]; exact Hz.
Qed.

Lemma as_index_Some (q : Q) (k : nat) :
  as_index q = Some k <-> (q == inject_Z (Z.of_nat k))%Q.
Proof.
  unfold as_index. split.
  - destruct (integral q) eqn:Hi; cbn [andb]; [|discriminate].
    destruct (0 <=? Qnum q)%Z eqn:Hs; [|discriminate].
    intros [= <-]. apply Z.leb_le in Hs.
    apply integral_iff in Hi. destruct Hi as [z Hz].
    destruct q as [n d]. unfold Qeq in *.
    cbn [Qnum Qden inject_Z] in *. rewrite Z.mul_1_r in Hz. subst n.
    rewrite Z.div_mul by lia. rewrite Z2Nat.id; [lia|]. nia.
  - intros E.
    assert (Hi : integral q = true) by (apply integral_iff; eauto).
    rewrite Hi. cbn [andb].
    destruct q as [n d]. unfold Qeq in E.
    cbn [Qnum Qden inject_Z] in *. rewrite Z.mul_1_r in E. subst n.
    replace (0 <=? Z.of_nat k * Z.pos d)%Z with true
      by (symmetry; apply Z.leb_le; nia).
    rewrite Z.div_mul by lia. by rewrite Nat2Z.id.
Qed.

Lemma as_index_proper (q q' : Q) : (q == q')%Q -> as_index q = as_index q'.
Proof.
  intros E. destruct (as_index q) as [k|] eqn:Hq.
  - symmetry. apply as_index_Some. rewrite <- E. by apply as_index_Some.
  - destruct (as_index q') as [k|] eqn:Hq'; [|done].
    apply as_index_Some in Hq'. rewrite <- E in Hq'.
    apply as_index_Some in Hq'. congruence.
Qed.

Lemma as_index_negative (q : Q) : (q < 0)%Q -> as_index q = None.
Proof.
  intros H. destruct (as_index q) as [k|] eqn:Hq; [|done].
  apply as_index_Some in Hq. rewrite Hq in H.
  unfold Qlt in H. cbn in H. lia.
Qed.

Lemma Qltb_lt (a b : Q) : Qltb a b = true <-> (a < b)%Q.
Proof.
  unfold Qltb. rewrite negb_true_iff. split.
  - intros H. apply Qnot_le_lt. intros Hle.
    apply Qle_bool_iff in Hle. congruence.
  - intros H. destruct (Qle_bool b a) eqn:E; [|done].
    apply Qle_bool_iff in E. exfalso. by apply (Qlt_not_le a b).
Qed.

Lemma Qltb_ge (a b : Q) : Qltb a b = false <-> (b <= a)%Q.
Proof.
  unfold Qltb. rewrite negb_false_iff. apply Qle_bool_iff.
Qed.

Lemma Qgeb_ge (a b : Q) : Qgeb a b = true <-> (b <= a)%Q.
Proof. apply Qle_bool_iff. Qed.

Lemma Qgeb_lt (a b : Q) : Qgeb a b = false <-> (a < b)%Q.
Proof.
  unfold Qgeb. split.
  - intros H. apply Qnot_le_lt. intros Hle.
    apply Qle_bool_iff in Hle. congruence.
  - intros H. destruct (Qle_bool b a) eqn:E; [|done].
    apply Qle_bool_iff in E. exfalso. by apply (Qlt_not_le a b).
Qed.

(** ** Geometry *)

Lemma sum_of_squares_positive (a b : Q) :
  ~ (a == 0 /\ b == 0)%Q -> (0 < a * a + b * b)%Q.
Proof.
  intros Hne.
  destruct (Qeq_dec a 0) as [Ha|Ha], (Qeq_dec b 0) as [Hb|Hb];
    [by destruct Hne|nra..].
Qed.

(** C2, the code against the claim: the flag [ccw] is inverted.  With
    [ccw = true] [Point.rotate] computes the formulas that the claim gives
    for the clockwise direction, and with [ccw = false] those that it
    gives for the counter-clockwise direction.  On the grid, whose rows
    are counted downward, the first is the clockwise quarter turn and the
    second is not: the claim's formulas are right about the directions,
    and the code turns clockwise when asked to turn counter-clockwise.
    At the failing input, [kickRotate(false)] on the T piece of the
    catalog in open space, the stem, which is one cell below the
    centroid, goes to the cell on the right of the centroid; the
    clockwise formulas put it on the left. *)
Theorem rotate_flag_inverted :
  (forall center p,
      Point.same (Point.rotate true center p) (clockwise_formulas center p)
      /\ Point.same (Point.rotate false center p)
           (counter_clockwise_formulas center p))
  /\ (forall center p, ~ Point.same p center ->
        clockwise_on_screen center p (Point.rotate true center p)
        /\ ~ clockwise_on_screen center p (Point.rotate false center p))
  /\ In (Piece.set_position POINT_ZERO T_falling) PIECES
  /\ Piece.kickRotate false (Piece.Store T_falling emptyGrid)
     = Ret true
         (Piece.Store
            (Piece.set_blocks
               [Point.mk 1 1; Point.mk 1 0; Point.mk 1 (-1); Point.mk 2 0]
               T_falling)
            emptyGrid)
  /\ Point.same (clockwise_formulas (Point.mk 1 0) (Point.mk 1 1))
       (Point.mk 0 0)
  /\ ~ Point.same (Point.mk 2 0)
         (clockwise_formulas (Point.mk 1 0) (Point.mk 1 1)).
Proof.
  split.
  { intros center p.
    unfold Point.same, Point.rotate, clockwise_formulas,
      counter_clockwise_formulas.
    cbn [Point.x Point.y]. repeat split; ring. }
  split.
  { intros center p Hne.
    assert (Hpos : (0 < (Point.x p - Point.x center) * (Point.x p - Point.x center)
                      + (Point.y p - Point.y center) * (Point.y p - Point.y center))%Q).
    { apply sum_of_squares_positive. intros [Hx Hy]. apply Hne.
      split; lra. }
    unfold clockwise_on_screen, Point.rotate. cbn [Point.x Point.y]. cbv zeta.
    split.
    - split; [ring|]. split; [ring|].
      eapply Qlt_le_trans; [exact Hpos|]. apply Qle_lteq. right. ring.
    - intros (_ & _ & Hturn). revert Hturn. apply Qle_not_lt.
      apply Qle_trans with
        (- ((Point.x p - Point.x center) * (Point.x p - Point.x center)
            + (Point.y p - Point.y center) * (Point.y p - Point.y center)))%Q;
        [apply Qle_lteq; right; ring|lra]. }
  split; [by vm_compute; tauto|].
  split; [by vm_compute|].
  split; [by split|].
  intros [Hx _]. vm_compute in Hx. discriminate Hx.
Qed.

Lemma rotate_four_times (ccw : bool) (c pt : Point.t) :
  Point.same
    (Point.rotate ccw c (Point.rotate ccw c
       (Point.rotate ccw c (Point.rotate ccw c pt)))) pt.
Proof.
  unfold Point.same, Point.rotate. cbn [Point.x Point.y].
  destruct ccw; split; ring.
Qed.

Lemma rotate_there_and_back (ccw : bool) (c pt : Point.t) :
  Point.same (Point.rotate (negb ccw) c (Point.rotate ccw c pt)) pt.
Proof.
  unfold Point.same, Point.rotate. cbn [Point.x Point.y].
  destruct ccw; split; cbn [negb]; ring.
Qed.

Lemma same_blocks_map (f : Point.t -> Point.t) (bs : list Point.t) :
  (forall pt, Point.same (f pt) pt) -> same_blocks (map f bs) bs.
Proof.
  intros Hf. unfold same_blocks.
  induction bs as [|b bs IH]; cbn [map]; constructor; auto.
Qed.

(** C7: for every piece of the catalog, either direction and any grid,
    four calls of [rotate] in that direction return normally, leave every
    block with the coordinates it had, and change nothing else. *)
Theorem rotate_four_times_catalog (ccw : bool) (g : Grid) :
  length PIECES = 7%nat /\
  Forall (fun p =>
    exists bs,
      (Piece.rotate ccw ;; Piece.rotate ccw ;;
       Piece.rotate ccw ;; Piece.rotate ccw)%js (Piece.Store p g)
      = Ret tt (Piece.Store (Piece.set_blocks bs p) g)
      /\ same_blocks bs (Piece.blocks p))
    PIECES.
Proof.
  split; [reflexivity|].
  apply Forall_forall. intros p _.
  eexists. split; [reflexivity|].
  unfold Piece.set_blocks, Piece.on_this. cbn.
  rewrite !map_map.
  apply same_blocks_map. intros pt. apply rotate_four_times.
Qed.

(** ** Methods that only read *)

Ltac unfold_m := unfold bind, get, put, ret, modify, throw, assert in *.

Lemma fitsAt_loop_pure (pts : list Point.t) (x y : Q) (s : Piece.store) :
  (exists b, Piece.fitsAt_loop pts x y s = Ret b s)
  \/ Piece.fitsAt_loop pts x y s = Throw TypeError s.
Proof.
  induction pts as [|pt pts IH]; cbn [Piece.fitsAt_loop].
  - left. by exists true.
  - destruct (orb _ _); [left; by exists false|].
    destruct (Qltb _ 0); [exact IH|].
    unfold_m. destruct (grid_read _ _ _) as [c|]; [|by right].
    destruct (JsArray.nonzero c); [left; by exists false|exact IH].
Qed.

Lemma fitsAt_pure (x y : Q) (s : Piece.store) :
  (exists b, Piece.fitsAt x y s = Ret b s)
  \/ Piece.fitsAt x y s = Throw TypeError s.
Proof. apply fitsAt_loop_pure. Qed.

(** The control flow of the methods, one step unfolded. *)
Lemma kick_loop_cons (d : Point.t) (ds : list Point.t) (s : Piece.store) :
  Piece.kick_loop (d :: ds) s =
  let pos := Piece.position (Piece.this s) in
  match Piece.fitsAt (Point.x pos + Point.x d) (Point.y pos + Point.y d) s with
  | Ret true s' =>
      Ret (Some true)
        (Piece.on_this (Piece.set_position
           (Point.mk (Point.x pos + Point.x d) (Point.y pos + Point.y d))) s')
  | Ret false s' => Piece.kick_loop ds s'
  | Throw e s' => Throw e s'
  end.
Proof.
  cbn [Piece.kick_loop]. unfold bind at 1. cbn [get].
  unfold bind at 1. cbv zeta.
  destruct (Piece.fitsAt _ _ s) as [[|] s'|e s']; reflexivity.
Qed.

Lemma moveDown_unfold (s : Piece.store) :
  Piece.moveDown s =
  let pos := Piece.position (Piece.this s) in
  match Piece.fitsAt (Point.x pos) (Point.y pos + 1) s with
  | Ret true s' =>
      Ret false
        (Piece.on_this (Piece.set_position
           (Point.mk (Point.x pos) (Point.y pos + 1))) s')
  | Ret false s' =>
      match Piece.place s' with
      | Ret _ s'' => Ret true s''
      | Throw e s'' => Throw e s''
      end
  | Throw e s' => Throw e s'
  end.
Proof.
  unfold Piece.moveDown. unfold bind at 1. cbn [get].
  unfold bind at 1. cbv zeta.
  destruct (Piece.fitsAt _ _ s) as [[|] s'|e s']; reflexivity.
Qed.

Lemma place_loop_cons (pt : Point.t) (pts : list Point.t) (s : Piece.store) :
  Piece.place_loop (pt :: pts) s =
  let pos := Piece.position (Piece.this s) in
  match grid_write (Piece.grid s) (Point.y pt + Point.y pos)
          (Point.x pt + Point.x pos) (Piece.index (Piece.this s)) with
  | Some g' => Piece.place_loop pts (Piece.Store (Piece.this s) g')
  | None => Throw TypeError s
  end.
Proof.
  cbn [Piece.place_loop]. unfold bind at 1. cbn [get]. cbv zeta.
  destruct (grid_write _ _ _ _); reflexivity.
Qed.

(** The fields of a piece that a call leaves alone. *)
Lemma kick_loop_frame (ds : list Point.t) (s : Piece.store) :
  let s' := final (Piece.kick_loop ds s) in
  Piece.blocks (Piece.this s') = Piece.blocks (Piece.this s)
  /\ Piece.centroid (Piece.this s') = Piece.centroid (Piece.this s)
  /\ Piece.index (Piece.this s') = Piece.index (Piece.this s)
  /\ Piece.grid s' = Piece.grid s.
Proof.
  induction ds as [|d ds IH]; [done|].
  rewrite kick_loop_cons. cbv zeta.
  destruct (fitsAt_pure (Point.x (Piece.position (Piece.this s)) + Point.x d)
              (Point.y (Piece.position (Piece.this s)) + Point.y d) s)
    as [[b ->] | ->]; [|done].
  destruct b; [done|exact IH].
Qed.

Lemma kickRotate_unfold (ccw : bool) (s : Piece.store) :
  Piece.kickRotate ccw s =
  let turn dir := Piece.on_this (fun p =>
    Piece.set_blocks
      (map (Point.rotate dir (Piece.centroid p)) (Piece.blocks p)) p) in
  match Piece.kick_loop KICK_DELTAS (turn ccw s) with
  | Ret (Some b) s' => Ret b s'
  | Ret None s' => Ret false (turn (negb ccw) s')
  | Throw e s' => Throw e s'
  end.
Proof.
  unfold Piece.kickRotate, Piece.rotate. unfold bind at 1. cbn [modify].
  unfold bind at 1. cbv zeta.
  destruct (Piece.kick_loop KICK_DELTAS _) as [[b|] s'|e s']; reflexivity.
Qed.

(** ** Integrality of the blocks *)

Lemma rotate_integral (ccw : bool) (c pt : Point.t) :
  integral (Point.x c - Point.y c) = true ->
  integral (Point.y c * 2) = true ->
  integral_point pt = true ->
  integral_point (Point.rotate ccw c pt) = true.
Proof.
  unfold integral_point. rewrite !andb_true_iff, !integral_iff.
  intros [d Hd] [t Ht] [[a Ha] [b Hb]].
  unfold Point.rotate. cbn [Point.x Point.y].
  destruct ccw; split.
  - exists (d + t + - b)%Z. rewrite !inject_Z_plus, inject_Z_opp. lra.
  - exists (a + - d)%Z. rewrite inject_Z_plus, inject_Z_opp. lra.
  - exists (b + d)%Z. rewrite inject_Z_plus. lra.
  - exists (t + d + - a)%Z. rewrite !inject_Z_plus, inject_Z_opp. lra.
Qed.

Lemma rotate_integral_blocks (ccw : bool) (c : Point.t) (bs : list Point.t) :
  integral (Point.x c - Point.y c) = true ->
  integral (Point.y c * 2) = true ->
  forallb integral_point bs = true ->
  forallb integral_point (map (Point.rotate ccw c) bs) = true.
Proof.
  intros Hd Ht. rewrite !forallb_forall. intros H pt Hin.
  apply in_map_iff in Hin. destruct Hin as (pt0 & <- & Hin0).
  apply rotate_integral; auto.
Qed.

(** The catalog as built: seven pieces, no assertion failing. *)
Lemma PIECES_built : map_pieces PIECE_STRINGS 0 tt = Ret PIECES tt.
Proof. reflexivity. Qed.

Lemma catalog_centroids :
  forallb (fun k =>
    integral_blocks k
    && integral (Point.x (Piece.centroid k) - Point.y (Piece.centroid k))
    && integral (Point.y (Piece.centroid k) * 2)) PIECES = true.
Proof. reflexivity. Qed.

(** C10: every piece of the catalog has integer block coordinates and an
    integer [centroid.x - centroid.y]; a rotation about its centroid, in
    either direction, takes a point with integer coordinates to one with
    integer coordinates; and a piece that has the centroid of a catalog
    piece and integer blocks still has that centroid and integer blocks
    after [rotate] and after [kickRotate], however the call ends. *)
Theorem catalog_integrality :
  Forall (fun k =>
    integral_blocks k = true
    /\ integral (Point.x (Piece.centroid k) - Point.y (Piece.centroid k)) = true
    /\ (forall ccw pt,
          integral_point pt = true ->
          integral_point (Point.rotate ccw (Piece.centroid k) pt) = true)
    /\ (forall ccw p g,
          Piece.centroid p = Piece.centroid k ->
          integral_blocks p = true ->
          let after_rotate :=
            Piece.this (final (Piece.rotate ccw (Piece.Store p g))) in
          let after_kick :=
            Piece.this (final (Piece.kickRotate ccw (Piece.Store p g))) in
          integral_blocks after_rotate = true
          /\ Piece.centroid after_rotate = Piece.centroid k
          /\ integral_blocks after_kick = true
          /\ Piece.centroid after_kick = Piece.centroid k))
    PIECES.
Proof.
  apply Forall_forall. intros k Hk.
  pose proof catalog_centroids as Hc. rewrite forallb_forall in Hc.
  apply list_elem_of_In in Hk.
  specialize (Hc k Hk). rewrite !andb_true_iff in Hc.
  destruct Hc as [[Hb Hd] Ht].
  split; [exact Hb|]. split; [exact Hd|].
  split; [intros; by apply rotate_integral|].
  intros ccw p g Hcen Hint. cbv zeta.
  split; [|split; [|split]].
  - cbn. unfold integral_blocks in *. cbn. rewrite Hcen.
    by apply rotate_integral_blocks.
  - cbn. exact Hcen.
  - rewrite kickRotate_unfold. cbv zeta.
    match goal with
    | |- context [Piece.kick_loop KICK_DELTAS ?s] => set (s1 := s)
    end.
    pose proof (kick_loop_frame KICK_DELTAS s1) as (Hbl & Hce & _ & _).
    assert (Hs1 : forallb integral_point (Piece.blocks (Piece.this s1)) = true).
    { subst s1. cbn. rewrite Hcen. by apply rotate_integral_blocks. }
    assert (Hc1 : Piece.centroid (Piece.this s1) = Piece.centroid k)
      by (subst s1; exact Hcen).
    destruct (Piece.kick_loop KICK_DELTAS s1) as [[b|] s'|e s'];
      cbn [final] in *; unfold integral_blocks.
    + by rewrite Hbl.
    + cbn. rewrite Hbl, Hce, Hc1. by apply rotate_integral_blocks.
    + by rewrite Hbl.
  - rewrite kickRotate_unfold. cbv zeta.
    match goal with
    | |- context [Piece.kick_loop KICK_DELTAS ?s] => set (s1 := s)
    end.
    pose proof (kick_loop_frame KICK_DELTAS s1) as (_ & Hce & _ & _).
    destruct (Piece.kick_loop KICK_DELTAS s1) as [[b|] s'|e s'];
      cbn [final] in *; cbn; by rewrite Hce.
Qed.

(** The statement at the O piece, whose centroid is (1/2, 1/2). *)
Lemma catalog_integrality_witness :
  integral_point (Point.rotate true (Point.mk (2 # 4) (2 # 4)) (Point.mk 1 0))
  = true.
Proof.
  pose proof catalog_integrality as H.
  apply Forall_lookup_1 with (i := 3%nat)
    (x := Piece.mk [Point.mk 0 0; Point.mk 1 0; Point.mk 0 1; Point.mk 1 1]
            (Point.mk (2 # 4) (2 # 4)) 4 POINT_ZERO) in H; [|reflexivity].
  destruct H as (_ & _ & H & _).
  apply (H true (Point.mk 1 0)). reflexivity.
Defined.

(** ** Collision test *)

Lemma integral_plus (a b : Q) :
  integral a = true -> integral b = true -> integral (a + b) = true.
Proof.
  rewrite !integral_iff. intros [u Hu] [v Hv]. exists (u + v)%Z.
  rewrite inject_Z_plus. lra.
Qed.

Lemma grid_row_defined (g : Grid) (q : Q) :
  integral q = true -> (0 <= q)%Q ->
  (q < inject_Z (Z.of_nat (length g)))%Q ->
  exists k row, as_index q = Some k /\ g !! k = Some row.
Proof.
  intros Hi H0 Hlt. apply integral_iff in Hi. destruct Hi as [z Hz].
  assert (0 <= z < Z.of_nat (length g))%Z as Hrange.
  { rewrite Hz in H0, Hlt. unfold Qle, Qlt in H0, Hlt.
    cbn [Qnum Qden inject_Z] in H0, Hlt. lia. }
  assert (Hk : as_index q = Some (Z.to_nat z)).
  { apply as_index_Some. rewrite Z2Nat.id by lia. exact Hz. }
  destruct (lookup_lt_is_Some_2 g (Z.to_nat z) ltac:(lia)) as [row Hrow].
  eauto.
Qed.

Lemma nonzero_false_iff (c : option Q) :
  JsArray.nonzero c = false <-> exists v, c = Some v /\ Qeq_bool v 0 = true.
Proof.
  destruct c as [v|]; cbn.
  - rewrite negb_false_iff. split; [eauto|]. by intros (? & [= <-] & ?).
  - split; [done|]. by intros (? & ? & ?).
Qed.

Lemma fitsAt_loop_spec (pts : list Point.t) (x y : Q) (s : Piece.store) :
  length (Piece.grid s) = GRID_HEIGHT ->
  forallb integral_point pts = true ->
  integral y = true ->
  exists b,
    Piece.fitsAt_loop pts x y s = Ret b s
    /\ (b = true <->
        Forall (fun pt =>
          cell_passable (Piece.grid s) (Point.x pt + x) (Point.y pt + y)) pts).
Proof.
  intros Hlen Hpts Hy.
  induction pts as [|pt pts IH]; cbn [Piece.fitsAt_loop].
  - exists true. split; [done|]. split; [constructor|done].
  - cbn [forallb] in Hpts. apply andb_true_iff in Hpts.
    destruct Hpts as [Hpt Hpts]. specialize (IH Hpts).
    destruct IH as (b & Hrun & Hb).
    unfold integral_point in Hpt. apply andb_true_iff in Hpt.
    destruct Hpt as [_ Hpty].
    set (px := (Point.x pt + x)%Q). set (py := (Point.y pt + y)%Q).
    destruct (Qltb px 0) eqn:E1; cbn [orb].
    { exists false. split; [done|]. split; [done|].
      intros H. apply Forall_cons_1 in H. destruct H as [(H0 & _) _].
      apply Qltb_lt in E1. fold px in H0. lra. }
    destruct (Qgeb px _) eqn:E2; cbn [orb].
    { exists false. split; [done|]. split; [done|].
      intros H. apply Forall_cons_1 in H. destruct H as [(_ & H1 & _) _].
      apply Qgeb_ge in E2. fold px in H1. lra. }
    destruct (Qgeb py _) eqn:E3.
    { exists false. split; [done|]. split; [done|].
      intros H. apply Forall_cons_1 in H. destruct H as [(_ & _ & H2 & _) _].
      apply Qgeb_ge in E3. fold py in H2. lra. }
    apply Qltb_ge in E1. apply Qgeb_lt in E2. apply Qgeb_lt in E3.
    destruct (Qltb py 0) eqn:E4.
    { exists b. split; [exact Hrun|]. rewrite Hb. apply Qltb_lt in E4.
      split.
      - intros H. constructor; [|exact H].
        repeat split; try done. intros. fold py in H0. lra.
      - intros H. by apply Forall_cons_1 in H as [_ H]. }
    apply Qltb_ge in E4.
    destruct (grid_row_defined (Piece.grid s) py) as (k & row & Hk & Hrow).
    { subst py. by apply integral_plus. }
    { exact E4. }
    { rewrite Hlen. exact E3. }
    unfold bind at 1. cbn [get].
    assert (Hread : grid_read (Piece.grid s) py px
                    = Some (JsArray.read row px)).
    { unfold grid_read, grid_row. by rewrite Hk, Hrow. }
    rewrite Hread.
    destruct (JsArray.nonzero (JsArray.read row px)) eqn:E5.
    + exists false. split; [done|]. split; [done|].
      intros H. apply Forall_cons_1 in H. destruct H as [(_ & _ & _ & H3) _].
      specialize (H3 E4). fold py px in H3. unfold cell_empty in H3.
      rewrite Hread in H3. destruct (JsArray.read row px) as [v|]; [|done].
      cbn in E5. rewrite H3 in E5. done.
    + exists b. split; [exact Hrun|]. rewrite Hb. split.
      * intros H. constructor; [|exact H].
        repeat split; try done. intros _. fold py px.
        unfold cell_empty. rewrite Hread.
        apply nonzero_false_iff in E5. destruct E5 as (v & -> & Hv). exact Hv.
      * intros H. by apply Forall_cons_1 in H as [_ H].
Qed.

(** C4: on a grid of [GRID_HEIGHT] rows, a piece with integer block
    coordinates and an integer [y] (and [x] an integer or any other
    number), [fitsAt(x, y)] returns; it returns [true] exactly when every
    block's absolute cell has its column in [0, width), its row below
    [height] and, when the row is not negative, an empty grid cell (a
    negative row imposes nothing on the grid); and it leaves the piece and
    the grid as they were. *)
Theorem fitsAt_spec (p : Piece.t) (g : Grid) (x y : Q) :
  length g = GRID_HEIGHT ->
  integral_blocks p = true ->
  integral y = true ->
  exists b,
    Piece.fitsAt x y (Piece.Store p g) = Ret b (Piece.Store p g)
    /\ (b = true <-> fits_spec p g x y).
Proof.
  intros Hlen Hp Hy.
  exact (fitsAt_loop_spec (Piece.blocks p) x y (Piece.Store p g) Hlen Hp Hy).
Qed.

(** ** Reading back what was written *)

Lemma read_write_same {A} (a : JsArray.t A) (k : Q) (v : option A) (i : nat) :
  as_index k = Some i -> JsArray.read (JsArray.write a k v) k = v.
Proof.
  intros Hk. unfold JsArray.read, JsArray.write. rewrite Hk.
  destruct (i <? length a)%nat eqn:E.
  - apply Nat.ltb_lt in E. by rewrite list_lookup_insert_eq.
  - apply Nat.ltb_ge in E.
    rewrite lookup_app_r by lia.
    rewrite lookup_app_r by (rewrite length_replicate; lia).
    rewrite length_replicate.
    by replace (i - length a - (i - length a))%nat with 0%nat by lia.
Qed.

Lemma read_write_other {A} (a : JsArray.t A) (k k' : Q) (v : option A)
    (i i' : nat) :
  as_index k = Some i -> as_index k' = Some i' -> i <> i' ->
  JsArray.read (JsArray.write a k v) k' = JsArray.read a k'.
Proof.
  intros Hk Hk' Hne. unfold JsArray.read, JsArray.write. rewrite Hk, Hk'.
  destruct (i <? length a)%nat eqn:E.
  - by rewrite list_lookup_insert_ne.
  - apply Nat.ltb_ge in E.
    destruct (decide (i' < length a)%nat) as [Hlt|Hge].
    + by rewrite lookup_app_l.
    + rewrite (lookup_ge_None_2 a i') by lia. cbn.
      rewrite lookup_app_r by lia.
      destruct (decide (i' - length a < i - length a)%nat) as [Hin|Hout].
      * rewrite lookup_app_l by (rewrite length_replicate; lia).
        by rewrite lookup_replicate_2.
      * rewrite lookup_app_r by (rewrite length_replicate; lia).
        rewrite length_replicate.
        rewrite lookup_ge_None_2; [done|]. cbn. lia.
Qed.

Lemma grid_write_Some (g g' : Grid) (r c v : Q) :
  grid_write g r c v = Some g' ->
  exists i row,
    as_index r = Some i /\ g !! i = Some row
    /\ g' = <[i := JsArray.write row c (Some v)]> g.
Proof.
  unfold grid_write. destruct (as_index r) as [i|]; [|done].
  destruct (g !! i) as [row|] eqn:Hrow; [|done].
  intros [= <-]. eauto.
Qed.

Lemma grid_write_length (g g' : Grid) (r c v : Q) :
  grid_write g r c v = Some g' -> length g' = length g.
Proof.
  intros H. apply grid_write_Some in H as (i & row & _ & _ & ->).
  apply length_insert.
Qed.

Lemma grid_write_read_same (g g' : Grid) (r c v : Q) :
  grid_write g r c v = Some g' ->
  is_Some (as_index c) ->
  grid_read g' r c = Some (Some v).
Proof.
  intros H [j Hj]. apply grid_write_Some in H as (i & row & Hi & Hrow & ->).
  unfold grid_read, grid_row. rewrite Hi.
  rewrite list_lookup_insert_eq by (by eapply lookup_lt_Some).
  by rewrite (read_write_same _ _ _ j).
Qed.

Lemma grid_write_read_kept (g g' : Grid) (r1 c1 v r c : Q) :
  grid_write g r1 c1 v = Some g' ->
  grid_read g r c = Some (Some v) ->
  grid_read g' r c = Some (Some v).
Proof.
  intros H Hread. apply grid_write_Some in H as (i1 & row1 & Hi1 & Hrow1 & ->).
  unfold grid_read, grid_row in *.
  destruct (as_index r) as [i|] eqn:Hi; [|done].
  destruct (decide (i1 = i)) as [->|Hne].
  - rewrite Hrow1 in Hread. injection Hread as Hread.
    rewrite list_lookup_insert_eq by (by eapply lookup_lt_Some).
    f_equal.
    destruct (as_index c) as [j|] eqn:Hj;
      [|by unfold JsArray.read in Hread; rewrite Hj in Hread].
    destruct (as_index c1) as [j1|] eqn:Hj1;
      [|by unfold JsArray.write; rewrite Hj1].
    destruct (decide (j1 = j)) as [->|Hnej].
    + assert (E : (c == c1)%Q).
      { apply as_index_Some in Hj, Hj1. by rewrite Hj, Hj1. }
      transitivity (JsArray.read (JsArray.write row1 c1 (Some v)) c1).
      * unfold JsArray.read. by rewrite (as_index_proper c c1 E).
      * by rewrite (read_write_same _ _ _ j).
    + by rewrite (read_write_other _ _ _ _ j1 j).
  - by rewrite list_lookup_insert_ne.
Qed.

(** ** Committing a piece to the grid *)

Lemma place_loop_throws (pts : list Point.t) (s : Piece.store) :
  Exists (fun b => (Point.y b + Point.y (Piece.position (Piece.this s)) < 0)%Q)
         pts ->
  exists g', Piece.place_loop pts s = Throw TypeError (Piece.Store (Piece.this s) g').
Proof.
  revert s. induction pts as [|pt pts IH]; intros s Hex.
  - by apply Exists_nil in Hex.
  - rewrite place_loop_cons. cbv zeta.
    destruct (grid_write _ _ _ _) as [g1|] eqn:Hw.
    + apply Exists_cons in Hex. destruct Hex as [Hneg|Hex].
      * apply grid_write_Some in Hw as (i & _ & Hi & _).
        apply as_index_negative in Hneg. congruence.
      * apply (IH (Piece.Store (Piece.this s) g1)). exact Hex.
    + exists (Piece.grid s). by destruct s.
Qed.

Lemma place_loop_ok (pts : list Point.t) (s : Piece.store) :
  let pos := Piece.position (Piece.this s) in
  let idx := Piece.index (Piece.this s) in
  length (Piece.grid s) = GRID_HEIGHT ->
  Forall (fun b =>
    integral (Point.y b + Point.y pos) = true
    /\ (0 <= Point.y b + Point.y pos)%Q
    /\ (Point.y b + Point.y pos < inject_Z (Z.of_nat GRID_HEIGHT))%Q) pts ->
  exists g',
    Piece.place_loop pts s = Ret tt (Piece.Store (Piece.this s) g')
    /\ length g' = GRID_HEIGHT
    /\ (forall b, In b pts ->
          is_Some (as_index (Point.x b + Point.x pos)) ->
          grid_read g' (Point.y b + Point.y pos) (Point.x b + Point.x pos)
          = Some (Some idx))
    /\ (forall r c,
          grid_read (Piece.grid s) r c = Some (Some idx) ->
          grid_read g' r c = Some (Some idx)).
Proof.
  cbv zeta. revert s. induction pts as [|pt pts IH]; intros s Hlen Hrows.
  - exists (Piece.grid s). destruct s. cbn. by repeat split.
  - apply Forall_cons_1 in Hrows. destruct Hrows as [(Hint & H0 & Hlt) Hrows].
    rewrite place_loop_cons. cbv zeta.
    destruct (grid_row_defined (Piece.grid s) _ Hint H0) as (k & row & Hk & Hrow).
    { by rewrite Hlen. }
    assert (Hw : grid_write (Piece.grid s)
              (Point.y pt + Point.y (Piece.position (Piece.this s)))
              (Point.x pt + Point.x (Piece.position (Piece.this s)))
              (Piece.index (Piece.this s))
            = Some (<[k := JsArray.write row
                        (Point.x pt + Point.x (Piece.position (Piece.this s)))
                        (Some (Piece.index (Piece.this s)))]> (Piece.grid s))).
    { unfold grid_write. by rewrite Hk, Hrow. }
    rewrite Hw. set (g1 := <[k := _]> (Piece.grid s)) in *.
    destruct (IH (Piece.Store (Piece.this s) g1)) as (g' & Hrun & Hlen' & Hnew & Hold).
    { cbn. subst g1. by rewrite length_insert. }
    { exact Hrows. }
    cbn [Piece.this Piece.grid] in *.
    exists g'. split; [exact Hrun|]. split; [exact Hlen'|]. split.
    + intros b [<-|Hin] Hcol.
      * apply Hold. by apply (grid_write_read_same _ _ _ _ _ Hw).
      * by apply Hnew.
    + intros r c Hread. apply Hold.
      by apply (grid_write_read_kept _ _ _ _ _ _ _ Hw).
Qed.

Lemma wf_grid_iff (g : Grid) :
  wf_grid g = true <->
  length g = GRID_HEIGHT
  /\ Forall (fun row : Row =>
       length row = GRID_WIDTH /\ Forall is_Some row) g.
Proof.
  unfold wf_grid. rewrite andb_true_iff, Nat.eqb_eq.
  apply and_iff_compat_l.
  rewrite forallb_forall, Forall_forall.
  split; intros H row Hin.
  - apply list_elem_of_In in Hin. specialize (H row Hin).
    unfold wf_row in H. apply andb_true_iff in H as [Hl Hc].
    apply Nat.eqb_eq in Hl. split; [done|].
    rewrite forallb_forall in Hc. apply Forall_forall. intros c Hc'.
    apply list_elem_of_In in Hc'. specialize (Hc c Hc'). by destruct c.
  - apply list_elem_of_In in Hin. specialize (H row Hin) as [Hl Hc].
    unfold wf_row. apply andb_true_iff. split; [by apply Nat.eqb_eq|].
    apply forallb_forall. intros c Hc'. apply list_elem_of_In in Hc'.
    rewrite Forall_forall in Hc. by destruct (Hc c Hc') as [? ->].
Qed.

Lemma grid_write_wf (g g' : Grid) (r c v : Q) :
  wf_grid g = true ->
  (0 <= c)%Q -> (c < inject_Z (Z.of_nat GRID_WIDTH))%Q -> integral c = true ->
  grid_write g r c v = Some g' ->
  wf_grid g' = true.
Proof.
  rewrite !wf_grid_iff. intros [Hlen Hrows] H0 Hlt Hint Hw.
  apply grid_write_Some in Hw as (i & row & Hi & Hrow & ->).
  split; [by rewrite length_insert|].
  apply Forall_insert; [exact Hrows|].
  pose proof (Forall_lookup_1 _ _ _ _ Hrows Hrow) as [Hl Hc].
  destruct (grid_row_defined (replicate GRID_WIDTH ([] : Row)) c Hint H0)
    as (j & row0 & Hj & Hjlt).
  { by rewrite length_replicate. }
  apply lookup_lt_Some in Hjlt. rewrite length_replicate in Hjlt.
  unfold JsArray.write. rewrite Hj.
  replace (j <? length row)%nat with true
    by (symmetry; apply Nat.ltb_lt; lia).
  split; [by rewrite length_insert|].
  apply Forall_insert; [exact Hc|done].
Qed.

Lemma place_loop_wf (pts : list Point.t) (s s' : Piece.store) :
  let pos := Piece.position (Piece.this s) in
  wf_grid (Piece.grid s) = true ->
  Forall (fun b =>
    integral (Point.x b + Point.x pos) = true
    /\ (0 <= Point.x b + Point.x pos)%Q
    /\ (Point.x b + Point.x pos < inject_Z (Z.of_nat GRID_WIDTH))%Q) pts ->
  Piece.place_loop pts s = Ret tt s' ->
  wf_grid (Piece.grid s') = true.
Proof.
  cbv zeta. revert s. induction pts as [|pt pts IH]; intros s Hwf Hcols Hrun.
  - cbn in Hrun. by injection Hrun as <-.
  - apply Forall_cons_1 in Hcols. destruct Hcols as [(Hint & H0 & Hlt) Hcols].
    rewrite place_loop_cons in Hrun. cbv zeta in Hrun.
    destruct (grid_write _ _ _ _) as [g1|] eqn:Hw; [|done].
    apply (IH (Piece.Store (Piece.this s) g1)); [|exact Hcols|exact Hrun].
    cbn. by eapply grid_write_wf.
Qed.

Lemma rows_on_grid_Forall (p : Piece.t) :
  rows_on_grid p = true ->
  integral_blocks p = true ->
  integral (Point.y (Piece.position p)) = true ->
  Forall (fun b =>
    integral (Point.y b + Point.y (Piece.position p)) = true
    /\ (0 <= Point.y b + Point.y (Piece.position p))%Q
    /\ (Point.y b + Point.y (Piece.position p)
        < inject_Z (Z.of_nat GRID_HEIGHT))%Q) (Piece.blocks p).
Proof.
  unfold rows_on_grid, integral_blocks. rewrite !forallb_forall.
  intros Hrows Hint Hy. apply Forall_forall. intros b Hb.
  apply list_elem_of_In in Hb.
  specialize (Hrows b Hb). specialize (Hint b Hb). cbv zeta in Hrows.
  apply andb_true_iff in Hrows as [H0 Hlt].
  apply andb_true_iff in Hint as [_ Hby].
  split; [by apply integral_plus|].
  split; [by apply Qle_bool_iff|by apply Qltb_lt].
Qed.

Lemma columns_on_grid_Forall (p : Piece.t) :
  columns_on_grid p = true ->
  integral_blocks p = true ->
  integral (Point.x (Piece.position p)) = true ->
  Forall (fun b =>
    integral (Point.x b + Point.x (Piece.position p)) = true
    /\ (0 <= Point.x b + Point.x (Piece.position p))%Q
    /\ (Point.x b + Point.x (Piece.position p)
        < inject_Z (Z.of_nat GRID_WIDTH))%Q) (Piece.blocks p).
Proof.
  unfold columns_on_grid, integral_blocks. rewrite !forallb_forall.
  intros Hcols Hint Hx. apply Forall_forall. intros b Hb.
  apply list_elem_of_In in Hb.
  specialize (Hcols b Hb). specialize (Hint b Hb). cbv zeta in Hcols.
  apply andb_true_iff in Hcols as [H0 Hlt].
  apply andb_true_iff in Hint as [Hbx _].
  split; [by apply integral_plus|].
  split; [by apply Qle_bool_iff|by apply Qltb_lt].
Qed.

Lemma above_grid_Exists (p : Piece.t) :
  above_grid p = true ->
  Exists (fun b => (Point.y b + Point.y (Piece.position p) < 0)%Q)
    (Piece.blocks p).
Proof.
  unfold above_grid. rewrite existsb_exists. intros (b & Hb & Hneg).
  apply Exists_exists. exists b. split; [by apply list_elem_of_In|].
  by apply Qltb_lt.
Qed.

Lemma index_of_column (c : Q) :
  integral c = true -> (0 <= c)%Q -> is_Some (as_index c).
Proof.
  intros Hint H0. apply integral_iff in Hint as [z Hz].
  exists (Z.to_nat z). apply as_index_Some.
  rewrite Z2Nat.id; [exact Hz|].
  destruct c as [n d]. unfold Qeq in Hz. unfold Qle in H0.
  cbn [Qnum Qden inject_Z] in *. nia.
Qed.

(** C5 (as amended): [moveDown()] on a grid of [GRID_HEIGHT] rows and a
    piece with integer blocks and position.  The test
    [fitsAt(position.x, position.y + 1)] returns; if it holds,
    [position.y] is incremented by 1, the grid is unchanged and the result
    is "not locked"; if it fails and every block's absolute cell lies on
    the grid, the piece's position and blocks are unchanged, every block's
    absolute cell then holds the piece's identity, and the result is
    "locked".  (With a block above the grid the commit throws.) *)
Theorem moveDown_spec (p : Piece.t) (g : Grid) :
  length g = GRID_HEIGHT ->
  integral_blocks p = true ->
  integral_point (Piece.position p) = true ->
  let pos := Piece.position p in
  exists fits,
    Piece.fitsAt (Point.x pos) (Point.y pos + 1) (Piece.Store p g)
    = Ret fits (Piece.Store p g)
    /\ (fits = true ->
        Piece.moveDown (Piece.Store p g)
        = Ret false
            (Piece.Store
               (Piece.set_position (Point.mk (Point.x pos) (Point.y pos + 1)) p)
               g))
    /\ (fits = false ->
        rows_on_grid p = true -> columns_on_grid p = true ->
        exists g',
          Piece.moveDown (Piece.Store p g) = Ret true (Piece.Store p g')
          /\ Forall (fun b =>
               grid_read g' (Point.y b + Point.y pos) (Point.x b + Point.x pos)
               = Some (Some (Piece.index p))) (Piece.blocks p)).
Proof.
  intros Hlen Hblocks Hpos. cbv zeta.
  unfold integral_point in Hpos. apply andb_true_iff in Hpos as [Hpx Hpy].
  destruct (fitsAt_loop_spec (Piece.blocks p) (Point.x (Piece.position p))
              (Point.y (Piece.position p) + 1) (Piece.Store p g) Hlen Hblocks)
    as (fits & Hfits & _).
  { by apply integral_plus. }
  assert (Hf : Piece.fitsAt (Point.x (Piece.position p))
                (Point.y (Piece.position p) + 1) (Piece.Store p g)
              = Ret fits (Piece.Store p g)) by exact Hfits.
  exists fits. split; [exact Hf|]. split.
  - intros ->. rewrite moveDown_unfold. cbv zeta.
    cbn [Piece.this Piece.grid]. by rewrite Hf.
  - intros -> Hrows Hcols. rewrite moveDown_unfold. cbv zeta.
    cbn [Piece.this Piece.grid]. rewrite Hf.
    destruct (place_loop_ok (Piece.blocks p) (Piece.Store p g) Hlen
                (rows_on_grid_Forall p Hrows Hblocks Hpy))
      as (g' & Hrun & _ & Hnew & _).
    cbn [Piece.this Piece.grid] in *.
    exists g'. unfold Piece.place, bind, get. cbn [Piece.this].
    rewrite Hrun. split; [done|].
    apply Forall_forall. intros b Hb. apply Hnew.
    + by apply list_elem_of_In.
    + pose proof (columns_on_grid_Forall p Hcols Hblocks Hpx) as Hc.
      rewrite Forall_forall in Hc. destruct (Hc b Hb) as (Hi & H0 & _).
      by apply index_of_column.
Qed.

(** C5 fails as stated: the O piece as spawned, over a grid whose column
    5 is filled to the top.  The test [fitsAt(4, -2 + 1)] fails, so the
    commit branch runs; the first block's absolute row is -2, the commit
    throws a TypeError, and [moveDown()] has no result, "locked" or
    otherwise. *)
Lemma moveDown_above_grid_counterexample :
  Piece.fitsAt 4 (-2 + 1) (Piece.Store O_spawned tower)
  = Ret false (Piece.Store O_spawned tower)
  /\ Piece.moveDown (Piece.Store O_spawned tower)
     = Throw TypeError (Piece.Store O_spawned tower)
  /\ ~ (exists s', Piece.moveDown (Piece.Store O_spawned tower) = Ret true s').
Proof.
  split; [reflexivity|]. split; [reflexivity|].
  intros [s' H]. vm_compute in H. discriminate.
Qed.

(** The O piece on the floor of the empty grid locks. *)
Lemma moveDown_spec_witness :
  length emptyGrid = GRID_HEIGHT
  /\ integral_blocks O_floor = true
  /\ integral_point (Piece.position O_floor) = true
  /\ rows_on_grid O_floor = true
  /\ columns_on_grid O_floor = true
  /\ exists g',
       Piece.moveDown (Piece.Store O_floor emptyGrid)
       = Ret true (Piece.Store O_floor g')
       /\ Forall (fun b =>
            grid_read g' (Point.y b + 18) (Point.x b + 4) = Some (Some 4%Q))
            (Piece.blocks O_floor).
Proof.
  do 5 (split; [reflexivity|]).
  destruct (moveDown_spec O_floor emptyGrid eq_refl eq_refl eq_refl)
    as (fits & Hf & _ & Hlock).
  apply Hlock; [|reflexivity|reflexivity].
  vm_compute in Hf. by injection Hf.
Defined.

(** The O piece at column 4 of the empty grid, row 0. *)
Lemma fitsAt_spec_witness :
  length emptyGrid = GRID_HEIGHT
  /\ integral_blocks O_spawned = true
  /\ integral 0 = true
  /\ exists b,
       Piece.fitsAt 4 0 (Piece.Store O_spawned emptyGrid)
       = Ret b (Piece.Store O_spawned emptyGrid)
       /\ (b = true <-> fits_spec O_spawned emptyGrid 4 0).
Proof.
  do 3 (split; [reflexivity|]).
  apply (fitsAt_spec O_spawned emptyGrid 4 0); reflexivity.
Defined.

(** C9: when some block's absolute row is negative, [place()] throws a
    TypeError, and so does [moveDown()] when its test fails and the commit
    branch runs.  On a well-formed grid, for a piece with integer blocks
    and position whose absolute block rows are all in [0, height),
    [place()] returns normally, every write goes to an existing row, the
    grid keeps its [GRID_HEIGHT] rows and, when the columns are in
    [0, width) too, stays well-formed. *)
Theorem place_bounds (p : Piece.t) (g : Grid) :
  let pos := Piece.position p in
  (above_grid p = true ->
     (exists g', Piece.place (Piece.Store p g)
                 = Throw TypeError (Piece.Store p g'))
     /\ (Piece.fitsAt (Point.x pos) (Point.y pos + 1) (Piece.Store p g)
         = Ret false (Piece.Store p g) ->
         exists g', Piece.moveDown (Piece.Store p g)
                    = Throw TypeError (Piece.Store p g')))
  /\ (wf_grid g = true ->
      integral_blocks p = true ->
      integral_point pos = true ->
      rows_on_grid p = true ->
      exists g',
        Piece.place (Piece.Store p g) = Ret tt (Piece.Store p g')
        /\ length g' = GRID_HEIGHT
        /\ Forall (fun b => is_Some (grid_row g (Point.y b + Point.y pos)))
             (Piece.blocks p)
        /\ (columns_on_grid p = true -> wf_grid g' = true)).
Proof.
  cbv zeta. split.
  - intros Habove. apply above_grid_Exists in Habove.
    destruct (place_loop_throws (Piece.blocks p) (Piece.Store p g) Habove)
      as [g' Hthrow].
    cbn [Piece.this] in Hthrow.
    assert (Hplace : Piece.place (Piece.Store p g)
                     = Throw TypeError (Piece.Store p g')) by exact Hthrow.
    split; [by exists g'|].
    intros Hf. exists g'. rewrite moveDown_unfold. cbv zeta.
    cbn [Piece.this Piece.grid]. by rewrite Hf, Hplace.
  - intros Hwf Hblocks Hpos Hrows.
    pose proof Hwf as Hwf'. apply wf_grid_iff in Hwf' as [Hlen _].
    unfold integral_point in Hpos. apply andb_true_iff in Hpos as [Hpx Hpy].
    pose proof (rows_on_grid_Forall p Hrows Hblocks Hpy) as HR.
    destruct (place_loop_ok (Piece.blocks p) (Piece.Store p g) Hlen HR)
      as (g' & Hrun & Hlen' & _ & _).
    cbn [Piece.this Piece.grid] in *.
    assert (Hplace : Piece.place (Piece.Store p g)
                     = Ret tt (Piece.Store p g')) by exact Hrun.
    exists g'. split; [exact Hplace|]. split; [exact Hlen'|]. split.
    + eapply Forall_impl; [exact HR|]. cbn. intros b (Hi & H0 & Hlt).
      destruct (grid_row_defined g _ Hi H0) as (k & row & Hk & Hrow).
      { by rewrite Hlen. }
      unfold grid_row. rewrite Hk. by exists row.
    + intros Hcols.
      apply (place_loop_wf (Piece.blocks p) (Piece.Store p g)
               (Piece.Store p g') Hwf
               (columns_on_grid_Forall p Hcols Hblocks Hpx) Hrun).
Qed.

(** The O piece as spawned over the filled column, and on the floor of
    the empty grid. *)
Lemma place_bounds_witness :
  (above_grid O_spawned = true
   /\ exists g', Piece.place (Piece.Store O_spawned tower)
                 = Throw TypeError (Piece.Store O_spawned g'))
  /\ (wf_grid emptyGrid = true
      /\ integral_blocks O_floor = true
      /\ integral_point (Piece.position O_floor) = true
      /\ rows_on_grid O_floor = true
      /\ exists g', Piece.place (Piece.Store O_floor emptyGrid)
                    = Ret tt (Piece.Store O_floor g')).
Proof.
  split.
  - split; [reflexivity|].
    apply (proj1 (place_bounds O_spawned tower)). reflexivity.
  - do 4 (split; [reflexivity|]).
    destruct (proj2 (place_bounds O_floor emptyGrid)
                eq_refl eq_refl eq_refl eq_refl) as (g' & H & _).
    by exists g'.
Defined.

(** The exception does not undo the writes made before it: the blocks
    that precede the first block above the grid are in the grid when the
    TypeError is thrown. *)
Lemma place_partial_commit :
  let o := Piece.moveDown (Piece.Store T_turned high_stack) in
  o = Throw TypeError (final o)
  /\ Piece.this (final o) = T_turned
  /\ grid_read high_stack 1 5 = Some (Some 0%Q)
  /\ grid_read high_stack 0 5 = Some (Some 0%Q)
  /\ grid_read (Piece.grid (final o)) 1 5 = Some (Some 7%Q)
  /\ grid_read (Piece.grid (final o)) 0 5 = Some (Some 7%Q).
Proof. cbv zeta. repeat split; reflexivity. Qed.

(** ** The kick table and [kickRotate] *)

Lemma insert_sorted_Permutation {A} (cmp : A -> A -> Q) (a : A) (l : list A) :
  insert_sorted cmp a l ≡ₚ a :: l.
Proof.
  induction l as [|b l IH]; cbn [insert_sorted]; [done|].
  destruct (Qltb 0 (cmp a b)); [|done].
  rewrite IH. apply Permutation_swap.
Qed.

Lemma sort_Permutation {A} (cmp : A -> A -> Q) (l : list A) :
  sort cmp l ≡ₚ l.
Proof.
  induction l as [|a l IH]; cbn; [done|].
  fold (sort cmp l). by rewrite insert_sorted_Permutation, IH.
Qed.

Section SortByKey.
Context {A : Type} (key : A -> Q).
Let cmp : A -> A -> Q := fun a b => (key a - key b)%Q.
Let le : A -> A -> Prop := fun a b => (key a <= key b)%Q.

Lemma insert_sorted_HdRel (a b : A) (l : list A) :
  le b a -> HdRel le b l -> HdRel le b (insert_sorted cmp a l).
Proof.
  intros Hba Hhd. destruct l as [|c l]; cbn [insert_sorted].
  - by constructor.
  - destruct (Qltb 0 (cmp a c)); constructor; [by inversion Hhd|exact Hba].
Qed.

Lemma insert_sorted_Sorted (a : A) (l : list A) :
  Sorted le l -> Sorted le (insert_sorted cmp a l).
Proof.
  induction l as [|b l IH]; intros Hs; cbn [insert_sorted].
  - repeat constructor.
  - destruct (Qltb 0 (cmp a b)) eqn:E.
    + apply Qltb_lt in E. unfold cmp in E.
      inversion Hs as [|? ? Hs' Hhd]; subst.
      constructor; [by apply IH|].
      apply insert_sorted_HdRel; [|exact Hhd]. unfold le. lra.
    + apply Qltb_ge in E. unfold cmp in E.
      constructor; [exact Hs|]. constructor. unfold le. lra.
Qed.

Lemma sort_Sorted (l : list A) : Sorted le (sort cmp l).
Proof.
  induction l as [|a l IH]; cbn; [constructor|].
  by apply insert_sorted_Sorted.
Qed.
End SortByKey.

Lemma KICK_DELTAS_sorted : Sorted by_sqmag KICK_DELTAS.
Proof. apply (sort_Sorted sqmag). Qed.

Lemma KICK_DELTAS_candidates : KICK_DELTAS ≡ₚ kick_candidates.
Proof.
  unfold KICK_DELTAS. rewrite sort_Permutation.
  by vm_compute.
Qed.

Lemma KICK_DELTAS_integral : forallb integral_point KICK_DELTAS = true.
Proof. reflexivity. Qed.

(** The search of the loop over the offsets, when every test returns. *)
Lemma kick_loop_search (ds : list Point.t) (s : Piece.store) :
  let test d :=
    Piece.fitsAt (Point.x (Piece.position (Piece.this s)) + Point.x d)
                 (Point.y (Piece.position (Piece.this s)) + Point.y d) s in
  Forall (fun d => exists b, test d = Ret b s) ds ->
  (exists l1 d l2,
      ds = l1 ++ d :: l2
      /\ Forall (fun e => test e = Ret false s) l1
      /\ test d = Ret true s
      /\ Piece.kick_loop ds s
         = Ret (Some true) (Piece.on_this (kicked d) s))
  \/ (Forall (fun e => test e = Ret false s) ds
      /\ Piece.kick_loop ds s = Ret None s).
Proof.
  cbv zeta. induction ds as [|d ds IH]; intros Htot.
  - right. by split.
  - apply Forall_cons_1 in Htot. destruct Htot as [[b Hb] Htot].
    rewrite kick_loop_cons. cbv zeta. rewrite Hb. destruct b.
    + left. exists [], d, ds. by repeat split.
    + destruct (IH Htot) as [(l1 & e & l2 & -> & Hl1 & He & Hrun)|[Hall Hrun]].
      * left. exists (d :: l1), e, l2. repeat split; try done.
        by constructor.
      * right. split; [by constructor|done].
Qed.

(** C3: [kickRotate(ccw)] on a grid of [GRID_HEIGHT] rows and a piece on
    the integer lattice (integer blocks and position, a centroid with
    [2 * centroid.y] and [centroid.x - centroid.y] integers).  The table
    holds the 49 offsets (dx, dy) with dx and dy in [-3, 3], in ascending
    order of dx^2 + dy^2, (0, 0) first.  The blocks are rotated about the
    centroid first; then either some offset of the table fits, every
    offset before it does not, that first fitting offset is added to the
    position and the call returns [true]; or no offset fits, the call
    returns [false], the position is the one before the call and every
    block has the coordinates it had before the call. *)
Theorem kickRotate_spec (ccw : bool) (p : Piece.t) (g : Grid) :
  length g = GRID_HEIGHT ->
  integral_blocks p = true ->
  integral_point (Piece.position p) = true ->
  integral (Point.x (Piece.centroid p) - Point.y (Piece.centroid p)) = true ->
  integral (Point.y (Piece.centroid p) * 2) = true ->
  let s := Piece.Store (turned ccw p) g in
  let test d :=
    Piece.fitsAt (Point.x (Piece.position p) + Point.x d)
                 (Point.y (Piece.position p) + Point.y d) s in
  (length KICK_DELTAS = 49%nat
   /\ KICK_DELTAS ≡ₚ kick_candidates
   /\ Sorted by_sqmag KICK_DELTAS
   /\ head KICK_DELTAS = Some (Point.mk 0 0))
  /\ ((exists l1 d l2,
         KICK_DELTAS = l1 ++ d :: l2
         /\ Forall (fun e => test e = Ret false s) l1
         /\ test d = Ret true s
         /\ Piece.kickRotate ccw (Piece.Store p g)
            = Ret true (Piece.Store (kicked d (turned ccw p)) g))
      \/ (Forall (fun e => test e = Ret false s) KICK_DELTAS
          /\ exists bs,
               Piece.kickRotate ccw (Piece.Store p g)
               = Ret false (Piece.Store (Piece.set_blocks bs p) g)
               /\ same_blocks bs (Piece.blocks p))).
Proof.
  intros Hlen Hblocks Hpos Hd Ht. cbv zeta.
  split.
  { split; [reflexivity|]. split; [exact KICK_DELTAS_candidates|].
    split; [exact KICK_DELTAS_sorted|reflexivity]. }
  unfold integral_point in Hpos. apply andb_true_iff in Hpos as [_ Hpy].
  set (s := Piece.Store (turned ccw p) g).
  assert (Htot : Forall (fun d => exists b,
            Piece.fitsAt (Point.x (Piece.position (Piece.this s)) + Point.x d)
              (Point.y (Piece.position (Piece.this s)) + Point.y d) s
            = Ret b s) KICK_DELTAS).
  { apply Forall_forall. intros d Hin.
    pose proof KICK_DELTAS_integral as Hk. rewrite forallb_forall in Hk.
    apply list_elem_of_In in Hin. specialize (Hk d Hin).
    apply andb_true_iff in Hk as [_ Hdy].
    destruct (fitsAt_loop_spec (Piece.blocks (turned ccw p))
                (Point.x (Piece.position p) + Point.x d)
                (Point.y (Piece.position p) + Point.y d) s Hlen)
      as (b & Hb & _).
    - cbn. by apply rotate_integral_blocks.
    - by apply integral_plus.
    - exists b. exact Hb. }
  assert (Hs : Piece.on_this (fun q =>
                 Piece.set_blocks
                   (map (Point.rotate ccw (Piece.centroid q)) (Piece.blocks q))
                   q) (Piece.Store p g) = s) by reflexivity.
  rewrite kickRotate_unfold. cbv beta zeta. rewrite Hs.
  destruct (kick_loop_search KICK_DELTAS s Htot)
    as [(l1 & d & l2 & Hsplit & Hl1 & Hfit & Hrun)|[Hall Hrun]].
  - left. exists l1, d, l2. rewrite Hrun. by repeat split.
  - right. split; [exact Hall|]. rewrite Hrun.
    eexists. split; [reflexivity|].
    cbn. rewrite map_map. apply same_blocks_map.
    intros pt. apply rotate_there_and_back.
Qed.

(** The O piece one row above the floor of the empty grid. *)
Lemma kickRotate_spec_witness :
  length emptyGrid = GRID_HEIGHT
  /\ integral_blocks O_above_floor = true
  /\ integral_point (Piece.position O_above_floor) = true
  /\ integral ((2 # 4) - (2 # 4)) = true
  /\ integral ((2 # 4) * 2) = true
  /\ exists b s',
       Piece.kickRotate false (Piece.Store O_above_floor emptyGrid) = Ret b s'.
Proof.
  do 5 (split; [reflexivity|]).
  destruct (kickRotate_spec false O_above_floor emptyGrid
              eq_refl eq_refl eq_refl eq_refl eq_refl)
    as [_ [(l1 & d & l2 & _ & _ & _ & H)|(_ & bs & H & _)]]; eauto.
Defined.

(** ** Line clearing *)

Lemma clear_loop_spec (n : nat) (g : Grid) :
  (n <= length g)%nat ->
  Game.clear_loop n g
  = Ret tt (List.filter (fun row => negb (row_full row)) (take n g) ++ drop n g).
Proof.
  revert g. induction n as [|y IH]; intros g Hn.
  - cbn. by rewrite drop_0.
  - cbn [Game.clear_loop]. unfold bind at 1. cbn [get].
    destruct (lookup_lt_is_Some_2 g y ltac:(lia)) as [row Hrow].
    rewrite Hrow. unfold bind at 1.
    rewrite (take_S_r _ _ _ Hrow), List.filter_app. cbn [List.filter].
    fold (row_full row). destruct (row_full row) eqn:Hfull; cbn [negb put ret].
    + rewrite IH by (rewrite length_delete by eauto; lia).
      rewrite delete_take_drop.
      rewrite take_app_length' by (rewrite length_take_le; lia).
      rewrite drop_app_length' by (rewrite length_take_le; lia).
      by rewrite app_nil_r.
    + rewrite IH by lia. rewrite (drop_S _ _ _ Hrow).
      by rewrite <- app_assoc.
Qed.

Lemma refill_spec (fuel : nat) (g : Grid) :
  (length g <= GRID_HEIGHT)%nat ->
  (GRID_HEIGHT - length g <= fuel)%nat ->
  Game.refill fuel g
  = Some (replicate (GRID_HEIGHT - length g) emptyRow ++ g).
Proof.
  revert g. induction fuel as [|fuel IH]; intros g Hle Hfuel.
  - cbn [Game.refill].
    replace (length g =? GRID_HEIGHT)%nat with true
      by (symmetry; apply Nat.eqb_eq; lia).
    by replace (GRID_HEIGHT - length g)%nat with 0%nat by lia.
  - cbn [Game.refill]. destruct (length g =? GRID_HEIGHT)%nat eqn:E.
    + apply Nat.eqb_eq in E. rewrite E.
      by replace (GRID_HEIGHT - GRID_HEIGHT)%nat with 0%nat by lia.
    + apply Nat.eqb_neq in E.
      rewrite IH by (cbn [length]; lia). cbn [length].
      replace (GRID_HEIGHT - length g)%nat
        with (S (GRID_HEIGHT - S (length g)))%nat by lia.
      rewrite replicate_S_end, <- app_assoc. reflexivity.
Qed.

(** C6: on a grid of [GRID_HEIGHT] rows, with a bound of at least
    [GRID_HEIGHT] on the iterations of its second loop, [clearLines()]
    returns normally; the grid it leaves is the one obtained from the
    grid before the call by discarding every row in which all cells are
    non-empty and putting as many empty rows on top; and that grid has
    [GRID_HEIGHT] rows again. *)
Theorem clearLines_spec (fuel : nat) (g : Grid) :
  length g = GRID_HEIGHT ->
  (GRID_HEIGHT <= fuel)%nat ->
  Game.clearLines fuel g = Some (Ret tt (cleared g))
  /\ length (cleared g) = GRID_HEIGHT.
Proof.
  intros Hlen Hfuel.
  pose proof (List.filter_length_le (fun row => negb (row_full row)) g) as Hk.
  split.
  - unfold Game.clearLines. rewrite clear_loop_spec by lia.
    rewrite <- Hlen at 1 2. rewrite firstn_all, drop_all, app_nil_r.
    rewrite refill_spec by lia. unfold cleared. cbv zeta. by rewrite Hlen.
  - unfold cleared. cbv zeta. rewrite length_app, length_replicate. lia.
Qed.

(** Rows 3 and 5 full: they are gone, row 4 is now row 5, and rows 0 to 4
    are empty. *)
Lemma clearLines_spec_witness :
  length two_full_rows = GRID_HEIGHT
  /\ (GRID_HEIGHT <= GRID_HEIGHT)%nat
  /\ Game.clearLines GRID_HEIGHT two_full_rows
     = Some (Ret tt (<[5%nat := partRow]> emptyGrid)).
Proof.
  split; [reflexivity|]. split; [apply Nat.le_refl|].
  destruct (clearLines_spec GRID_HEIGHT two_full_rows eq_refl (Nat.le_refl _))
    as [H _].
  exact H.
Defined.

(** ** The bag *)

Lemma trunc_range (q : Q) (k : Z) :
  (0 <= q)%Q -> (q < inject_Z (k + 1))%Q -> (0 <= trunc q <= k)%Z.
Proof.
  destruct q as [a b]. unfold Qle, Qlt, trunc.
  cbn [Qnum Qden inject_Z]. intros H0 Hlt.
  assert (0 <= a)%Z by lia.
  rewrite Z.quot_div_nonneg by lia. split.
  - apply Z.div_pos; lia.
  - apply Z.lt_succ_r. apply Z.div_lt_upper_bound; lia.
Qed.

Lemma wrap32_small (z : Z) : (0 <= z < 2 ^ 31)%Z -> wrap32 z = z.
Proof. intros H. unfold wrap32. rewrite Z.mod_small; lia. Qed.

Lemma random_index (r : Q) (i : nat) :
  (0 <= r)%Q -> (r < 1)%Q -> (Z.of_nat i < 2 ^ 31 - 1)%Z ->
  exists j : nat,
    toInt32 (r * (inject_Z (Z.of_nat i) + 1)) = Z.of_nat j /\ (j <= i)%nat.
Proof.
  intros H0 H1 Hi.
  assert (Hpos : (0 < inject_Z (Z.of_nat i) + 1)%Q).
  { assert (0 <= inject_Z (Z.of_nat i))%Q
      by (unfold Qle; cbn; lia). lra. }
  destruct (trunc_range (r * (inject_Z (Z.of_nat i) + 1)) (Z.of_nat i))
    as [Hlo Hhi].
  - apply Qmult_le_0_compat; lra.
  - rewrite inject_Z_plus. change (inject_Z 1) with 1%Q.
    apply Qlt_le_trans with (1 * (inject_Z (Z.of_nat i) + 1))%Q;
      [by apply Qmult_lt_compat_r|lra].
  - exists (Z.to_nat (trunc (r * (inject_Z (Z.of_nat i) + 1)))).
    unfold toInt32. rewrite wrap32_small by lia. split; lia.
Qed.

Lemma swap_head_Permutation {A} (l : list A) (j : nat) (a y : A) :
  l !! j = Some y -> y :: <[j := a]> l ≡ₚ a :: l.
Proof.
  revert j. induction l as [|b l IH]; intros [|j] H; try done; cbn in *.
  - injection H as ->. apply Permutation_swap.
  - rewrite Permutation_swap, (IH j H). apply Permutation_swap.
Qed.

Lemma insert_swap_Permutation {A} (l : list A) (i j : nat) (x y : A) :
  l !! i = Some x -> l !! j = Some y -> <[j := x]> (<[i := y]> l) ≡ₚ l.
Proof.
  revert i j. induction l as [|a l IH]; intros [|i] [|j] Hi Hj;
    try done; cbn in *.
  - by injection Hi as ->.
  - injection Hi as ->. by apply swap_head_Permutation.
  - injection Hj as ->. by apply swap_head_Permutation.
  - by rewrite (IH i j).
Qed.

Lemma read_in_range {A} (b : JsArray.t A) (i : nat) :
  JsArray.read b (inject_Z (Z.of_nat i)) = mjoin (b !! i).
Proof.
  unfold JsArray.read.
  by rewrite (proj2 (as_index_Some _ i) (Qeq_refl _)).
Qed.

Lemma write_in_range {A} (b : JsArray.t A) (i : nat) (v : option A) :
  (i < length b)%nat ->
  JsArray.write b (inject_Z (Z.of_nat i)) v = <[i := v]> b.
Proof.
  intros Hi. unfold JsArray.write.
  rewrite (proj2 (as_index_Some _ i) (Qeq_refl _)).
  by replace (i <? length b)%nat with true by (symmetry; by apply Nat.ltb_lt).
Qed.

Lemma swap_Permutation (b : JsArray.t Piece.t) (i j : nat) :
  (i < length b)%nat -> (j < length b)%nat ->
  Bag.swap (inject_Z (Z.of_nat i)) (inject_Z (Z.of_nat j)) b ≡ₚ b.
Proof.
  intros Hi Hj. unfold Bag.swap. rewrite !read_in_range.
  destruct (lookup_lt_is_Some_2 b i Hi) as [ci Hci].
  destruct (lookup_lt_is_Some_2 b j Hj) as [cj Hcj].
  rewrite Hci, Hcj. cbn [mjoin option_join].
  rewrite (write_in_range b i) by done.
  rewrite write_in_range by (by rewrite length_insert).
  by apply insert_swap_Permutation.
Qed.

Lemma unit_interval_shift (e : nat -> Q) :
  unit_interval e -> unit_interval (fun n => e (S n)).
Proof. intros H k. apply H. Qed.

Lemma catalog_length (b : JsArray.t Piece.t) :
  b ≡ₚ map Some PIECES -> length b = 7%nat.
Proof. intros H. by rewrite H. Qed.

Lemma shuffle_loop_ok (i : nat) (s : Bag.store) :
  Bag.bag (Bag.this s) ≡ₚ map Some PIECES ->
  unit_interval (Bag.entropy s) ->
  (i < length (Bag.bag (Bag.this s)))%nat ->
  exists s',
    Bag.shuffle_loop i s = Ret tt s'
    /\ Bag.bag (Bag.this s') ≡ₚ map Some PIECES
    /\ Bag.index (Bag.this s') = Bag.index (Bag.this s)
    /\ unit_interval (Bag.entropy s').
Proof.
  revert s. induction i as [|i IH]; intros s Hperm He Hi.
  - exists s. split; [reflexivity|]. split; [exact Hperm|].
    split; [reflexivity|exact He].
  - pose proof (catalog_length _ Hperm) as Hlen.
    destruct (He 0%nat) as [H0 H1].
    destruct (random_index (Bag.entropy s 0%nat) (S i) H0 H1 ltac:(lia))
      as (j & Hj & Hji).
    cbn [Bag.shuffle_loop]. unfold bind at 1. unfold Bag.random at 1.
    rewrite Hj. unfold bind at 1. cbn [modify Bag.this Bag.entropy Bag.bag Bag.index].
    match goal with
    | |- context [Bag.shuffle_loop i ?s1] =>
        destruct (IH s1) as (s' & Hrun & Hperm' & Hidx & He')
    end.
    + cbn. rewrite swap_Permutation by lia. exact Hperm.
    + cbn. by apply unit_interval_shift.
    + cbn. rewrite swap_Permutation by lia. lia.
    + exists s'. split; [exact Hrun|]. split; [exact Hperm'|].
      split; [exact Hidx|exact He'].
Qed.

Lemma shuffle_ok (s : Bag.store) :
  Bag.bag (Bag.this s) ≡ₚ map Some PIECES ->
  unit_interval (Bag.entropy s) ->
  exists s',
    Bag.shuffle s = Ret tt s'
    /\ Bag.index (Bag.this s') = 0%Z
    /\ bag_ok s'.
Proof.
  intros Hperm He. pose proof (catalog_length _ Hperm) as Hlen.
  destruct (shuffle_loop_ok (length (Bag.bag (Bag.this s)) - 1) s Hperm He
              ltac:(lia)) as (s1 & Hrun & Hperm1 & _ & He1).
  unfold Bag.shuffle. unfold bind at 1. cbn [get].
  unfold bind. rewrite Hrun. cbn [modify].
  eexists. split; [reflexivity|]. split; [reflexivity|].
  split; [exact Hperm1|]. split; [|exact He1].
  cbn. rewrite (catalog_length _ Hperm1). lia.
Qed.

Lemma next_ok (s : Bag.store) :
  bag_ok s ->
  let k := Z.to_nat (Bag.index (Bag.this s)) in
  exists p s',
    Bag.next s = Ret (Some p) s'
    /\ Bag.bag (Bag.this s) !! k = Some (Some p)
    /\ bag_ok s'
    /\ ((S k < 7)%nat ->
        Bag.bag (Bag.this s') = Bag.bag (Bag.this s)
        /\ Bag.index (Bag.this s') = Z.of_nat (S k))
    /\ ((S k = 7)%nat -> Bag.index (Bag.this s') = 0%Z).
Proof.
  intros (Hperm & Hidx & He). cbv zeta.
  pose proof (catalog_length _ Hperm) as Hlen. rewrite Hlen in Hidx.
  set (k := Z.to_nat (Bag.index (Bag.this s))).
  assert (Hk : Bag.index (Bag.this s) = Z.of_nat k) by lia.
  destruct (lookup_lt_is_Some_2 (Bag.bag (Bag.this s)) k ltac:(lia))
    as [c Hc].
  assert (Hsome : is_Some c).
  { assert (Hin : c ∈ map Some PIECES).
    { rewrite <- Hperm. by eapply list_elem_of_lookup_2. }
    apply list_elem_of_fmap in Hin as (p & -> & _). by exists p. }
  destruct Hsome as [p ->]. exists p.
  unfold Bag.next. unfold bind at 1. cbn [get]. unfold bind at 1. cbn [put].
  rewrite Hk, read_in_range, Hc. cbn [mjoin option_join].
  cbn [Bag.this Bag.bag Bag.index Bag.entropy]. rewrite Hlen.
  destruct (Z.of_nat k + 1 >=? Z.of_nat 7)%Z eqn:E;
    rewrite Z.geb_leb in E;
    [apply Z.leb_le in E|apply Z.leb_gt in E].
  - assert (k = 6%nat) by lia.
    destruct (shuffle_ok (Bag.Store (Bag.mk (Bag.bag (Bag.this s))
                                       (Z.of_nat k + 1)) (Bag.entropy s))
                Hperm He) as (s' & Hrun & Hidx' & Hok).
    unfold bind. rewrite Hrun. exists s'.
    split; [reflexivity|]. split; [done|]. split; [exact Hok|].
    split; [lia|done].
  - unfold bind. cbn [ret]. eexists. split; [reflexivity|].
    split; [done|]. split.
    + split; [exact Hperm|]. split; [cbn; rewrite Hlen; lia|exact He].
    + split; [|lia]. intros _. cbn. split; [done|lia].
Qed.

Lemma next_calls_S (n : nat) (s : Bag.store) :
  next_calls (S n) s =
  match Bag.next s with
  | Ret r s1 =>
      match next_calls n s1 with
      | Ret rs s2 => Ret (r :: rs) s2
      | Throw e s2 => Throw e s2
      end
  | Throw e s1 => Throw e s1
  end.
Proof.
  cbn [next_calls]. unfold bind at 1.
  destruct (Bag.next s) as [r s1|e s1]; [|done].
  unfold bind. by destruct (next_calls n s1).
Qed.

Lemma next_calls_add (a b : nat) (s : Bag.store) :
  next_calls (a + b) s =
  match next_calls a s with
  | Ret xs s1 =>
      match next_calls b s1 with
      | Ret ys s2 => Ret (xs ++ ys) s2
      | Throw e s2 => Throw e s2
      end
  | Throw e s1 => Throw e s1
  end.
Proof.
  revert s. induction a as [|a IH]; intros s.
  - cbn. by destruct (next_calls b s).
  - cbn [Nat.add]. rewrite !next_calls_S.
    destruct (Bag.next s) as [r s1|e s1]; [|done].
    rewrite IH. destruct (next_calls a s1) as [xs s2|e s2]; [|done].
    by destruct (next_calls b s2).
Qed.

(** Calls that stay within one bag return its cells in order. *)
Lemma next_calls_within (n : nat) (s : Bag.store) :
  bag_ok s ->
  let k := Z.to_nat (Bag.index (Bag.this s)) in
  (k + n <= 7)%nat ->
  exists s',
    next_calls n s = Ret (take n (drop k (Bag.bag (Bag.this s)))) s'
    /\ bag_ok s'
    /\ ((k + n = 7)%nat -> (0 < n)%nat -> Bag.index (Bag.this s') = 0%Z).
Proof.
  cbv zeta. revert s. induction n as [|n IH]; intros s Hok Hkn.
  - exists s. split; [done|]. split; [done|lia].
  - destruct (next_ok s Hok) as (p & s1 & Hnext & Hcell & Hok1 & Hin & Hend).
    cbv zeta in *. rewrite next_calls_S, Hnext.
    rewrite (drop_S _ _ _ Hcell). cbn [take].
    destruct n as [|n].
    + exists s1. cbn [next_calls ret]. rewrite take_0.
      split; [done|]. split; [done|]. intros H _. apply Hend. lia.
    + destruct (Hin ltac:(lia)) as [Hbag Hidx].
      destruct (IH s1 Hok1) as (s' & Hrun & Hok' & Hzero).
      { rewrite Hidx. lia. }
      rewrite Hidx, Nat2Z.id, Hbag in Hrun. rewrite Hrun.
      exists s'. split; [done|]. split; [done|].
      intros H _. apply Hzero; [rewrite Hidx; lia|lia].
Qed.

(** Whole bags: after a multiple of seven calls the cursor is at 0. *)
Lemma next_calls_bags (m : nat) (s : Bag.store) :
  bag_ok s -> Bag.index (Bag.this s) = 0%Z ->
  exists out s',
    next_calls (7 * m) s = Ret out s'
    /\ bag_ok s' /\ Bag.index (Bag.this s') = 0%Z.
Proof.
  revert s. induction m as [|m IH]; intros s Hok H0.
  - exists [], s. split; [reflexivity|]. split; [exact Hok|exact H0].
  - replace (7 * S m)%nat with (7 + 7 * m)%nat by lia.
    rewrite next_calls_add.
    destruct (next_calls_within 7 s Hok) as (s1 & Hrun & Hok1 & Hzero).
    { rewrite H0. cbn. lia. }
    rewrite Hrun.
    destruct (IH s1 Hok1) as (out & s' & Hrun' & Hok' & H0').
    { apply Hzero; [rewrite H0; cbn; lia|lia]. }
    rewrite Hrun'. eauto.
Qed.

(** Any number of calls returns, and the invariant holds afterwards. *)
Lemma next_calls_ok (n : nat) (s : Bag.store) :
  bag_ok s -> exists out s', next_calls n s = Ret out s' /\ bag_ok s'.
Proof.
  revert s. induction n as [|n IH]; intros s Hok.
  - by exists [], s.
  - destruct (next_ok s Hok) as (p & s1 & Hnext & _ & Hok1 & _).
    destruct (IH s1 Hok1) as (out & s' & Hrun & Hok').
    rewrite next_calls_S, Hnext, Hrun. eauto.
Qed.

Lemma Bag_new_ok (e : nat -> Q) :
  unit_interval e ->
  exists b e',
    Bag.new e = Ret b e'
    /\ bag_ok (Bag.Store b e') /\ Bag.index b = 0%Z.
Proof.
  intros He.
  destruct (shuffle_ok (Bag.Store (Bag.mk (map Some PIECES) 0) e))
    as (s' & Hrun & Hidx & Hok); [done|exact He|].
  assert (Hclone : Bag.clone_all PIECES e = Ret PIECES e) by reflexivity.
  unfold Bag.new. unfold bind at 1. rewrite Hclone.
  unfold zoom. unfold bind at 1. rewrite Hrun.
  destruct s' as [b e']. exists b, e'.
  split; [reflexivity|]. split; [exact Hok|exact Hidx].
Qed.

(** C8: whatever numbers in [0, 1) [Math.random()] returns, a fresh bag
    is built, and from it every run of 7 consecutive calls of [next()]
    that starts after a multiple of 7 calls (the first 7 included)
    returns pieces whose identities are the seven identities 1 to 7, each
    once; after any number of calls the cursor is in [0, bagSize). *)
Theorem bag_runs (entropy : nat -> Q) :
  unit_interval entropy ->
  exists b e0,
    Bag.new entropy = Ret b e0
    /\ (forall m, exists skipped s1 run s2,
          next_calls (7 * m) (Bag.Store b e0) = Ret skipped s1
          /\ next_calls 7 s1 = Ret run s2
          /\ identities run ≡ₚ map Some [1; 2; 3; 4; 5; 6; 7]%Q
          /\ NoDup (identities run))
    /\ (forall n, exists out s,
          next_calls n (Bag.Store b e0) = Ret out s
          /\ (0 <= Bag.index (Bag.this s)
              < Z.of_nat (length (Bag.bag (Bag.this s))))%Z).
Proof.
  intros He. destruct (Bag_new_ok entropy He) as (b & e0 & Hnew & Hok & H0).
  exists b, e0. split; [exact Hnew|]. split.
  - intros m.
    destruct (next_calls_bags m _ Hok H0) as (skipped & s1 & Hrun1 & Hok1 & H1).
    destruct (next_calls_within 7 s1 Hok1) as (s2 & Hrun2 & _ & _).
    { rewrite H1. cbn. lia. }
    rewrite H1 in Hrun2. cbn [Z.to_nat] in Hrun2. rewrite drop_0 in Hrun2.
    destruct Hok1 as (Hperm & _ & _).
    rewrite take_ge in Hrun2 by (rewrite (catalog_length _ Hperm); lia).
    exists skipped, s1, (Bag.bag (Bag.this s1)), s2.
    split; [exact Hrun1|]. split; [exact Hrun2|].
    assert (Hids : identities (Bag.bag (Bag.this s1))
                   ≡ₚ map Some [1; 2; 3; 4; 5; 6; 7]%Q).
    { unfold identities. rewrite Hperm. reflexivity. }
    split; [exact Hids|]. rewrite Hids.
    repeat (apply NoDup_cons_2;
            [rewrite ?elem_of_cons, elem_of_nil; intros H; 
             repeat destruct H as [H|H]; try discriminate H; exact H|]).
    apply NoDup_nil_2.
  - intros n. destruct (next_calls_ok n _ Hok) as (out & s & Hrun & Hs).
    exists out, s. split; [exact Hrun|]. by destruct Hs as (_ & ? & _).
Qed.

(** With [Math.random()] returning 0 every time. *)
Lemma bag_runs_witness :
  unit_interval (fun _ => 0%Q)
  /\ exists b e0 run s2,
       Bag.new (fun _ => 0%Q) = Ret b e0
       /\ next_calls 7 (Bag.Store b e0) = Ret run s2
       /\ identities run ≡ₚ map Some [1; 2; 3; 4; 5; 6; 7]%Q.
Proof.
  assert (H : unit_interval (fun _ => 0%Q))
    by (intros k; split; [apply Qle_refl|reflexivity]).
  split; [exact H|].
  destruct (bag_runs (fun _ => 0%Q) H) as (b & e0 & Hnew & Hrun & _).
  destruct (Hrun 0%nat) as (skipped & s1 & run & s2 & H1 & H2 & H3 & _).
  cbn in H1. injection H1 as _ <-.
  by exists b, e0, run, s2.
Defined.

(** ** The per-tick step *)

(** What [movePieceDown()] does with an active piece: a lock empties
    [currentPiece] and leaves the grid as the commit wrote it;
    [clearLines()] runs on the ticks on which the piece did not lock. *)
Lemma movePieceDown_active (fuel : nat) (g : Game.t) (p : Piece.t) :
  Game.currentPiece g = Some p ->
  Game.movePieceDown fuel g =
  match Piece.moveDown (Piece.Store p (Game.grid g)) with
  | Ret true (Piece.Store p' gr) =>
      Some (Ret tt (Game.mk gr None (Game.bag g) (Game.entropy g)))
  | Ret false (Piece.Store p' gr) =>
      match Game.clearLines fuel gr with
      | Some (Ret _ gr') =>
          Some (Ret tt (Game.mk gr' (Some p') (Game.bag g) (Game.entropy g)))
      | Some (Throw e gr') =>
          Some (Throw e (Game.mk gr' (Some p') (Game.bag g) (Game.entropy g)))
      | None => None
      end
  | Throw e (Piece.Store p' gr) =>
      Some (Throw e (Game.mk gr (Some p') (Game.bag g) (Game.entropy g)))
  end.
Proof.
  intros Hp. unfold Game.movePieceDown, Game.call_current, zoom. rewrite Hp.
  destruct (Piece.moveDown _) as [[|] [p' gr]|e [p' gr]]; cbn; try done.
Qed.

(** C1, the code at the failing input: the O piece locks into the gap of
    the bottom row.  The tick returns with no active piece and with the
    grid as the commit wrote it: row 19 is full and still there, while
    [clearLines()] run on that grid would have removed it. *)
Theorem movePieceDown_lock_skips_clearLines :
  exists gr,
    Game.movePieceDown GRID_HEIGHT closing_session
    = Some (Ret tt (Game.mk gr None (Game.bag closing_session)
                      (Game.entropy closing_session)))
    /\ gr !! 19%nat
       = Some [Some 1; Some 1; Some 1; Some 1; Some 4; Some 4;
               Some 1; Some 1; Some 1; Some 1]%Q
    /\ Game.clearLines GRID_HEIGHT gr = Some (Ret tt (cleared gr))
    /\ cleared gr !! 19%nat
       = Some [Some 0; Some 0; Some 0; Some 0; Some 4; Some 4;
               Some 0; Some 0; Some 0; Some 0]%Q.
Proof.
  eexists. split; [reflexivity|]. split; [reflexivity|].
  split; reflexivity.
Qed.

(** * Further properties of the code *)

(** ** [isInt] and [arrayMax] *)

Lemma trunc_integer (q : Q) (z : Z) : (q == inject_Z z)%Q -> trunc q = z.
Proof.
  destruct q as [a b]. unfold Qeq, trunc. cbn [Qnum Qden inject_Z].
  rewrite Z.mul_1_r. intros ->. apply Z.quot_mul. lia.
Qed.

Lemma wrap32_range (z : Z) : (- 2 ^ 31 <= wrap32 z < 2 ^ 31)%Z.
Proof.
  unfold wrap32.
  pose proof (Z.mod_pos_bound (z + 2 ^ 31) (2 ^ 32) ltac:(lia)). lia.
Qed.

Lemma wrap32_id (z : Z) : (- 2 ^ 31 <= z < 2 ^ 31)%Z -> wrap32 z = z.
Proof. intros H. unfold wrap32. rewrite Z.mod_small; lia. Qed.

(** X1: [isInt(x)] holds exactly for the integers of the signed 32-bit
    range: a fraction is rejected, and so is an integer from 2^31 on or
    below -2^31, because [x | 0] wraps it. *)
Theorem isInt_spec (q : Q) :
  isInt q = true <->
  exists z : Z, (q == inject_Z z)%Q /\ (- 2 ^ 31 <= z < 2 ^ 31)%Z.
Proof.
  unfold isInt. rewrite Qeq_bool_iff. split.
  - intros H. exists (toInt32 q). split; [exact H|apply wrap32_range].
  - intros (z & Hz & Hr). unfold toInt32.
    rewrite (trunc_integer q z Hz), (wrap32_id z Hr). exact Hz.
Qed.

Lemma Math_max_cases (a b : Q) :
  (Math_max a b = a /\ (b <= a)%Q) \/ (Math_max a b = b /\ (a <= b)%Q).
Proof.
  unfold Math_max. destruct (Qle_bool a b) eqn:E.
  - right. split; [done|]. by apply Qle_bool_iff.
  - left. split; [done|]. apply Qlt_le_weak. apply Qnot_le_lt.
    intros H. apply Qle_bool_iff in H. congruence.
Qed.

Lemma fold_Math_max (l : list Q) (a : Q) :
  let m := fold_left Math_max l a in
  (a <= m)%Q /\ Forall (fun x => (x <= m)%Q) l /\ (m = a \/ In m l).
Proof.
  cbv zeta. revert a. induction l as [|x l IH]; intros a; cbn [fold_left].
  - split; [apply Qle_refl|]. split; [constructor|by left].
  - destruct (IH (Math_max a x)) as (Hle & Hall & Hin).
    destruct (Math_max_cases a x) as [[E Hxa]|[E Hax]]; rewrite E in *.
    + split; [exact Hle|]. split.
      * constructor; [|exact Hall]. by apply Qle_trans with a.
      * destruct Hin as [->|Hin]; [by left|right; by right].
    + split; [by apply Qle_trans with x|]. split.
      * constructor; [exact Hle|exact Hall].
      * right. destruct Hin as [->|Hin]; [by left|by right].
Qed.

(** X2: on a non-empty array, [arrayMax] returns one of the elements, and
    no element is greater. *)
Theorem arrayMax_spec (xs : list Q) :
  xs <> [] ->
  In (arrayMax xs) xs /\ Forall (fun x => (x <= arrayMax xs)%Q) xs.
Proof.
  destruct xs as [|x0 xs]; [done|]. intros _. unfold arrayMax. cbn [hd].
  destruct (fold_Math_max (x0 :: xs) x0) as (_ & Hall & Hin).
  split; [|exact Hall]. destruct Hin as [->|Hin]; [by left|exact Hin].
Qed.

Lemma arrayMax_spec_witness :
  [3; 1; 2]%Q <> []
  /\ In (arrayMax [3; 1; 2]%Q) [3; 1; 2]%Q
  /\ Forall (fun x => (x <= arrayMax [3; 1; 2]%Q)%Q) [3; 1; 2]%Q.
Proof.
  split; [discriminate|]. apply (arrayMax_spec [3; 1; 2]%Q). discriminate.
Defined.

(** ** The constructor, [clone] and the class invariant *)

(** X3: the constructor returns only pieces that pass its four
    assertions, and leaves the store alone; [clone()] of a piece that
    passes them returns a piece equal to it, and of one that does not
    throws an assertion message. *)
Theorem constructor_clone {S} (s : S) :
  (forall bs c i pos p s',
      Piece.new bs c i pos s = Ret p s' ->
      p = Piece.mk bs c i pos /\ s' = s /\ valid_piece p = true)
  /\ (forall p,
        if valid_piece p then Piece.clone p s = Ret p s
        else exists msg, Piece.clone p s = Throw (Assertion msg) s).
Proof.
  split.
  - intros bs c i pos p s' H.
    unfold Piece.new, bind, assert, ret, throw in H.
    destruct (length bs =? NUM_BLOCKS)%nat eqn:E1; [|done].
    destruct (isInt (Point.x c * 2) && isInt (Point.y c * 2)) eqn:E2; [|done].
    destruct (isInt i) eqn:E3; [|done]. destruct (Qltb 0 i) eqn:E4; [|done].
    injection H as <- <-. unfold valid_piece.
    cbn [Piece.blocks Piece.centroid Piece.index].
    by rewrite E1, E2, E3, E4.
  - intros [bs c i pos]. unfold Piece.clone, Piece.new, valid_piece.
    cbn [Piece.blocks Piece.centroid Piece.index Piece.position].
    unfold bind, assert, ret, throw.
    destruct (length bs =? NUM_BLOCKS)%nat; [|by eexists].
    destruct (isInt (Point.x c * 2) && isInt (Point.y c * 2)); [|by eexists].
    destruct (isInt i); [|by eexists]. destruct (Qltb 0 i); [|by eexists].
    reflexivity.
Qed.

Lemma valid_same_kind (p p' : Piece.t) :
  same_kind p p' -> valid_piece p' = valid_piece p.
Proof. intros (Hc & Hi & Hl). unfold valid_piece. by rewrite Hc, Hi, Hl. Qed.

Lemma place_loop_this (pts : list Point.t) (s : Piece.store) :
  Piece.this (final (Piece.place_loop pts s)) = Piece.this s.
Proof.
  revert s. induction pts as [|pt pts IH]; intros s; [done|].
  rewrite place_loop_cons. cbv zeta.
  destruct (grid_write _ _ _ _) as [g'|]; [|done].
  by rewrite IH.
Qed.

Lemma moveDown_frame (s : Piece.store) :
  let p' := Piece.this (final (Piece.moveDown s)) in
  Piece.blocks p' = Piece.blocks (Piece.this s)
  /\ Piece.centroid p' = Piece.centroid (Piece.this s)
  /\ Piece.index p' = Piece.index (Piece.this s).
Proof.
  cbv zeta. rewrite moveDown_unfold. cbv zeta.
  destruct (fitsAt_pure (Point.x (Piece.position (Piece.this s)))
              (Point.y (Piece.position (Piece.this s)) + 1) s)
    as [[[|] ->]| ->]; [done| |done].
  pose proof (place_loop_this (Piece.blocks (Piece.this s)) s) as H.
  change (Piece.place_loop (Piece.blocks (Piece.this s)) s)
    with (Piece.place s) in H.
  destruct (Piece.place s); cbn [final] in *; by rewrite H.
Qed.

Lemma moveHoriz_unfold (dx : Q) (s : Piece.store) :
  Piece.moveHoriz dx s =
  if isInt dx then
    let pos := Piece.position (Piece.this s) in
    match Piece.fitsAt (Point.x pos + dx) (Point.y pos) s with
    | Ret true s' =>
        Ret true
          (Piece.on_this (Piece.set_position
             (Point.mk (Point.x pos + dx) (Point.y pos))) s')
    | Ret false s' => Ret false s'
    | Throw e s' => Throw e s'
    end
  else Throw (Assertion "dx should be a number") s.
Proof.
  unfold Piece.moveHoriz. unfold bind at 1. unfold assert.
  destruct (isInt dx); [|done]. cbn [ret]. unfold bind at 1. cbn [get].
  unfold bind at 1. cbv zeta.
  destruct (Piece.fitsAt _ _ s) as [[|] s'|e s']; reflexivity.
Qed.

(** X4: no method of a piece changes its centroid, its identity or the
    number of its blocks, however the call ends; so a piece that passes
    the constructor's assertions passes them after any sequence of calls,
    and can always be cloned. *)
Theorem methods_keep_kind (s : Piece.store) :
  let after {A} (m : M Piece.store A) := Piece.this (final (m s)) in
  (forall ccw, same_kind (Piece.this s) (after (Piece.rotate ccw)))
  /\ (forall x y, same_kind (Piece.this s) (after (Piece.fitsAt x y)))
  /\ same_kind (Piece.this s) (after Piece.place)
  /\ same_kind (Piece.this s) (after Piece.moveDown)
  /\ (forall dx, same_kind (Piece.this s) (after (Piece.moveHoriz dx)))
  /\ (forall ccw, same_kind (Piece.this s) (after (Piece.kickRotate ccw))).
Proof.
  cbv beta zeta. split; [|split; [|split; [|split; [|split]]]].
  - intros ccw. cbn. unfold same_kind. cbn. by rewrite length_map.
  - intros x y. by destruct (fitsAt_pure x y s) as [[b ->]| ->].
  - pose proof (place_loop_this (Piece.blocks (Piece.this s)) s) as H.
    change (Piece.place_loop (Piece.blocks (Piece.this s)) s)
      with (Piece.place s) in H. by rewrite H.
  - destruct (moveDown_frame s) as (Hb & Hc & Hi).
    unfold same_kind. by rewrite Hb, Hc, Hi.
  - intros dx. rewrite moveHoriz_unfold. destruct (isInt dx); [|done].
    cbv zeta.
    by destruct (fitsAt_pure (Point.x (Piece.position (Piece.this s)) + dx)
                  (Point.y (Piece.position (Piece.this s))) s)
      as [[[|] ->]| ->].
  - intros ccw. rewrite kickRotate_unfold. cbv beta zeta.
    match goal with
    | |- context [Piece.kick_loop KICK_DELTAS ?s1] =>
        pose proof (kick_loop_frame KICK_DELTAS s1) as (Hb & Hc & Hi & _);
        destruct (Piece.kick_loop KICK_DELTAS s1) as [[b|] s'|e s']
    end; cbn [final] in *; unfold same_kind; cbn;
      rewrite ?length_map, ?Hb, ?Hc, ?Hi; cbn; by rewrite ?length_map.
Qed.

Lemma constructor_clone_witness :
  valid_piece O_spawned = true
  /\ Piece.clone O_spawned tt = Ret O_spawned tt.
Proof.
  split; [reflexivity|].
  exact (proj2 (constructor_clone tt) O_spawned).
Defined.

(** ** Horizontal moves *)

(** X5: [moveHoriz(dx)] on a grid of [GRID_HEIGHT] rows and a piece with
    integer blocks and row.  With an integer [dx] it returns whether the
    piece fits [dx] columns aside; if so only [position.x] changes, by
    [dx], and if not nothing changes at all; the grid is never written.
    With a [dx] that is not a 32-bit integer it throws the assertion
    message and changes nothing. *)
Theorem moveHoriz_spec (dx : Q) (p : Piece.t) (g : Grid) :
  length g = GRID_HEIGHT ->
  integral_blocks p = true ->
  integral (Point.y (Piece.position p)) = true ->
  let pos := Piece.position p in
  let s := Piece.Store p g in
  if isInt dx then
    exists fits,
      (fits = true <-> fits_spec p g (Point.x pos + dx) (Point.y pos))
      /\ Piece.moveHoriz dx s
         = Ret fits
             (Piece.Store
                (if fits
                 then Piece.set_position
                        (Point.mk (Point.x pos + dx) (Point.y pos)) p
                 else p) g)
  else Piece.moveHoriz dx s = Throw (Assertion "dx should be a number") s.
Proof.
  intros Hlen Hblocks Hy. cbv zeta. rewrite moveHoriz_unfold.
  destruct (isInt dx); [|done]. cbv zeta. cbn [Piece.this Piece.position].
  destruct (fitsAt_loop_spec (Piece.blocks p)
              (Point.x (Piece.position p) + dx) (Point.y (Piece.position p))
              (Piece.Store p g) Hlen Hblocks Hy) as (fits & Hf & Hiff).
  assert (Hf' : Piece.fitsAt (Point.x (Piece.position p) + dx)
                  (Point.y (Piece.position p)) (Piece.Store p g)
                = Ret fits (Piece.Store p g)) by exact Hf.
  exists fits. split; [exact Hiff|]. rewrite Hf'. by destruct fits.
Qed.

(** The O piece on the floor of the empty grid, one column to the left. *)
Lemma moveHoriz_spec_witness :
  length emptyGrid = GRID_HEIGHT
  /\ integral_blocks O_floor = true
  /\ integral (Point.y (Piece.position O_floor)) = true
  /\ exists fits : bool,
       Piece.moveHoriz (-1) (Piece.Store O_floor emptyGrid)
       = Ret fits
           (Piece.Store
              (if fits
               then Piece.set_position (Point.mk (4 + -1) 18) O_floor
               else O_floor) emptyGrid).
Proof.
  do 3 (split; [reflexivity|]).
  destruct (moveHoriz_spec (-1) O_floor emptyGrid eq_refl eq_refl eq_refl)
    as (fits & _ & H).
  by exists fits.
Defined.

(** ** The collision test reads numbers, not representations *)

Lemma Qltb_proper (a a' b b' : Q) :
  (a == a')%Q -> (b == b')%Q -> Qltb a b = Qltb a' b'.
Proof. intros Ha Hb. unfold Qltb. by rewrite (Qleb_comp _ _ Hb _ _ Ha). Qed.

Lemma Qgeb_proper (a a' b b' : Q) :
  (a == a')%Q -> (b == b')%Q -> Qgeb a b = Qgeb a' b'.
Proof. intros Ha Hb. unfold Qgeb. by rewrite (Qleb_comp _ _ Hb _ _ Ha). Qed.

Lemma grid_read_proper (g : Grid) (r r' c c' : Q) :
  (r == r')%Q -> (c == c')%Q -> grid_read g r c = grid_read g r' c'.
Proof.
  intros Hr Hc. unfold grid_read, grid_row, JsArray.read.
  by rewrite (as_index_proper r r' Hr), (as_index_proper c c' Hc).
Qed.

(** The test depends on the blocks, the offsets and the grid only, and
    on those as numbers. *)
Lemma fitsAt_loop_same (pts pts' : list Point.t) (x x' y y' : Q)
    (s s' : Piece.store) (b : bool) :
  Forall2 Point.same pts pts' ->
  (x == x')%Q -> (y == y')%Q ->
  Piece.grid s = Piece.grid s' ->
  Piece.fitsAt_loop pts x y s = Ret b s ->
  Piece.fitsAt_loop pts' x' y' s' = Ret b s'.
Proof.
  intros Hpts Hx Hy Hg. induction Hpts as [|pt pt' pts pts' [Hpx Hpy] _ IH];
    cbn [Piece.fitsAt_loop]; [by intros [= <-]|].
  assert (Ex : (Point.x pt + x == Point.x pt' + x')%Q) by (by rewrite Hpx, Hx).
  assert (Ey : (Point.y pt + y == Point.y pt' + y')%Q) by (by rewrite Hpy, Hy).
  rewrite <- (Qltb_proper _ _ 0 0 Ex (Qeq_refl 0)).
  rewrite <- (Qgeb_proper _ _ _ _ Ex (Qeq_refl _)).
  rewrite <- (Qgeb_proper _ _ _ _ Ey (Qeq_refl _)).
  rewrite <- (Qltb_proper _ _ 0 0 Ey (Qeq_refl 0)).
  destruct (orb _ _); [by intros [= <-]|].
  destruct (Qltb _ 0); [exact IH|].
  unfold bind, get.
  rewrite <- (grid_read_proper (Piece.grid s') _ _ _ _ Ey Ex), <- Hg.
  destruct (grid_read _ _ _) as [c|]; [|done].
  destruct (JsArray.nonzero c); [by intros [= <-]|exact IH].
Qed.

Lemma same_blocks_refl (bs : list Point.t) : Forall2 Point.same bs bs.
Proof. induction bs; constructor; [by split|done]. Qed.

Lemma KICK_DELTAS_head : KICK_DELTAS = Point.mk 0 0 :: tail KICK_DELTAS.
Proof. reflexivity. Qed.

Lemma same_blocks_back (ccw : bool) (c : Point.t) (bs : list Point.t) :
  Forall2 Point.same bs
    (map (Point.rotate (negb ccw) c) (map (Point.rotate ccw c) bs)).
Proof.
  induction bs as [|b bs IH]; cbn [map]; constructor; [|exact IH].
  destruct (rotate_there_and_back ccw c b) as [Hx Hy].
  split; by symmetry.
Qed.

(** X6: a rotation in open space is undone by the opposite one.  When
    the piece fits where it is, both as it is and rotated,
    [kickRotate(ccw)] succeeds without moving it, [kickRotate(!ccw)]
    right after succeeds too, and afterwards every block and the position
    have the numbers they started with; the grid is never written. *)
Theorem kickRotate_round_trip (ccw : bool) (p : Piece.t) (g : Grid) :
  let pos := Piece.position p in
  Piece.fitsAt (Point.x pos) (Point.y pos) (Piece.Store p g)
  = Ret true (Piece.Store p g) ->
  Piece.fitsAt (Point.x pos) (Point.y pos) (Piece.Store (turned ccw p) g)
  = Ret true (Piece.Store (turned ccw p) g) ->
  exists p1 p2,
    Piece.kickRotate ccw (Piece.Store p g) = Ret true (Piece.Store p1 g)
    /\ Piece.blocks p1 = map (Point.rotate ccw (Piece.centroid p)) (Piece.blocks p)
    /\ Point.same (Piece.position p1) pos
    /\ Piece.kickRotate (negb ccw) (Piece.Store p1 g)
       = Ret true (Piece.Store p2 g)
    /\ same_blocks (Piece.blocks p) (Piece.blocks p2)
    /\ Point.same (Piece.position p2) pos
    /\ same_kind p p2.
Proof.
  cbv zeta. intros Hfit Hturned.
  set (p1 := kicked (Point.mk 0 0) (turned ccw p)).
  set (p2 := kicked (Point.mk 0 0) (turned (negb ccw) p1)).
  exists p1, p2.
  assert (H1 : Piece.kickRotate ccw (Piece.Store p g)
               = Ret true (Piece.Store p1 g)).
  { rewrite kickRotate_unfold. cbv beta zeta.
    change (Piece.on_this _ (Piece.Store p g))
      with (Piece.Store (turned ccw p) g).
    rewrite KICK_DELTAS_head, kick_loop_cons. cbv zeta.
    cbn [Piece.this Piece.position turned Piece.set_blocks Point.x Point.y].
    unfold Piece.fitsAt at 1. unfold bind at 1. cbn [get].
    rewrite (fitsAt_loop_same (Piece.blocks (turned ccw p)) _
               (Point.x (Piece.position p)) _ (Point.y (Piece.position p)) _
               (Piece.Store (turned ccw p) g) _ true); try done.
    - apply same_blocks_refl.
    - ring.
    - ring. }
  assert (H2 : Piece.kickRotate (negb ccw) (Piece.Store p1 g)
               = Ret true (Piece.Store p2 g)).
  { rewrite kickRotate_unfold. cbv beta zeta.
    change (Piece.on_this _ (Piece.Store p1 g))
      with (Piece.Store (turned (negb ccw) p1) g).
    rewrite KICK_DELTAS_head, kick_loop_cons. cbv zeta.
    unfold Piece.fitsAt at 1. unfold bind at 1. cbn [get].
    rewrite (fitsAt_loop_same (Piece.blocks p) _
               (Point.x (Piece.position p)) _ (Point.y (Piece.position p)) _
               (Piece.Store p g) _ true); try done.
    - cbn. apply same_blocks_back.
    - cbn. ring.
    - cbn. ring. }
  split; [exact H1|]. split; [reflexivity|].
  split; [split; cbn; ring|]. split; [exact H2|].
  split; [cbn; apply same_blocks_back|].
  split; [split; cbn; ring|].
  unfold same_kind. cbn. by rewrite !length_map.
Qed.

(** The O piece in the middle of the empty grid. *)
Lemma kickRotate_round_trip_witness :
  Piece.fitsAt 4 17 (Piece.Store O_above_floor emptyGrid)
  = Ret true (Piece.Store O_above_floor emptyGrid)
  /\ exists p1 p2,
       Piece.kickRotate true (Piece.Store O_above_floor emptyGrid)
       = Ret true (Piece.Store p1 emptyGrid)
       /\ Piece.kickRotate false (Piece.Store p1 emptyGrid)
          = Ret true (Piece.Store p2 emptyGrid)
       /\ same_blocks (Piece.blocks O_above_floor) (Piece.blocks p2).
Proof.
  split; [reflexivity|].
  destruct (kickRotate_round_trip true O_above_floor emptyGrid
              eq_refl eq_refl) as (p1 & p2 & H1 & _ & _ & H2 & H3 & _).
  by exists p1, p2.
Defined.

(** ** Locking twice *)

Lemma grid_write_read_cases (g g' : Grid) (r1 c1 v r c : Q) :
  grid_write g r1 c1 v = Some g' ->
  grid_read g' r c = Some (Some v) \/ grid_read g' r c = grid_read g r c.
Proof.
  intros H. apply grid_write_Some in H as (i1 & row1 & Hi1 & Hrow1 & ->).
  unfold grid_read, grid_row.
  destruct (as_index r) as [i|] eqn:Hi; [|by right].
  destruct (decide (i1 = i)) as [->|Hne];
    [|right; by rewrite list_lookup_insert_ne].
  rewrite list_lookup_insert_eq by (by eapply lookup_lt_Some).
  rewrite Hrow1.
  destruct (as_index c) as [j|] eqn:Hj;
    [|right; unfold JsArray.read; by rewrite Hj].
  destruct (as_index c1) as [j1|] eqn:Hj1;
    [|right; unfold JsArray.write; by rewrite Hj1].
  destruct (decide (j1 = j)) as [->|Hnej].
  - left. f_equal.
    assert (E : (c == c1)%Q).
    { apply as_index_Some in Hj, Hj1. by rewrite Hj, Hj1. }
    transitivity (JsArray.read (JsArray.write row1 c1 (Some v)) c1).
    + unfold JsArray.read. by rewrite (as_index_proper c c1 E).
    + by rewrite (read_write_same _ _ _ j).
  - right. by rewrite (read_write_other _ _ _ _ j1 j).
Qed.

Lemma place_loop_read_cases (pts : list Point.t) (s s' : Piece.store) (r c : Q) :
  Piece.place_loop pts s = Ret tt s' ->
  grid_read (Piece.grid s') r c = Some (Some (Piece.index (Piece.this s)))
  \/ grid_read (Piece.grid s') r c = grid_read (Piece.grid s) r c.
Proof.
  revert s. induction pts as [|pt pts IH]; intros s Hrun.
  - cbn in Hrun. injection Hrun as <-. by right.
  - rewrite place_loop_cons in Hrun. cbv zeta in Hrun.
    destruct (grid_write _ _ _ _) as [g1|] eqn:Hw; [|done].
    destruct (IH _ Hrun) as [H|H]; cbn [Piece.this Piece.grid] in H;
      [by left|].
    rewrite H. by apply (grid_write_read_cases _ _ _ _ _ r c Hw).
Qed.

Lemma grid_write_id (g : Grid) (r c v : Q) :
  grid_read g r c = Some (Some v) -> grid_write g r c v = Some g.
Proof.
  unfold grid_read, grid_row, grid_write, JsArray.read, JsArray.write.
  destruct (as_index r) as [i|]; [|done].
  destruct (g !! i) as [row|] eqn:Hrow; [|done].
  destruct (as_index c) as [j|]; [|done].
  intros [= Hcell].
  destruct (row !! j) as [cell|] eqn:Hj; [|done]. cbn in Hcell. subst cell.
  replace (j <? length row)%nat with true
    by (symmetry; apply Nat.ltb_lt; by eapply lookup_lt_Some).
  by rewrite (list_insert_id row j), (list_insert_id g i).
Qed.

Lemma place_loop_id (pts : list Point.t) (s : Piece.store) :
  Forall (fun b =>
    grid_read (Piece.grid s)
      (Point.y b + Point.y (Piece.position (Piece.this s)))
      (Point.x b + Point.x (Piece.position (Piece.this s)))
    = Some (Some (Piece.index (Piece.this s)))) pts ->
  Piece.place_loop pts s = Ret tt s.
Proof.
  induction 1 as [|pt pts Hpt _ IH]; [done|].
  rewrite place_loop_cons. cbv zeta. rewrite (grid_write_id _ _ _ _ Hpt).
  by destruct s.
Qed.

Lemma relock_run (p : Piece.t) (g g' : Grid) :
  length g = GRID_HEIGHT ->
  integral_blocks p = true ->
  integral_point (Piece.position p) = true ->
  rows_on_grid p = true -> columns_on_grid p = true ->
  Qltb 0 (Piece.index p) = true ->
  Piece.moveDown (Piece.Store p g) = Ret true (Piece.Store p g') ->
  Piece.moveDown (Piece.Store p g') = Ret true (Piece.Store p g').
Proof.
  intros Hlen Hblocks Hpos Hrows Hcols Hidx Hlock.
  pose proof Hpos as Hpos'. unfold integral_point in Hpos'.
  apply andb_true_iff in Hpos' as [Hpx Hpy].
  assert (Hy1 : integral (Point.y (Piece.position p) + 1) = true)
    by (by apply integral_plus).
  destruct (fitsAt_loop_spec (Piece.blocks p) (Point.x (Piece.position p))
              (Point.y (Piece.position p) + 1) (Piece.Store p g)
              Hlen Hblocks Hy1) as (b & Hf & Hiff).
  assert (Hf' : Piece.fitsAt (Point.x (Piece.position p))
                  (Point.y (Piece.position p) + 1) (Piece.Store p g)
                = Ret b (Piece.Store p g)) by exact Hf.
  rewrite moveDown_unfold in Hlock. cbv zeta in Hlock.
  cbn [Piece.this Piece.position] in Hlock. rewrite Hf' in Hlock.
  destruct b; [done|].
  destruct (place_loop_ok (Piece.blocks p) (Piece.Store p g) Hlen
              (rows_on_grid_Forall p Hrows Hblocks Hpy))
    as (g1 & Hrun & Hlen1 & Hnew & _).
  cbn [Piece.this Piece.grid] in *.
  assert (Hplace : Piece.place (Piece.Store p g) = Ret tt (Piece.Store p g1))
    by exact Hrun.
  rewrite Hplace in Hlock. injection Hlock as <-.
  destruct (fitsAt_loop_spec (Piece.blocks p) (Point.x (Piece.position p))
              (Point.y (Piece.position p) + 1) (Piece.Store p g1)
              Hlen1 Hblocks Hy1) as (b1 & Hf1 & Hiff1).
  assert (Hf1' : Piece.fitsAt (Point.x (Piece.position p))
                   (Point.y (Piece.position p) + 1) (Piece.Store p g1)
                 = Ret b1 (Piece.Store p g1)) by exact Hf1.
  assert (Hb1 : b1 = false).
  { destruct b1; [|done]. exfalso.
    assert (Hno : ~ (false = true)) by done. apply Hno, Hiff.
    cbn [Piece.grid] in *.
    eapply Forall_impl; [apply Hiff1; reflexivity|].
    intros pt (H0 & H1 & H2 & H3). repeat split; try done.
    intros Hrow. specialize (H3 Hrow). unfold cell_empty in *.
    destruct (place_loop_read_cases (Piece.blocks p) (Piece.Store p g)
                (Piece.Store p g1) (Point.y pt + (Point.y (Piece.position p) + 1))
                (Point.x pt + Point.x (Piece.position p)) Hrun) as [E|E];
      cbn [Piece.this Piece.grid] in E; rewrite E in H3; [|exact H3].
    unfold Qltb in Hidx. apply negb_true_iff in Hidx.
    exfalso. apply Qeq_bool_iff in H3.
    assert (Hle : Qle_bool (Piece.index p) 0 = true).
    { apply Qle_bool_iff. rewrite H3. apply Qle_refl. }
    congruence. }
  subst b1. rewrite moveDown_unfold. cbv zeta.
  cbn [Piece.this Piece.position]. rewrite Hf1'.
  assert (Hid : Piece.place (Piece.Store p g1) = Ret tt (Piece.Store p g1)).
  { apply (place_loop_id (Piece.blocks p) (Piece.Store p g1)).
    cbn [Piece.this Piece.grid]. apply Forall_forall. intros pt Hin.
    apply Hnew; [by apply list_elem_of_In|].
    pose proof (columns_on_grid_Forall p Hcols Hblocks Hpx) as Hc.
    rewrite Forall_forall in Hc. destruct (Hc pt Hin) as (Hi & H0 & _).
    by apply index_of_column. }
  by rewrite Hid.
Qed.

(** X7: locking is idempotent.  After [moveDown()] has locked a piece
    that lies on the grid, a further [moveDown()] on the same piece (the
    timer's, after a soft or hard drop from the keyboard) locks again: it
    still does not fit one row down, writes the cells it already holds,
    and leaves the grid exactly as it was. *)
Theorem moveDown_relock (p : Piece.t) (g g' : Grid) :
  length g = GRID_HEIGHT ->
  integral_blocks p = true ->
  integral_point (Piece.position p) = true ->
  rows_on_grid p = true -> columns_on_grid p = true ->
  Qltb 0 (Piece.index p) = true ->
  Piece.moveDown (Piece.Store p g) = Ret true (Piece.Store p g') ->
  Piece.moveDown (Piece.Store p g') = Ret true (Piece.Store p g').
Proof. exact (relock_run p g g'). Qed.

(** The O piece locked on the floor of the empty grid. *)
Lemma moveDown_relock_witness :
  length emptyGrid = GRID_HEIGHT
  /\ integral_blocks O_floor = true
  /\ integral_point (Piece.position O_floor) = true
  /\ rows_on_grid O_floor = true /\ columns_on_grid O_floor = true
  /\ Qltb 0 (Piece.index O_floor) = true
  /\ let g' := Piece.grid (final (Piece.moveDown (Piece.Store O_floor emptyGrid))) in
     Piece.moveDown (Piece.Store O_floor emptyGrid)
     = Ret true (Piece.Store O_floor g')
     /\ Piece.moveDown (Piece.Store O_floor g')
        = Ret true (Piece.Store O_floor g').
Proof.
  do 6 (split; [reflexivity|]). cbv zeta. split; [reflexivity|].
  apply (moveDown_relock O_floor emptyGrid); reflexivity.
Defined.

(** ** The hard drop and the ghost row *)

Lemma place_loop_outcome (pts : list Point.t) (s : Piece.store) :
  (exists s', Piece.place_loop pts s = Ret tt s')
  \/ (exists s', Piece.place_loop pts s = Throw TypeError s').
Proof.
  revert s. induction pts as [|pt pts IH]; intros s.
  - left. by exists s.
  - rewrite place_loop_cons. cbv zeta.
    destruct (grid_write _ _ _ _) as [g'|]; [apply IH|right; by exists s].
Qed.

Lemma drop_and_ghost (g : Grid) (b0 : Point.t) (f : nat) (p q : Piece.t) :
  length g = GRID_HEIGHT ->
  integral_blocks p = true ->
  integral (Point.y (Piece.position p)) = true ->
  head (Piece.blocks p) = Some b0 ->
  (inject_Z (Z.of_nat GRID_HEIGHT) - (Point.y b0 + Point.y (Piece.position p))
   < inject_Z (Z.of_nat (S f)))%Q ->
  Piece.blocks q = Piece.blocks p ->
  Point.x (Piece.position q) = Point.x (Piece.position p) ->
  exists gy o,
    ghost_loop (S f) (Point.y (Piece.position p)) (Piece.Store q g)
    = Some (Ret gy (Piece.Store q g))
    /\ hardDrop (S f) (Piece.Store p g) = Some o
    /\ (o = Ret tt (final o) \/ o = Throw TypeError (final o))
    /\ Piece.this (final o)
       = Piece.set_position (Point.mk (Point.x (Piece.position p)) gy) p.
Proof.
  intros Hlen. revert p.
  induction f as [|f IH]; intros p Hblocks Hpy Hhead Hbound Hq Hqx.
  all: assert (Hy1 : integral (Point.y (Piece.position p) + 1) = true)
         by (by apply integral_plus).
  all: destruct (fitsAt_loop_spec (Piece.blocks p) (Point.x (Piece.position p))
              (Point.y (Piece.position p) + 1) (Piece.Store p g)
              Hlen Hblocks Hy1) as (b & Hf & Hiff).
  all: assert (Hfp : Piece.fitsAt (Point.x (Piece.position p))
                  (Point.y (Piece.position p) + 1) (Piece.Store p g)
                = Ret b (Piece.Store p g)) by exact Hf.
  all: assert (Hfq : Piece.fitsAt (Point.x (Piece.position q))
                  (Point.y (Piece.position p) + 1) (Piece.Store q g)
                = Ret b (Piece.Store q g))
         by (unfold Piece.fitsAt, bind, get; cbn [Piece.this];
             rewrite Hq, Hqx;
             exact (fitsAt_loop_same (Piece.blocks p) (Piece.blocks p)
                      _ _ _ _ (Piece.Store p g) (Piece.Store q g) b
                      (same_blocks_refl _) (Qeq_refl _) (Qeq_refl _)
                      eq_refl Hf)).
  all: assert (Hlock : b = false ->
         exists o,
           hardDrop 1 (Piece.Store p g) = Some o
           /\ (forall n, hardDrop (S n) (Piece.Store p g) = Some o)
           /\ (o = Ret tt (final o) \/ o = Throw TypeError (final o))
           /\ Piece.this (final o) = p).
  1,3: intros ->;
       pose proof (place_loop_this (Piece.blocks p) (Piece.Store p g)) as Hthis;
       assert (Hmd : Piece.moveDown (Piece.Store p g)
                = match Piece.place_loop (Piece.blocks p) (Piece.Store p g) with
                  | Ret _ s'' => Ret true s''
                  | Throw e s'' => Throw e s''
                  end)
         by (rewrite moveDown_unfold; cbv zeta;
             cbn [Piece.this Piece.position]; by rewrite Hfp);
       destruct (place_loop_outcome (Piece.blocks p) (Piece.Store p g))
         as [[s' Hs']|[s' Hs']];
       rewrite Hs' in Hthis, Hmd; cbn [final Piece.this] in Hthis;
       eexists; (split; [cbn [hardDrop]; rewrite Hmd; reflexivity|]);
       (split; [intros n; cbn [hardDrop]; by rewrite Hmd|]);
       (split; [|exact Hthis]); [by left|by right].
  - (* one test left: the piece cannot fit one row down *)
    assert (b = false) as ->.
    { destruct b; [|done]. exfalso.
      assert (Hall := proj1 Hiff eq_refl).
      destruct (Piece.blocks p) as [|b0' bs]; [done|].
      injection Hhead as ->. apply Forall_cons_1 in Hall as [(_ & _ & Hlt & _) _].
      change (inject_Z (Z.of_nat 1)) with 1%Q in Hbound. lra. }
    destruct (Hlock eq_refl) as (o & Ho & _ & Hkind & Hthis).
    exists (Point.y (Piece.position p)), o.
    cbn [ghost_loop Piece.this]. rewrite Hfq.
    split; [done|]. split; [exact Ho|]. split; [exact Hkind|].
    rewrite Hthis. by destruct p as [? ? ? []].
  - destruct b.
    + set (p' := Piece.set_position
                   (Point.mk (Point.x (Piece.position p))
                             (Point.y (Piece.position p) + 1)) p).
      destruct (IH p') as (gy & o & Hghost & Hdrop & Hkind & Hthis);
        try done.
      { cbn. rewrite Nat2Z.inj_succ, <- Z.add_1_r, inject_Z_plus in Hbound.
        change (inject_Z 1) with 1%Q in Hbound. lra. }
      exists gy, o. split.
      * cbn [ghost_loop Piece.this]. rewrite Hfq. exact Hghost.
      * split; [|split; [exact Hkind|exact Hthis]].
        cbn [hardDrop]. rewrite moveDown_unfold. cbv zeta.
        cbn [Piece.this Piece.position]. rewrite Hfp. exact Hdrop.
    + destruct (Hlock eq_refl) as (o & _ & Ho & Hkind & Hthis).
      exists (Point.y (Piece.position p)), o.
      cbn [ghost_loop Piece.this]. rewrite Hfq.
      split; [done|]. split; [apply Ho|]. split; [exact Hkind|].
      rewrite Hthis. by destruct p as [? ? ? []].
Qed.

(** X8: the hard drop ends, in the row that the ghost loop of
    [render()] finds.  On a grid of [GRID_HEIGHT] rows, for a piece with
    integer blocks and row, once the bound on the iterations exceeds the
    distance from the first block's row to the floor: the ghost loop
    returns a row [gy] and changes nothing; the hard drop stops, with the
    piece at row [gy], its column, blocks, centroid and identity as
    before; and it stops either locked or, when a block of the piece is
    off the grid there, with the TypeError of the commit.  The row [gy] is
    the one the loop computes, not always the one the ghost is painted
    in: [Piece.render] replaces a row of 0 by the piece's own row. *)
Theorem hardDrop_ghostRow (fuel : nat) (p : Piece.t) (g : Grid) (b0 : Point.t) :
  length g = GRID_HEIGHT ->
  integral_blocks p = true ->
  integral (Point.y (Piece.position p)) = true ->
  head (Piece.blocks p) = Some b0 ->
  (0 < fuel)%nat ->
  (inject_Z (Z.of_nat GRID_HEIGHT) - (Point.y b0 + Point.y (Piece.position p))
   < inject_Z (Z.of_nat fuel))%Q ->
  exists gy o,
    ghostRow fuel (Piece.Store p g) = Some (Ret gy (Piece.Store p g))
    /\ hardDrop fuel (Piece.Store p g) = Some o
    /\ (o = Ret tt (final o) \/ o = Throw TypeError (final o))
    /\ Piece.this (final o)
       = Piece.set_position (Point.mk (Point.x (Piece.position p)) gy) p.
Proof.
  intros Hlen Hblocks Hpy Hhead Hfuel Hbound.
  destruct fuel as [|f]; [lia|].
  exact (drop_and_ghost g b0 f p p Hlen Hblocks Hpy Hhead Hbound
           eq_refl eq_refl).
Qed.

(** The O piece dropped from its spawn position onto the empty grid. *)
Lemma hardDrop_ghostRow_witness :
  length emptyGrid = GRID_HEIGHT
  /\ integral_blocks O_spawned = true
  /\ integral (Point.y (Piece.position O_spawned)) = true
  /\ head (Piece.blocks O_spawned) = Some (Point.mk 0 0)
  /\ (0 < 30)%nat
  /\ (inject_Z (Z.of_nat GRID_HEIGHT) - (0 + -2) < inject_Z (Z.of_nat 30))%Q
  /\ exists gy o,
       ghostRow 30 (Piece.Store O_spawned emptyGrid)
       = Some (Ret gy (Piece.Store O_spawned emptyGrid))
       /\ hardDrop 30 (Piece.Store O_spawned emptyGrid) = Some o
       /\ Piece.this (final o)
          = Piece.set_position (Point.mk 4 gy) O_spawned.
Proof.
  do 4 (split; [reflexivity|]). split; [lia|]. split; [reflexivity|].
  destruct (hardDrop_ghostRow 30 O_spawned emptyGrid (Point.mk 0 0)
              eq_refl eq_refl eq_refl eq_refl ltac:(lia) eq_refl)
    as (gy & o & H1 & H2 & _ & H3).
  exists gy, o. split; [exact H1|]. split; [exact H2|exact H3].
Defined.

(** ** Spawning *)

Lemma clone_of_valid {S} (p : Piece.t) (s : S) :
  valid_piece p = true -> Piece.clone p s = Ret p s.
Proof.
  destruct p as [bs c i pos]. unfold Piece.clone, Piece.new, valid_piece.
  cbn [Piece.blocks Piece.centroid Piece.index Piece.position].
  rewrite !andb_true_iff. intros [[[-> [Hx Hy]] ->] ->].
  unfold bind, assert, ret. by rewrite Hx, Hy.
Qed.

(** A piece that is wholly above the grid, within its columns, fits. *)
Lemma above_fits (p : Piece.t) (g : Grid) :
  length g = GRID_HEIGHT ->
  integral_blocks p = true ->
  integral (Point.y (Piece.position p)) = true ->
  columns_on_grid p = true ->
  all_above p = true ->
  Piece.fitsAt (Point.x (Piece.position p)) (Point.y (Piece.position p))
    (Piece.Store p g)
  = Ret true (Piece.Store p g).
Proof.
  intros Hlen Hblocks Hpy Hcols Habove.
  destruct (fitsAt_loop_spec (Piece.blocks p) (Point.x (Piece.position p))
              (Point.y (Piece.position p)) (Piece.Store p g)
              Hlen Hblocks Hpy) as (b & Hf & Hiff).
  assert (b = true) as ->; [|exact Hf].
  apply Hiff. apply Forall_forall. intros pt Hin.
  apply list_elem_of_In in Hin.
  unfold columns_on_grid, all_above in *.
  rewrite forallb_forall in Hcols, Habove.
  specialize (Hcols pt Hin). specialize (Habove pt Hin). cbv zeta in Hcols.
  apply andb_true_iff in Hcols as [H0 H1].
  apply Qle_bool_iff in H0. apply Qltb_lt in H1, Habove.
  assert (0 < inject_Z (Z.of_nat GRID_HEIGHT))%Q by reflexivity.
  repeat split; try done; [lra|]. intros Hrow. lra.
Qed.

(** The catalog, checked: every kind passes the constructor's assertions
    and, at its spawn position, has integer coordinates, lies within the
    columns of the grid and wholly above it, its lowest block in row -1. *)
Lemma catalog_spawns :
  forallb (fun k =>
    let p := Piece.set_position (spawnPosition k) k in
    valid_piece k && integral_blocks p && integral_point (Piece.position p)
    && columns_on_grid p && all_above p && touches_top p) PIECES = true.
Proof. by vm_compute. Qed.

(** X9: [spawn()].  With a piece active it throws its assertion message
    and changes nothing.  With none, and the bag in order, it returns:
    the new piece is the kind under the bag's cursor, unrotated, at the
    spawn position; the grid is untouched and the bag stays in order; the
    piece lies within the columns of the grid and wholly above it, its
    lowest block in row -1; so it fits where it is on any grid of
    [GRID_HEIGHT] rows, whatever the grid holds. *)
Theorem spawn_spec (g : Game.t) :
  bag_ok (Bag.Store (Game.bag g) (Game.entropy g)) ->
  match Game.currentPiece g with
  | Some _ =>
      Game.spawn g
      = Throw (Assertion "spawning while current piece is not null") g
  | None =>
      exists k b' e',
        Bag.bag (Game.bag g) !! Z.to_nat (Bag.index (Game.bag g))
        = Some (Some k)
        /\ In k PIECES
        /\ let p := Piece.set_position (spawnPosition k) k in
           Game.spawn g = Ret tt (Game.mk (Game.grid g) (Some p) b' e')
           /\ bag_ok (Bag.Store b' e')
           /\ columns_on_grid p = true
           /\ all_above p = true
           /\ touches_top p = true
           /\ (length (Game.grid g) = GRID_HEIGHT ->
               Piece.fitsAt (Point.x (Piece.position p))
                 (Point.y (Piece.position p)) (Piece.Store p (Game.grid g))
               = Ret true (Piece.Store p (Game.grid g)))
  end.
Proof.
  intros Hok. destruct (Game.currentPiece g) as [p0|] eqn:Hcur.
  - unfold Game.spawn. unfold bind at 1. cbn [get]. by rewrite Hcur.
  - destruct (next_ok _ Hok) as (k & s' & Hnext & Hcell & Hok' & _).
    cbv zeta in Hcell. cbn [Bag.this] in Hcell.
    assert (Hin : In k PIECES).
    { destruct Hok as (Hperm & _).
      assert (Some k ∈ map Some PIECES) as Hk.
      { rewrite <- Hperm. by eapply list_elem_of_lookup_2. }
      apply list_elem_of_fmap in Hk as (k' & [= ->] & Hk).
      by apply list_elem_of_In. }
    pose proof catalog_spawns as Hcat. rewrite forallb_forall in Hcat.
    specialize (Hcat k Hin). cbv zeta in Hcat.
    rewrite !andb_true_iff in Hcat.
    destruct Hcat as [[[[[Hvalid Hib] Hip] Hcols] Habove] Htop].
    destruct s' as [b' e'].
    exists k, b', e'. split; [exact Hcell|]. split; [exact Hin|].
    cbv zeta. split; [|split; [exact Hok'|split; [exact Hcols|
      split; [exact Habove|split; [exact Htop|]]]]].
    + unfold Game.spawn. unfold bind at 1. cbn [get]. rewrite Hcur.
      unfold bind at 1. cbn [assert ret]. unfold bind at 1.
      unfold Game.call_bag, zoom. rewrite Hnext.
      cbn [Bag.this Bag.entropy]. unfold bind at 1.
      rewrite (clone_of_valid k _ Hvalid). reflexivity.
    + intros Hlen. unfold integral_point in Hip.
      apply andb_true_iff in Hip as [_ Hipy].
      apply above_fits; [exact Hlen|exact Hib|exact Hipy|exact Hcols|
                         exact Habove].
Qed.

(** A fresh session whose [Math.random()] returns 0 every time. *)
Lemma spawn_spec_witness :
  exists b e,
    Bag.new (fun _ => 0%Q) = Ret b e
    /\ bag_ok (Bag.Store b e)
    /\ exists g', Game.spawn (Game.mk emptyGrid None b e) = Ret tt g'.
Proof.
  assert (H : unit_interval (fun _ => 0%Q))
    by (intros k; split; [apply Qle_refl|reflexivity]).
  destruct (Bag_new_ok _ H) as (b & e & Hnew & Hok & _).
  exists b, e. split; [exact Hnew|]. split; [exact Hok|].
  destruct (spawn_spec (Game.mk emptyGrid None b e) Hok)
    as (k & b' & e' & _ & _ & Hrun & _).
  eexists. exact Hrun.
Defined.

(** ** Line clearing, again *)

Lemma clearLines_run (fuel : nat) (g : Grid) :
  length g = GRID_HEIGHT -> (GRID_HEIGHT <= fuel)%nat ->
  Game.clearLines fuel g = Some (Ret tt (cleared g)).
Proof.
  intros Hlen Hfuel.
  pose proof (List.filter_length_le (fun row => negb (row_full row)) g) as Hk.
  unfold Game.clearLines. rewrite clear_loop_spec by lia.
  rewrite <- Hlen at 1 2. rewrite firstn_all, drop_all, app_nil_r.
  rewrite refill_spec by lia. unfold cleared. cbv zeta. by rewrite Hlen.
Qed.

Lemma filter_all {A} (f : A -> bool) (l : list A) :
  forallb f l = true -> List.filter f l = l.
Proof.
  induction l as [|a l IH]; cbn; [done|].
  intros H. apply andb_true_iff in H as [-> H]. by rewrite IH.
Qed.

Lemma cleared_no_full (g : Grid) :
  forallb (fun row => negb (row_full row)) (cleared g) = true.
Proof.
  unfold cleared. cbv zeta. rewrite forallb_app. apply andb_true_iff. split.
  - apply forallb_forall. intros row Hin.
    apply list_elem_of_In, elem_of_replicate in Hin as [-> _]. reflexivity.
  - apply forallb_forall. intros row Hin.
    by apply filter_In in Hin as [_ ?].
Qed.

Lemma cleared_length (g : Grid) : length (cleared g) = length g.
Proof.
  pose proof (List.filter_length_le (fun row => negb (row_full row)) g) as Hk.
  unfold cleared. cbv zeta. rewrite length_app, length_replicate. lia.
Qed.

Lemma cleared_wf (g : Grid) : wf_grid g = true -> wf_grid (cleared g) = true.
Proof.
  rewrite !wf_grid_iff. intros [Hlen Hrows].
  split; [by rewrite cleared_length|].
  unfold cleared. cbv zeta. apply Forall_app. split.
  - apply Forall_forall. intros row Hin.
    apply elem_of_replicate in Hin as [-> _]. split; [reflexivity|].
    apply Forall_forall. intros c Hc.
    apply elem_of_replicate in Hc as [-> _]. by eexists.
  - apply Forall_forall. intros row Hin. apply list_elem_of_In in Hin.
    apply filter_In in Hin as [Hin _]. apply list_elem_of_In in Hin.
    rewrite Forall_forall in Hrows. by apply Hrows.
Qed.

(** X10: [clearLines()] is idempotent and keeps the grid well-formed.  On
    a grid of [GRID_HEIGHT] rows it leaves a grid in which no row is
    full, a second call right after changes nothing, and a grid of
    [GRID_WIDTH]-cell rows of numbers stays one. *)
Theorem clearLines_idempotent (fuel : nat) (g : Grid) :
  length g = GRID_HEIGHT -> (GRID_HEIGHT <= fuel)%nat ->
  exists g1,
    Game.clearLines fuel g = Some (Ret tt g1)
    /\ Game.clearLines fuel g1 = Some (Ret tt g1)
    /\ forallb (fun row => negb (row_full row)) g1 = true
    /\ (wf_grid g = true -> wf_grid g1 = true).
Proof.
  intros Hlen Hfuel. exists (cleared g).
  split; [by apply clearLines_run|]. split.
  - rewrite clearLines_run; [|by rewrite cleared_length|done].
    do 2 f_equal. unfold cleared at 1. cbv zeta.
    rewrite (filter_all _ _ (cleared_no_full g)).
    by rewrite Nat.sub_diag.
  - split; [apply cleared_no_full|apply cleared_wf].
Qed.

Lemma clearLines_idempotent_witness :
  length two_full_rows = GRID_HEIGHT
  /\ (GRID_HEIGHT <= GRID_HEIGHT)%nat
  /\ exists g1,
       Game.clearLines GRID_HEIGHT two_full_rows = Some (Ret tt g1)
       /\ Game.clearLines GRID_HEIGHT g1 = Some (Ret tt g1).
Proof.
  split; [reflexivity|]. split; [apply Nat.le_refl|].
  destruct (clearLines_idempotent GRID_HEIGHT two_full_rows eq_refl
              (Nat.le_refl _)) as (g1 & H1 & H2 & _).
  exists g1. split; [exact H1|exact H2].
Defined.

(** ** The session invariant *)

Lemma piece_ok_iff (p : Piece.t) :
  piece_ok p = true <->
  integral_blocks p = true
  /\ integral_point (Piece.position p) = true
  /\ integral (Point.x (Piece.centroid p) - Point.y (Piece.centroid p)) = true
  /\ integral (Point.y (Piece.centroid p) * 2) = true
  /\ valid_piece p = true
  /\ columns_on_grid p = true
  /\ rows_above_floor p = true.
Proof. unfold piece_ok. rewrite !andb_true_iff. tauto. Qed.

(** A piece that fits somewhere lies, there, within the columns of the
    grid and above its floor. *)
Lemma fits_bounds (p : Piece.t) (g : Grid) (x y : Q) :
  fits_spec p g x y ->
  columns_on_grid (Piece.set_position (Point.mk x y) p) = true
  /\ rows_above_floor (Piece.set_position (Point.mk x y) p) = true.
Proof.
  unfold fits_spec, columns_on_grid, rows_above_floor.
  cbn [Piece.blocks Piece.position Piece.set_position Point.x Point.y].
  intros H. rewrite Forall_forall in H.
  split; apply forallb_forall; intros b Hb; apply list_elem_of_In in Hb;
    destruct (H b Hb) as (H0 & H1 & H2 & _); cbv zeta.
  - apply andb_true_iff. split; [by apply Qle_bool_iff|by apply Qltb_lt].
  - by apply Qltb_lt.
Qed.

Lemma piece_ok_moved (p : Piece.t) (g : Grid) (x y : Q) :
  piece_ok p = true ->
  integral x = true -> integral y = true ->
  fits_spec p g x y ->
  piece_ok (Piece.set_position (Point.mk x y) p) = true.
Proof.
  rewrite !piece_ok_iff. intros (Hb & _ & Hd & Ht & Hi & _ & _) Hx Hy Hfit.
  destruct (fits_bounds p g x y Hfit) as [Hc Hr].
  repeat split; try done. unfold integral_point. cbn. by rewrite Hx, Hy.
Qed.

Lemma not_above_rows_on_grid (p : Piece.t) :
  above_grid p = false -> rows_above_floor p = true -> rows_on_grid p = true.
Proof.
  unfold above_grid, rows_above_floor, rows_on_grid.
  intros Ha Hr. rewrite forallb_forall in Hr. apply forallb_forall.
  intros b Hb. cbv zeta. rewrite (Hr b Hb), andb_true_r.
  destruct (Qle_bool 0 _) eqn:E; [done|].
  assert (existsb (fun b => Qltb (Point.y b + Point.y (Piece.position p)) 0)
            (Piece.blocks p) = true); [|congruence].
  apply existsb_exists. exists b. split; [done|].
  unfold Qltb. by rewrite E.
Qed.

(** The step of the timer with a piece active. *)
Lemma tick_active (fuel : nat) (g : Game.t) (p : Piece.t) :
  session_ok g -> (GRID_HEIGHT <= fuel)%nat ->
  Game.currentPiece g = Some p ->
  exists o,
    Game.movePieceDown fuel g = Some o
    /\ match o with
       | Ret _ g' => session_ok g'
       | Throw e _ => e = TypeError /\ above_grid p = true
       end.
Proof.
  intros (Hwf & Hbag & Hpiece) Hfuel Hcur. rewrite Hcur in Hpiece.
  pose proof Hwf as Hwf'. apply wf_grid_iff in Hwf' as [Hlen _].
  pose proof Hpiece as Hp. apply piece_ok_iff in Hp.
  destruct Hp as (Hb & Hpos & Hd & Ht & Hi & Hcols & Hrows).
  pose proof Hpos as Hpos'. unfold integral_point in Hpos'.
  apply andb_true_iff in Hpos' as [Hpx Hpy].
  assert (Hy1 : integral (Point.y (Piece.position p) + 1) = true)
    by (by apply integral_plus).
  destruct (fitsAt_loop_spec (Piece.blocks p) (Point.x (Piece.position p))
              (Point.y (Piece.position p) + 1) (Piece.Store p (Game.grid g))
              Hlen Hb Hy1) as (b & Hf & Hiff).
  assert (Hf' : Piece.fitsAt (Point.x (Piece.position p))
                  (Point.y (Piece.position p) + 1)
                  (Piece.Store p (Game.grid g))
                = Ret b (Piece.Store p (Game.grid g))) by exact Hf.
  rewrite (movePieceDown_active fuel g p Hcur), moveDown_unfold. cbv zeta.
  cbn [Piece.this Piece.position]. rewrite Hf'. destruct b.
  - (* the piece falls by one row, then the lines are cleared *)
    cbn [Piece.on_this Piece.this Piece.grid].
    rewrite (clearLines_run fuel _ Hlen Hfuel).
    eexists. split; [reflexivity|]. cbn.
    split; [by apply cleared_wf|]. split; [exact Hbag|].
    eapply piece_ok_moved; [exact Hpiece|exact Hpx|exact Hy1|].
    by apply Hiff.
  - destruct (above_grid p) eqn:Habove.
    + (* a block is above the grid: the commit throws *)
      destruct (place_loop_throws (Piece.blocks p)
                  (Piece.Store p (Game.grid g)) (above_grid_Exists p Habove))
        as [g1 Hthrow].
      assert (Hplace : Piece.place (Piece.Store p (Game.grid g))
                       = Throw TypeError (Piece.Store p g1)) by exact Hthrow.
      rewrite Hplace. eexists. split; [reflexivity|]. by split.
    + (* the piece locks *)
      pose proof (not_above_rows_on_grid p Habove Hrows) as Hon.
      destruct (place_loop_ok (Piece.blocks p) (Piece.Store p (Game.grid g))
                  Hlen (rows_on_grid_Forall p Hon Hb Hpy))
        as (g1 & Hrun & _).
      cbn [Piece.this Piece.grid] in Hrun.
      assert (Hplace : Piece.place (Piece.Store p (Game.grid g))
                       = Ret tt (Piece.Store p g1)) by exact Hrun.
      rewrite Hplace. eexists. split; [reflexivity|]. cbn.
      split; [|by split].
      exact (place_loop_wf (Piece.blocks p) (Piece.Store p (Game.grid g))
               (Piece.Store p g1) Hwf
               (columns_on_grid_Forall p Hcols Hb Hpx) Hrun).
Qed.

Lemma catalog_spawns_ok :
  forallb (fun k =>
    valid_piece k && piece_ok (Piece.set_position (spawnPosition k) k))
    PIECES = true.
Proof. by vm_compute. Qed.

Lemma spawn_run (g : Game.t) :
  Game.currentPiece g = None ->
  bag_ok (Bag.Store (Game.bag g) (Game.entropy g)) ->
  exists k b' e',
    In k PIECES
    /\ Game.spawn g
       = Ret tt (Game.mk (Game.grid g)
                   (Some (Piece.set_position (spawnPosition k) k)) b' e')
    /\ bag_ok (Bag.Store b' e').
Proof.
  intros Hcur Hok.
  destruct (next_ok _ Hok) as (k & [b' e'] & Hnext & Hcell & Hok' & _).
  cbv zeta in Hcell. cbn [Bag.this] in Hcell.
  assert (Hin : In k PIECES).
  { destruct Hok as (Hperm & _).
    assert (Some k ∈ map Some PIECES) as Hk.
    { rewrite <- Hperm. by eapply list_elem_of_lookup_2. }
    apply list_elem_of_fmap in Hk as (k' & [= ->] & Hk).
    by apply list_elem_of_In. }
  pose proof catalog_spawns_ok as Hcat. rewrite forallb_forall in Hcat.
  specialize (Hcat k Hin). apply andb_true_iff in Hcat as [Hvalid _].
  exists k, b', e'. split; [exact Hin|]. split; [|exact Hok'].
  unfold Game.spawn. unfold bind at 1. cbn [get]. rewrite Hcur.
  unfold bind at 1. cbn [assert ret]. unfold bind at 1.
  unfold Game.call_bag, zoom. rewrite Hnext.
  cbn [Bag.this Bag.entropy]. unfold bind at 1.
  rewrite (clone_of_valid k _ Hvalid). reflexivity.
Qed.

(** X11: the step of the timer keeps a session in order.  In a session
    with a well-formed grid, the bag in order and the active piece, if
    any, in order, [movePieceDown()] either returns with all of this
    still true, or throws a TypeError, which happens only when the active
    piece cannot fall and has a block above the grid: the top-out that
    stops the timer. *)
Theorem tick_keeps_session (fuel : nat) (g : Game.t) :
  session_ok g -> (GRID_HEIGHT <= fuel)%nat ->
  exists o,
    Game.movePieceDown fuel g = Some o
    /\ match o with
       | Ret _ g' => session_ok g'
       | Throw e _ =>
           e = TypeError
           /\ exists p, Game.currentPiece g = Some p /\ above_grid p = true
       end.
Proof.
  intros Hok Hfuel. destruct (Game.currentPiece g) as [p|] eqn:Hcur.
  - destruct (tick_active fuel g p Hok Hfuel Hcur) as (o & Hrun & Ho).
    exists o. split; [exact Hrun|]. destruct o as [? g'|e g']; [exact Ho|].
    destruct Ho as [-> Ha]. split; [done|]. by exists p.
  - destruct Hok as (Hwf & Hbag & _).
    destruct (spawn_run g Hcur Hbag) as (k & b' & e' & Hin & Hrun & Hbag').
    unfold Game.movePieceDown. rewrite Hcur, Hrun.
    eexists. split; [reflexivity|]. cbn.
    split; [exact Hwf|]. split; [exact Hbag'|].
    pose proof catalog_spawns_ok as Hcat. rewrite forallb_forall in Hcat.
    specialize (Hcat k Hin). by apply andb_true_iff in Hcat as [_ ?].
Qed.

(** The first step of a fresh session whose [Math.random()] returns 0. *)
Lemma tick_keeps_session_witness :
  exists b e,
    Bag.new (fun _ => 0%Q) = Ret b e
    /\ session_ok (Game.mk emptyGrid None b e)
    /\ (GRID_HEIGHT <= GRID_HEIGHT)%nat
    /\ exists o,
         Game.movePieceDown GRID_HEIGHT (Game.mk emptyGrid None b e) = Some o.
Proof.
  assert (H : unit_interval (fun _ => 0%Q))
    by (intros k; split; [apply Qle_refl|reflexivity]).
  destruct (Bag_new_ok _ H) as (b & e & Hnew & Hok & _).
  assert (Hs : session_ok (Game.mk emptyGrid None b e)).
  { split; [reflexivity|]. split; [exact Hok|exact I]. }
  exists b, e. split; [exact Hnew|]. split; [exact Hs|].
  split; [apply Nat.le_refl|].
  destruct (tick_keeps_session GRID_HEIGHT _ Hs (Nat.le_refl _))
    as (o & Hrun & _).
  exists o. exact Hrun.
Defined.

(** ** The keyboard handler keeps the session in order *)

Lemma piece_ok_at (p : Piece.t) (g : Grid) (x y : Q) :
  integral_blocks p = true ->
  integral (Point.x (Piece.centroid p) - Point.y (Piece.centroid p)) = true ->
  integral (Point.y (Piece.centroid p) * 2) = true ->
  valid_piece p = true ->
  integral x = true -> integral y = true ->
  fits_spec p g x y ->
  piece_ok (Piece.set_position (Point.mk x y) p) = true.
Proof.
  intros Hb Hd Ht Hv Hx Hy Hfit. apply piece_ok_iff.
  destruct (fits_bounds p g x y Hfit) as [Hc Hr].
  repeat split; try done. unfold integral_point. cbn. by rewrite Hx, Hy.
Qed.

Lemma bounds_same_blocks (bs bs' : list Point.t) (p : Piece.t) :
  Forall2 Point.same bs bs' ->
  columns_on_grid (Piece.set_blocks bs' p)
  = columns_on_grid (Piece.set_blocks bs p)
  /\ rows_above_floor (Piece.set_blocks bs' p)
     = rows_above_floor (Piece.set_blocks bs p).
Proof.
  unfold columns_on_grid, rows_above_floor.
  cbn [Piece.blocks Piece.position Piece.set_blocks].
  induction 1 as [|b b' bs bs' [Hx Hy] _ [IHc IHr]]; [done|].
  cbn [forallb]. rewrite IHc, IHr. cbv zeta.
  assert (Ex : (Point.x b + Point.x (Piece.position p)
                == Point.x b' + Point.x (Piece.position p))%Q)
    by (by rewrite Hx).
  assert (Ey : (Point.y b + Point.y (Piece.position p)
                == Point.y b' + Point.y (Piece.position p))%Q)
    by (by rewrite Hy).
  rewrite (Qleb_comp 0%Q 0%Q (Qeq_refl 0%Q) _ _ Ex).
  rewrite (Qltb_proper _ _ _ _ Ex (Qeq_refl _)).
  by rewrite (Qltb_proper _ _ _ _ Ey (Qeq_refl _)).
Qed.

(** [moveDown()] on a piece in order. *)
Lemma moveDown_ok (p : Piece.t) (g : Grid) :
  wf_grid g = true -> piece_ok p = true ->
  match Piece.moveDown (Piece.Store p g) with
  | Ret _ (Piece.Store p' g') => wf_grid g' = true /\ piece_ok p' = true
  | Throw e _ => e = TypeError
  end.
Proof.
  intros Hwf Hpiece.
  pose proof Hwf as Hwf'. apply wf_grid_iff in Hwf' as [Hlen _].
  pose proof Hpiece as Hp. apply piece_ok_iff in Hp.
  destruct Hp as (Hb & Hpos & Hd & Ht & Hv & Hcols & Hrows).
  pose proof Hpos as Hpos'. unfold integral_point in Hpos'.
  apply andb_true_iff in Hpos' as [Hpx Hpy].
  assert (Hy1 : integral (Point.y (Piece.position p) + 1) = true)
    by (by apply integral_plus).
  destruct (fitsAt_loop_spec (Piece.blocks p) (Point.x (Piece.position p))
              (Point.y (Piece.position p) + 1) (Piece.Store p g)
              Hlen Hb Hy1) as (b & Hf & Hiff).
  assert (Hf' : Piece.fitsAt (Point.x (Piece.position p))
                  (Point.y (Piece.position p) + 1) (Piece.Store p g)
                = Ret b (Piece.Store p g)) by exact Hf.
  rewrite moveDown_unfold. cbv zeta.
  cbn [Piece.this Piece.position]. rewrite Hf'. destruct b.
  - cbn. split; [exact Hwf|].
    eapply piece_ok_moved; [exact Hpiece|exact Hpx|exact Hy1|by apply Hiff].
  - destruct (above_grid p) eqn:Habove.
    + destruct (place_loop_throws (Piece.blocks p) (Piece.Store p g)
                  (above_grid_Exists p Habove)) as [g1 Hthrow].
      assert (Hplace : Piece.place (Piece.Store p g)
                       = Throw TypeError (Piece.Store p g1)) by exact Hthrow.
      by rewrite Hplace.
    + pose proof (not_above_rows_on_grid p Habove Hrows) as Hon.
      destruct (place_loop_ok (Piece.blocks p) (Piece.Store p g)
                  Hlen (rows_on_grid_Forall p Hon Hb Hpy))
        as (g1 & Hrun & _).
      cbn [Piece.this Piece.grid] in Hrun.
      assert (Hplace : Piece.place (Piece.Store p g)
                       = Ret tt (Piece.Store p g1)) by exact Hrun.
      rewrite Hplace. split; [|exact Hpiece].
      exact (place_loop_wf (Piece.blocks p) (Piece.Store p g)
               (Piece.Store p g1) Hwf
               (columns_on_grid_Forall p Hcols Hb Hpx) Hrun).
Qed.

(** [moveHoriz(dx)] with an integer [dx] on a piece in order. *)
Lemma moveHoriz_ok (dx : Q) (p : Piece.t) (g : Grid) :
  wf_grid g = true -> piece_ok p = true ->
  isInt dx = true ->
  exists b p',
    Piece.moveHoriz dx (Piece.Store p g) = Ret b (Piece.Store p' g)
    /\ piece_ok p' = true.
Proof.
  intros Hwf Hpiece Hdx.
  pose proof Hwf as Hwf'. apply wf_grid_iff in Hwf' as [Hlen _].
  pose proof Hpiece as Hp. apply piece_ok_iff in Hp.
  destruct Hp as (Hb & Hpos & Hd & Ht & Hv & Hcols & Hrows).
  pose proof Hpos as Hpos'. unfold integral_point in Hpos'.
  apply andb_true_iff in Hpos' as [Hpx Hpy].
  assert (Hidx : integral dx = true).
  { apply integral_iff. unfold isInt in Hdx. apply Qeq_bool_iff in Hdx. eauto. }
  destruct (fitsAt_loop_spec (Piece.blocks p)
              (Point.x (Piece.position p) + dx) (Point.y (Piece.position p))
              (Piece.Store p g) Hlen Hb Hpy) as (b & Hf & Hiff).
  assert (Hf' : Piece.fitsAt (Point.x (Piece.position p) + dx)
                  (Point.y (Piece.position p)) (Piece.Store p g)
                = Ret b (Piece.Store p g)) by exact Hf.
  rewrite moveHoriz_unfold, Hdx. cbv zeta.
  cbn [Piece.this Piece.position]. rewrite Hf'. destruct b.
  - eexists _, _. split; [reflexivity|].
    eapply piece_ok_moved; [exact Hpiece|by apply integral_plus|exact Hpy|].
    by apply Hiff.
  - by exists false, p.
Qed.

(** [kickRotate(ccw)] on a piece in order. *)
Lemma kickRotate_ok (ccw : bool) (p : Piece.t) (g : Grid) :
  wf_grid g = true -> piece_ok p = true ->
  exists b p',
    Piece.kickRotate ccw (Piece.Store p g) = Ret b (Piece.Store p' g)
    /\ piece_ok p' = true.
Proof.
  intros Hwf Hpiece.
  pose proof Hwf as Hwf'. apply wf_grid_iff in Hwf' as [Hlen _].
  pose proof Hpiece as Hp. apply piece_ok_iff in Hp.
  destruct Hp as (Hb & Hpos & Hd & Ht & Hv & Hcols & Hrows).
  pose proof Hpos as Hpos'. unfold integral_point in Hpos'.
  apply andb_true_iff in Hpos' as [Hpx Hpy].
  set (s := Piece.Store (turned ccw p) g).
  assert (Hbt : integral_blocks (turned ccw p) = true)
    by (by apply rotate_integral_blocks).
  assert (Hspec : forall d, In d KICK_DELTAS ->
            integral_point d = true
            /\ exists b,
                 Piece.fitsAt (Point.x (Piece.position p) + Point.x d)
                   (Point.y (Piece.position p) + Point.y d) s = Ret b s
                 /\ (b = true ->
                     fits_spec (turned ccw p) g
                       (Point.x (Piece.position p) + Point.x d)
                       (Point.y (Piece.position p) + Point.y d))).
  { intros d Hin.
    pose proof KICK_DELTAS_integral as Hk. rewrite forallb_forall in Hk.
    specialize (Hk d Hin). split; [exact Hk|].
    apply andb_true_iff in Hk as [_ Hdy].
    destruct (fitsAt_loop_spec (Piece.blocks (turned ccw p))
                (Point.x (Piece.position p) + Point.x d)
                (Point.y (Piece.position p) + Point.y d) s Hlen Hbt)
      as (b & Hrun & Hiff); [by apply integral_plus|].
    exists b. split; [exact Hrun|]. intros ->. by apply Hiff. }
  assert (Htot : Forall (fun d => exists b,
            Piece.fitsAt (Point.x (Piece.position (Piece.this s)) + Point.x d)
              (Point.y (Piece.position (Piece.this s)) + Point.y d) s
            = Ret b s) KICK_DELTAS).
  { apply Forall_forall. intros d Hin. apply list_elem_of_In in Hin.
    destruct (Hspec d Hin) as (_ & b & Hrun & _). by exists b. }
  assert (Hs : Piece.on_this (fun q =>
                 Piece.set_blocks
                   (map (Point.rotate ccw (Piece.centroid q)) (Piece.blocks q))
                   q) (Piece.Store p g) = s) by reflexivity.
  rewrite kickRotate_unfold. cbv beta zeta. rewrite Hs.
  destruct (kick_loop_search KICK_DELTAS s Htot)
    as [(l1 & d & l2 & Hsplit & _ & Hfit & Hrun)|[_ Hrun]]; rewrite Hrun.
  - exists true, (kicked d (turned ccw p)). split; [reflexivity|].
    assert (Hin : In d KICK_DELTAS).
    { rewrite Hsplit. apply in_or_app. right. by left. }
    destruct (Hspec d Hin) as (Hdi & b & Hrun' & Hfits).
    unfold s in Hfit, Hrun'.
    cbn [Piece.this Piece.position turned Piece.set_blocks] in Hfit, Hrun'.
    rewrite Hrun' in Hfit. injection Hfit as ->.
    unfold integral_point in Hdi. apply andb_true_iff in Hdi as [Hdx Hdy].
    apply (piece_ok_at (turned ccw p) g);
      [exact Hbt|exact Hd|exact Ht| |by apply integral_plus|
       by apply integral_plus|by apply Hfits].
    rewrite <- Hv. apply valid_same_kind.
    unfold same_kind. cbn. by rewrite length_map.
  - exists false, (turned (negb ccw) (turned ccw p)).
    split; [reflexivity|]. apply piece_ok_iff.
    destruct (bounds_same_blocks (Piece.blocks p)
                (map (Point.rotate (negb ccw) (Piece.centroid p))
                   (map (Point.rotate ccw (Piece.centroid p)) (Piece.blocks p)))
                p (same_blocks_back ccw (Piece.centroid p) (Piece.blocks p)))
      as [Hc' Hr'].
    split; [|split; [exact Hpos|split; [exact Hd|split; [exact Ht|split;
      [|split]]]]].
    + by apply rotate_integral_blocks, rotate_integral_blocks.
    + rewrite <- Hv. apply valid_same_kind.
      unfold same_kind. cbn. by rewrite !length_map.
    + etransitivity; [exact Hc'|exact Hcols].
    + etransitivity; [exact Hr'|exact Hrows].
Qed.

(** The hard drop from a piece in order. *)
Lemma hardDrop_ok (g : Grid) (b0 : Point.t) (f : nat) (p : Piece.t) :
  wf_grid g = true -> piece_ok p = true ->
  head (Piece.blocks p) = Some b0 ->
  (inject_Z (Z.of_nat GRID_HEIGHT) - (Point.y b0 + Point.y (Piece.position p))
   < inject_Z (Z.of_nat (S f)))%Q ->
  exists o,
    hardDrop (S f) (Piece.Store p g) = Some o
    /\ match o with
       | Ret _ (Piece.Store p' g') => wf_grid g' = true /\ piece_ok p' = true
       | Throw e _ => e = TypeError
       end.
Proof.
  intros Hwf. pose proof Hwf as Hwf'. apply wf_grid_iff in Hwf' as [Hlen _].
  revert p. induction f as [|f IH]; intros p Hpiece Hhead Hbound.
  all: pose proof Hpiece as Hp; apply piece_ok_iff in Hp;
       destruct Hp as (Hb & Hpos & _);
       unfold integral_point in Hpos;
       apply andb_true_iff in Hpos as [Hpx Hpy].
  all: assert (Hy1 : integral (Point.y (Piece.position p) + 1) = true)
         by (by apply integral_plus).
  all: destruct (fitsAt_loop_spec (Piece.blocks p) (Point.x (Piece.position p))
              (Point.y (Piece.position p) + 1) (Piece.Store p g)
              Hlen Hb Hy1) as (b & Hf & Hiff).
  all: assert (Hf' : Piece.fitsAt (Point.x (Piece.position p))
                  (Point.y (Piece.position p) + 1) (Piece.Store p g)
                = Ret b (Piece.Store p g)) by exact Hf.
  all: pose proof (moveDown_ok p g Hwf Hpiece) as Hmd.
  all: cbn [hardDrop]; rewrite moveDown_unfold in Hmd |- *;
       cbv zeta in Hmd |- *; cbn [Piece.this Piece.position] in Hmd |- *;
       rewrite Hf' in Hmd |- *.
  - assert (b = false) as ->.
    { destruct b; [|done]. exfalso.
      assert (Hall := proj1 Hiff eq_refl).
      destruct (Piece.blocks p) as [|b0' bs]; [done|].
      injection Hhead as ->.
      apply Forall_cons_1 in Hall as [(_ & _ & Hlt & _) _].
      change (inject_Z (Z.of_nat 1)) with 1%Q in Hbound. lra. }
    destruct (Piece.place (Piece.Store p g)) as [[] [p' g']|e s'];
      eexists; (split; [reflexivity|exact Hmd]).
  - destruct b.
    + cbn [Piece.on_this Piece.this Piece.grid] in Hmd |- *.
      destruct Hmd as [_ Hpiece'].
      apply (IH _ Hpiece'); [exact Hhead|].
      cbn. rewrite Nat2Z.inj_succ, <- Z.add_1_r, inject_Z_plus in Hbound.
      change (inject_Z 1) with 1%Q in Hbound. lra.
    + destruct (Piece.place (Piece.Store p g)) as [[] [p' g']|e s'];
        eexists; (split; [reflexivity|exact Hmd]).
Qed.

(** X12: every key keeps a session in order.  In a session that is in
    order, with the bound on the hard drop's loop above the distance from
    the active piece's first block to the floor, the [keydown] handler
    returns, for any value of [ev.code], with the session still in order
    and the bag untouched, or throws a TypeError (a soft or hard drop that
    has to lock a piece with a block above the grid).  With no piece
    active it does nothing. *)
Theorem keydown_keeps_session (fuel : nat) (code : string) (g : Game.t) :
  session_ok g ->
  (0 < fuel)%nat ->
  (forall p b0,
      Game.currentPiece g = Some p -> head (Piece.blocks p) = Some b0 ->
      (inject_Z (Z.of_nat GRID_HEIGHT)
       - (Point.y b0 + Point.y (Piece.position p))
       < inject_Z (Z.of_nat fuel))%Q) ->
  exists o,
    keydown fuel code g = Some o
    /\ match o with
       | Ret _ g' =>
           session_ok g'
           /\ Game.bag g' = Game.bag g
           /\ Game.entropy g' = Game.entropy g
           /\ (Game.currentPiece g = None -> g' = g)
       | Throw e _ => e = TypeError
       end.
Proof.
  intros Hok Hfuel Hbound. unfold keydown.
  destruct (Game.currentPiece g) as [p|] eqn:Hcur;
    [|eexists; split; [reflexivity|]; split; [exact Hok|by repeat split]].
  pose proof Hok as (Hwf & Hbag & Hpiece). rewrite Hcur in Hpiece.
  assert (Hkeep : forall p' g',
            wf_grid g' = true -> piece_ok p' = true ->
            session_ok (Game.mk g' (Some p') (Game.bag g) (Game.entropy g))).
  { intros p' g' Hwf' Hp'. split; [exact Hwf'|split; [exact Hbag|exact Hp']]. }
  destruct (String.eqb code "ArrowLeft").
  { destruct (moveHoriz_ok (-1) p (Game.grid g) Hwf Hpiece eq_refl)
      as (b & p' & Hrun & Hp').
    unfold Game.call_current, zoom. rewrite Hrun.
    eexists. split; [reflexivity|]. cbn.
    split; [by apply Hkeep|by repeat split]. }
  destruct (String.eqb code "ArrowRight").
  { destruct (moveHoriz_ok 1 p (Game.grid g) Hwf Hpiece eq_refl)
      as (b & p' & Hrun & Hp').
    unfold Game.call_current, zoom. rewrite Hrun.
    eexists. split; [reflexivity|]. cbn.
    split; [by apply Hkeep|by repeat split]. }
  destruct (String.eqb code "ArrowDown").
  { pose proof (moveDown_ok p (Game.grid g) Hwf Hpiece) as Hmd.
    unfold Game.call_current, zoom.
    destruct (Piece.moveDown _) as [b [p' g']|e s'];
      (eexists; split; [reflexivity|]); cbn; [|exact Hmd].
    destruct Hmd as [Hwf' Hp']. split; [by apply Hkeep|by repeat split]. }
  destruct (String.eqb code "ArrowUp").
  { destruct fuel as [|f]; [lia|].
    assert (exists b0, head (Piece.blocks p) = Some b0) as [b0 Hhead].
    { apply piece_ok_iff in Hpiece as (_ & _ & _ & _ & Hv & _).
      unfold valid_piece in Hv. rewrite !andb_true_iff in Hv.
      destruct Hv as [[[Hl _] _] _]. apply Nat.eqb_eq in Hl.
      destruct (Piece.blocks p) as [|b0 bs]; [done|by exists b0]. }
    destruct (hardDrop_ok (Game.grid g) b0 f p Hwf Hpiece Hhead
                (Hbound p b0 eq_refl Hhead)) as (o & Hrun & Ho).
    rewrite Hrun. destruct o as [[] [p' g']|e s'];
      (eexists; split; [reflexivity|]); cbn; [|exact Ho].
    destruct Ho as [Hwf' Hp']. split; [by apply Hkeep|by repeat split]. }
  destruct (String.eqb code "KeyZ").
  { destruct (kickRotate_ok true p (Game.grid g) Hwf Hpiece)
      as (b & p' & Hrun & Hp').
    unfold Game.call_current, zoom. rewrite Hrun.
    eexists. split; [reflexivity|]. cbn.
    split; [by apply Hkeep|by repeat split]. }
  destruct (String.eqb code "KeyX").
  { destruct (kickRotate_ok false p (Game.grid g) Hwf Hpiece)
      as (b & p' & Hrun & Hp').
    unfold Game.call_current, zoom. rewrite Hrun.
    eexists. split; [reflexivity|]. cbn.
    split; [by apply Hkeep|by repeat split]. }
  eexists. split; [reflexivity|]. split; [exact Hok|by repeat split].
Qed.

(** The O piece as spawned over the empty grid, hard-dropped. *)
Lemma keydown_keeps_session_witness :
  exists b e,
    Bag.new (fun _ => 0%Q) = Ret b e
    /\ session_ok (Game.mk emptyGrid (Some O_spawned) b e)
    /\ exists o,
         keydown 30 "ArrowUp" (Game.mk emptyGrid (Some O_spawned) b e)
         = Some o.
Proof.
  assert (H : unit_interval (fun _ => 0%Q))
    by (intros k; split; [apply Qle_refl|reflexivity]).
  destruct (Bag_new_ok _ H) as (b & e & Hnew & Hok & _).
  assert (Hs : session_ok (Game.mk emptyGrid (Some O_spawned) b e)).
  { split; [reflexivity|]. split; [exact Hok|reflexivity]. }
  exists b, e. split; [exact Hnew|]. split; [exact Hs|].
  destruct (keydown_keeps_session 30 "ArrowUp" _ Hs ltac:(lia))
    as (o & Hrun & _).
  - intros p b0 [= <-] [= <-]. reflexivity.
  - exists o. exact Hrun.
Defined.

(** ** A lock from the keyboard and the next tick *)

(** X13: how a lock made from the keyboard is finished.  When the soft
    drop ([ArrowDown]) locks the active piece, the handler leaves it in
    [currentPiece]; the next step of the timer then locks it a second
    time, which writes nothing new, and empties [currentPiece]: after the
    two the grid is exactly as the soft drop left it, and no line has
    been cleared. *)
Theorem soft_drop_then_tick (fuel : nat) (g : Game.t) (p : Piece.t) (g' : Grid) :
  session_ok g ->
  Game.currentPiece g = Some p ->
  Piece.moveDown (Piece.Store p (Game.grid g)) = Ret true (Piece.Store p g') ->
  let g1 := Game.mk g' (Some p) (Game.bag g) (Game.entropy g) in
  keydown fuel "ArrowDown" g = Some (Ret tt g1)
  /\ Game.movePieceDown fuel g1
     = Some (Ret tt (Game.mk g' None (Game.bag g) (Game.entropy g))).
Proof.
  intros (Hwf & Hbag & Hpiece) Hcur Hlock. rewrite Hcur in Hpiece. cbv zeta.
  pose proof Hwf as Hwf'. apply wf_grid_iff in Hwf' as [Hlen _].
  pose proof Hpiece as Hp. apply piece_ok_iff in Hp.
  destruct Hp as (Hb & Hpos & _ & _ & Hv & Hcols & Hrows).
  split.
  - unfold keydown. rewrite Hcur. cbn [String.eqb Ascii.eqb Bool.eqb].
    unfold Game.call_current, zoom. by rewrite Hlock.
  - assert (Hon : rows_on_grid p = true).
    { apply not_above_rows_on_grid; [|exact Hrows].
      destruct (above_grid p) eqn:Habove; [|done]. exfalso.
      destruct (place_loop_throws (Piece.blocks p)
                  (Piece.Store p (Game.grid g)) (above_grid_Exists p Habove))
        as [g2 Hthrow].
      assert (Hplace : Piece.place (Piece.Store p (Game.grid g))
                       = Throw TypeError (Piece.Store p g2)) by exact Hthrow.
      rewrite moveDown_unfold in Hlock. cbv zeta in Hlock.
      cbn [Piece.this Piece.position] in Hlock.
      destruct (fitsAt_pure (Point.x (Piece.position p))
                  (Point.y (Piece.position p) + 1)
                  (Piece.Store p (Game.grid g))) as [[b Hb']|Hb'];
        rewrite Hb' in Hlock; [|done].
      destruct b; [done|]. by rewrite Hplace in Hlock. }
    assert (Hidx : Qltb 0 (Piece.index p) = true).
    { unfold valid_piece in Hv. rewrite !andb_true_iff in Hv. tauto. }
    pose proof (relock_run p (Game.grid g) g' Hlen Hb Hpos Hon Hcols Hidx Hlock)
      as Hagain.
    rewrite (movePieceDown_active fuel
               (Game.mk g' (Some p) (Game.bag g) (Game.entropy g)) p eq_refl).
    cbn [Game.grid Game.bag Game.entropy]. by rewrite Hagain.
Qed.

(** The O piece on the floor of the empty grid. *)
Lemma soft_drop_then_tick_witness :
  exists b e g',
    Bag.new (fun _ => 0%Q) = Ret b e
    /\ session_ok (Game.mk emptyGrid (Some O_floor) b e)
    /\ Piece.moveDown (Piece.Store O_floor emptyGrid)
       = Ret true (Piece.Store O_floor g')
    /\ Game.movePieceDown GRID_HEIGHT (Game.mk g' (Some O_floor) b e)
       = Some (Ret tt (Game.mk g' None b e)).
Proof.
  assert (H : unit_interval (fun _ => 0%Q))
    by (intros k; split; [apply Qle_refl|reflexivity]).
  destruct (Bag_new_ok _ H) as (b & e & Hnew & Hok & _).
  assert (Hs : session_ok (Game.mk emptyGrid (Some O_floor) b e)).
  { split; [reflexivity|]. split; [exact Hok|reflexivity]. }
  exists b, e, (Piece.grid (final (Piece.moveDown (Piece.Store O_floor emptyGrid)))).
  split; [exact Hnew|]. split; [exact Hs|]. split; [reflexivity|].
  exact (proj2 (soft_drop_then_tick GRID_HEIGHT _ O_floor _ Hs eq_refl eq_refl)).
Defined.

(** ** Parsing a template *)

Lemma template_cell_code (i : nat) :
  (i < 16)%nat ->
  Point.mk (inject_Z (Z.of_nat i mod Z.of_nat NUM_BLOCKS))
    (inject_Z (toInt32 (inject_Z (Z.of_nat i) / inject_Z (Z.of_nat NUM_BLOCKS))))
  = template_cell i.
Proof. intros H. do 16 (destruct i as [|i]; [reflexivity|]). lia. Qed.

Lemma scan_foldl (str : string) (l : list nat) (st : scan) :
  Forall (fun i => (i < 16)%nat) l ->
  let st' := foldl (scan_step str) st l in
  let cs := List.filter (marks_centroid str) l in
  scan_blocks st'
  = scan_blocks st ++ map template_cell (List.filter (marks_block str) l)
  /\ (scan_cx st'
      == scan_cx st + Qsum (map (fun i => Point.x (template_cell i)) cs))%Q
  /\ (scan_cy st'
      == scan_cy st + Qsum (map (fun i => Point.y (template_cell i)) cs))%Q
  /\ (scan_count st' == scan_count st + inject_Z (Z.of_nat (length cs)))%Q.
Proof.
  cbv zeta. revert st. induction l as [|i l IH]; intros st Hl.
  - cbn. rewrite app_nil_r. repeat split; ring.
  - apply Forall_cons_1 in Hl as [Hi Hl]. cbn [foldl].
    destruct (IH (scan_step str st i) Hl) as (Hb & Hx & Hy & Hn).
    rewrite Hb, Hx, Hy, Hn. clear IH Hb Hx Hy Hn.
    pose proof (f_equal Point.x (template_cell_code i Hi)) as Hxc.
    pose proof (f_equal Point.y (template_cell_code i Hi)) as Hyc.
    cbn [Point.x Point.y] in Hxc, Hyc.
    unfold scan_step. rewrite (template_cell_code i Hi), Hxc, Hyc.
    cbn [List.filter]. fold (marks_block str i). fold (marks_centroid str i).
    destruct (marks_block str i), (marks_centroid str i);
      cbn [scan_blocks scan_cx scan_cy scan_count map length Qsum fold_right
           Point.x Point.y];
      fold (Qsum (map (fun i => Point.x (template_cell i))
                    (List.filter (marks_centroid str) l)));
      fold (Qsum (map (fun i => Point.y (template_cell i))
                    (List.filter (marks_centroid str) l)));
      rewrite <- ?app_assoc, ?Nat2Z.inj_succ, <- ?Z.add_1_r, ?inject_Z_plus;
      repeat split; try reflexivity; try ring.
Qed.

Lemma pieceFromString_unfold {S} (str : string) (idx : Q) (s : S) :
  pieceFromString str idx s =
  if (String.length str =? NUM_BLOCKS * NUM_BLOCKS)%nat then
    if (length (scan_blocks (scan_all str)) =? NUM_BLOCKS)%nat then
      if Qltb 0 (scan_count (scan_all str)) then
        Piece.new (scan_blocks (scan_all str))
          (Point.mk (scan_cx (scan_all str) / scan_count (scan_all str))
                    (scan_cy (scan_all str) / scan_count (scan_all str)))
          idx POINT_ZERO s
      else Throw (Assertion "piece string should have at least one centroid") s
    else Throw (Assertion "piece string should have 4 blocks") s
  else Throw (Assertion "piece string should have length 16") s.
Proof.
  unfold pieceFromString, bind, assert, ret, throw.
  destruct (String.length str =? NUM_BLOCKS * NUM_BLOCKS)%nat; [|reflexivity].
  unfold scan_all.
  destruct (length (scan_blocks _) =? NUM_BLOCKS)%nat; [|reflexivity].
  destruct (Qltb 0 (scan_count _)); reflexivity.
Qed.

Lemma scan_all_spec (str : string) :
  let cells := seq 0 (NUM_BLOCKS * NUM_BLOCKS) in
  let cs := List.filter (marks_centroid str) cells in
  scan_blocks (scan_all str)
  = map template_cell (List.filter (marks_block str) cells)
  /\ (scan_cx (scan_all str)
      == Qsum (map (fun i => Point.x (template_cell i)) cs))%Q
  /\ (scan_cy (scan_all str)
      == Qsum (map (fun i => Point.y (template_cell i)) cs))%Q
  /\ (scan_count (scan_all str) == inject_Z (Z.of_nat (length cs)))%Q.
Proof.
  cbv zeta.
  destruct (scan_foldl str (seq 0 (NUM_BLOCKS * NUM_BLOCKS)) (Scan [] 0 0 0))
    as (Hb & Hx & Hy & Hn).
  { apply Forall_forall. intros i Hi. apply list_elem_of_In, in_seq in Hi.
    change (NUM_BLOCKS * NUM_BLOCKS)%nat with 16%nat in Hi. lia. }
  unfold scan_all. split; [exact Hb|].
  split; [by rewrite Hx, Qplus_0_l|].
  split; [by rewrite Hy, Qplus_0_l|by rewrite Hn, Qplus_0_l].
Qed.

(** X14: what [pieceFromString] returns, when it returns.  The store is
    untouched and the string has 16 characters; the blocks are the cells
    marked ['#'] or ['O'], in scan order, four of them, with integer
    coordinates; the centroid is the average of the cells marked ['O'] or
    [':']; the identity is the one passed in and the position is (0, 0);
    and the piece passes the constructor's assertions. *)
Theorem pieceFromString_spec {S} (str : string) (idx : Q) (s s' : S)
    (p : Piece.t) :
  pieceFromString str idx s = Ret p s' ->
  let cells := seq 0 (NUM_BLOCKS * NUM_BLOCKS) in
  let cs := List.filter (marks_centroid str) cells in
  let n := inject_Z (Z.of_nat (length cs)) in
  s' = s
  /\ String.length str = (NUM_BLOCKS * NUM_BLOCKS)%nat
  /\ Piece.blocks p = map template_cell (List.filter (marks_block str) cells)
  /\ length (Piece.blocks p) = NUM_BLOCKS
  /\ integral_blocks p = true
  /\ (Point.x (Piece.centroid p)
      == Qsum (map (fun i => Point.x (template_cell i)) cs) / n)%Q
  /\ (Point.y (Piece.centroid p)
      == Qsum (map (fun i => Point.y (template_cell i)) cs) / n)%Q
  /\ Piece.index p = idx
  /\ Piece.position p = POINT_ZERO
  /\ valid_piece p = true.
Proof.
  cbv zeta. intros Hrun. rewrite pieceFromString_unfold in Hrun.
  destruct (String.length str =? NUM_BLOCKS * NUM_BLOCKS)%nat eqn:Elen;
    [|done].
  destruct (length (scan_blocks (scan_all str)) =? NUM_BLOCKS)%nat eqn:Eblocks;
    [|done].
  destruct (Qltb 0 (scan_count (scan_all str))) eqn:Ecount; [|done].
  destruct (scan_all_spec str) as (Hb & Hx & Hy & Hn).
  assert (Hp : p = Piece.mk (scan_blocks (scan_all str))
                 (Point.mk (scan_cx (scan_all str) / scan_count (scan_all str))
                           (scan_cy (scan_all str) / scan_count (scan_all str)))
                 idx POINT_ZERO
               /\ s' = s /\ valid_piece p = true).
  { revert Hrun. unfold Piece.new, bind, assert, ret, throw.
    rewrite Eblocks.
    destruct (isInt _ && isInt _) eqn:E2; [|done].
    destruct (isInt idx) eqn:E3; [|done].
    destruct (Qltb 0 idx) eqn:E4; [|done].
    intros [= <- <-]. unfold valid_piece.
    cbn [Piece.blocks Piece.centroid Piece.index].
    by rewrite Eblocks, E2, E3, E4. }
  destruct Hp as (-> & -> & Hvalid).
  apply Nat.eqb_eq in Elen, Eblocks.
  cbn [Piece.blocks Piece.centroid Piece.index Piece.position Point.x Point.y].
  split; [done|]. split; [exact Elen|]. split; [exact Hb|].
  split; [exact Eblocks|]. split.
  { unfold integral_blocks. cbn [Piece.blocks]. rewrite Hb.
    apply forallb_forall. intros pt Hin. apply in_map_iff in Hin as (i & <- & _).
    unfold integral_point, template_cell. cbn [Point.x Point.y].
    by rewrite !integral_inject_Z. }
  split; [by rewrite Hx, Hn|]. split; [by rewrite Hy, Hn|].
  split; [done|]. split; [done|exact Hvalid].
Qed.

(** The template of the T piece, given the identity 7. *)
Lemma pieceFromString_spec_witness :
  exists p,
    pieceFromString ("#O# " ++ " #  " ++ "    " ++ "    ")%string 7 tt
    = Ret p tt
    /\ Piece.blocks p
       = [Point.mk 0 0; Point.mk 1 0; Point.mk 2 0; Point.mk 1 1]
    /\ valid_piece p = true.
Proof.
  eexists. split; [by vm_compute|].
  destruct (pieceFromString_spec ("#O# " ++ " #  " ++ "    " ++ "    ")%string
              7 tt tt _ eq_refl) as (_ & _ & Hb & _ & _ & _ & _ & _ & _ & Hv).
  split; [exact Hb|exact Hv].
Defined.

(** ** Drawing *)

Lemma as_index_nat (n : nat) : as_index (inject_Z (Z.of_nat n)) = Some n.
Proof. by apply as_index_Some. Qed.

Lemma screen_ok_iff (scr : Screen) :
  screen_ok scr = true <->
  length scr = GRID_HEIGHT /\ Forall (fun row => length row = GRID_WIDTH) scr.
Proof.
  unfold screen_ok. rewrite andb_true_iff, Nat.eqb_eq, forallb_forall.
  rewrite Forall_forall. split; intros [Hl Hr]; (split; [exact Hl|]).
  - intros row Hin. apply Nat.eqb_eq, Hr. by apply list_elem_of_In.
  - intros row Hin. apply Nat.eqb_eq, Hr. by apply list_elem_of_In.
Qed.

Lemma colour_of_defined (scr : Screen) (r c : nat) :
  screen_ok scr = true -> (r < GRID_HEIGHT)%nat -> (c < GRID_WIDTH)%nat ->
  is_Some (colour_of scr r c).
Proof.
  intros [Hl Hr]%screen_ok_iff Hr' Hc'. unfold colour_of.
  destruct (lookup_lt_is_Some_2 scr r) as [row Hrow]; [lia|].
  rewrite Hrow. cbn. apply lookup_lt_is_Some_2.
  rewrite Forall_forall in Hr.
  rewrite (Hr row); [done|]. by eapply list_elem_of_lookup_2.
Qed.

(** One call of [setColor] on a cell of the page. *)
Lemma setColor_at_run (scr : Screen) (rk ck : Q) (col : option string)
    (i j : nat) :
  screen_ok scr = true ->
  as_index rk = Some i -> as_index ck = Some j ->
  (i < GRID_HEIGHT)%nat -> (j < GRID_WIDTH)%nat ->
  exists scr',
    setColor_at rk ck col scr = Ret tt scr'
    /\ screen_ok scr' = true
    /\ forall r c,
         colour_of scr' r c
         = if (r =? i)%nat && (c =? j)%nat then Some col else colour_of scr r c.
Proof.
  intros Hok Hi Hj Hri Hcj.
  pose proof Hok as [Hl Hr]%screen_ok_iff.
  destruct (lookup_lt_is_Some_2 scr i) as [row Hrow]; [lia|].
  assert (Hlen : length row = GRID_WIDTH).
  { rewrite Forall_forall in Hr. apply Hr. by eapply list_elem_of_lookup_2. }
  exists (<[i := <[j := col]> row]> scr).
  split.
  { unfold setColor_at. rewrite Hi, Hrow, Hj.
    by destruct (Nat.ltb_spec j (length row)); [|lia]. }
  split.
  { apply screen_ok_iff. rewrite length_insert. split; [exact Hl|].
    apply Forall_insert; [exact Hr|]. by rewrite length_insert. }
  intros r c. unfold colour_of.
  destruct (Nat.eqb_spec r i) as [->|Hne]; cbn [andb].
  - rewrite list_lookup_insert_eq by lia. cbn.
    destruct (Nat.eqb_spec c j) as [->|Hne].
    + rewrite list_lookup_insert_eq by lia. done.
    + rewrite list_lookup_insert_ne by done. by rewrite Hrow.
  - by rewrite list_lookup_insert_ne by done.
Qed.

Lemma grid_read_nat (g : Grid) (row : Row) (y x : nat) :
  g !! y = Some row ->
  grid_read g (inject_Z (Z.of_nat y)) (inject_Z (Z.of_nat x))
  = Some (mjoin (row !! x)).
Proof.
  intros Hrow. unfold grid_read, grid_row, JsArray.read.
  by rewrite !as_index_nat, Hrow.
Qed.

Lemma grid_colour_row (g : Grid) (row : Row) (y x : nat) :
  g !! y = Some row -> grid_colour g y x = COLORS_at (mjoin (row !! x)).
Proof. intros Hrow. unfold grid_colour. by rewrite Hrow. Qed.

(** The inner loop of [renderGrid()] paints the cells it visits. *)
Lemma renderGrid_cells_run (g : Grid) (y : nat) (n x0 : nat) (scr : Screen) :
  screen_ok scr = true ->
  (y < length g)%nat -> (y < GRID_HEIGHT)%nat ->
  (x0 + n <= GRID_WIDTH)%nat ->
  exists scr',
    renderGrid_cells g y (seq x0 n) scr = Ret tt scr'
    /\ screen_ok scr' = true
    /\ forall r c,
         colour_of scr' r c
         = if (r =? y)%nat && (x0 <=? c)%nat && (c <? x0 + n)%nat
           then Some (grid_colour g r c) else colour_of scr r c.
Proof.
  intros Hok Hy Hy'. revert x0 scr Hok.
  destruct (lookup_lt_is_Some_2 g y Hy) as [row Hrow].
  induction n as [|n IH]; intros x0 scr Hok Hx.
  - exists scr. split; [done|]. split; [done|]. intros r c.
    destruct (r =? y)%nat, (Nat.leb_spec x0 c), (Nat.ltb_spec c (x0 + 0));
      cbn; try done; lia.
  - cbn [seq renderGrid_cells]. rewrite (grid_read_nat g row y x0 Hrow).
    destruct (setColor_at_run scr (inject_Z (Z.of_nat y))
                (inject_Z (Z.of_nat x0)) (COLORS_at (mjoin (row !! x0))) y x0
                Hok (as_index_nat y) (as_index_nat x0) Hy' ltac:(lia))
      as (scr1 & Hrun1 & Hok1 & Hcol1).
    destruct (IH (S x0) scr1 Hok1 ltac:(lia)) as (scr' & Hrun & Hok' & Hcol).
    exists scr'. split; [by unfold bind; rewrite Hrun1|]. split; [exact Hok'|].
    intros r c. rewrite Hcol, Hcol1.
    destruct (Nat.eqb_spec r y) as [->|Hne]; cbn [andb]; [|done].
    rewrite (grid_colour_row g row y _ Hrow).
    destruct (Nat.leb_spec (S x0) c), (Nat.ltb_spec c (S x0 + n)),
      (Nat.eqb_spec c x0), (Nat.leb_spec x0 c), (Nat.ltb_spec c (x0 + S n));
      cbn [andb]; subst; try done; lia.
Qed.

(** The outer loop paints the rows it visits. *)
Lemma renderGrid_rows_run (g : Grid) (n y0 : nat) (scr : Screen) :
  screen_ok scr = true ->
  length g = GRID_HEIGHT ->
  (y0 + n <= GRID_HEIGHT)%nat ->
  exists scr',
    renderGrid_rows g (seq y0 n) scr = Ret tt scr'
    /\ screen_ok scr' = true
    /\ forall r c,
         colour_of scr' r c
         = if (y0 <=? r)%nat && (r <? y0 + n)%nat && (c <? GRID_WIDTH)%nat
           then Some (grid_colour g r c) else colour_of scr r c.
Proof.
  intros Hok Hlen. revert y0 scr Hok.
  induction n as [|n IH]; intros y0 scr Hok Hy.
  - exists scr. split; [done|]. split; [done|]. intros r c.
    destruct (Nat.leb_spec y0 r), (Nat.ltb_spec r (y0 + 0)); cbn; try done; lia.
  - cbn [seq renderGrid_rows].
    destruct (renderGrid_cells_run g y0 GRID_WIDTH 0 scr Hok ltac:(lia)
                ltac:(lia) ltac:(lia)) as (scr1 & Hrun1 & Hok1 & Hcol1).
    destruct (IH (S y0) scr1 Hok1 ltac:(lia)) as (scr' & Hrun & Hok' & Hcol).
    exists scr'. split; [by unfold bind; rewrite Hrun1|]. split; [exact Hok'|].
    intros r c. rewrite Hcol, Hcol1.
    change (0 + GRID_WIDTH)%nat with GRID_WIDTH.
    destruct (Nat.leb_spec (S y0) r), (Nat.ltb_spec r (S y0 + n)),
      (Nat.eqb_spec r y0), (Nat.leb_spec y0 r), (Nat.ltb_spec r (y0 + S n)),
      (Nat.leb_spec 0 c), (Nat.ltb_spec c GRID_WIDTH);
      cbn [andb]; subst; try done; lia.
Qed.

(** [renderGrid()] repaints the whole page from the grid: what a cell
    showed before does not matter. *)
Lemma renderGrid_run (g : Grid) (scr : Screen) :
  screen_ok scr = true -> length g = GRID_HEIGHT ->
  exists scr',
    renderGrid g scr = Ret tt scr'
    /\ screen_ok scr' = true
    /\ forall r c, (r < GRID_HEIGHT)%nat -> (c < GRID_WIDTH)%nat ->
         colour_of scr' r c = Some (grid_colour g r c).
Proof.
  intros Hok Hlen.
  destruct (renderGrid_rows_run g GRID_HEIGHT 0 scr Hok Hlen ltac:(lia))
    as (scr' & Hrun & Hok' & Hcol).
  exists scr'. split; [exact Hrun|]. split; [exact Hok'|].
  intros r c Hr Hc. rewrite Hcol.
  change (0 + GRID_HEIGHT)%nat with GRID_HEIGHT.
  by destruct (Nat.leb_spec 0 r), (Nat.ltb_spec r GRID_HEIGHT),
    (Nat.ltb_spec c GRID_WIDTH); cbn [andb]; try lia.
Qed.

Lemma inject_nat_lt (a b : nat) :
  (inject_Z (Z.of_nat a) < inject_Z (Z.of_nat b))%Q <-> (a < b)%nat.
Proof. unfold Qlt. cbn [Qnum Qden inject_Z]. lia. Qed.

Lemma inject_nat_eq (a b : nat) :
  (inject_Z (Z.of_nat a) == inject_Z (Z.of_nat b))%Q <-> a = b.
Proof. unfold Qeq. cbn [Qnum Qden inject_Z]. lia. Qed.

(** A number that is an integer in [0, n) is an index below [n]. *)
Lemma index_below (q : Q) (n : nat) :
  integral q = true -> (0 <= q)%Q -> (q < inject_Z (Z.of_nat n))%Q ->
  exists i, as_index q = Some i /\ (i < n)%nat /\ (q == inject_Z (Z.of_nat i))%Q.
Proof.
  intros Hint H0 Hn. destruct (index_of_column q Hint H0) as [i Hi].
  exists i. split; [exact Hi|]. apply as_index_Some in Hi.
  split; [|exact Hi]. rewrite Hi in Hn. by apply inject_nat_lt.
Qed.

Lemma Qeq_bool_index (q : Q) (i r : nat) :
  (q == inject_Z (Z.of_nat i))%Q ->
  Qeq_bool q (inject_Z (Z.of_nat r)) = (r =? i)%nat.
Proof.
  intros Hq. destruct (Nat.eqb_spec r i) as [->|Hne].
  - by apply Qeq_bool_iff.
  - destruct (Qeq_bool q (inject_Z (Z.of_nat r))) eqn:E; [|done].
    apply Qeq_bool_iff in E. rewrite Hq in E. apply inject_nat_eq in E. lia.
Qed.

(** The loop of [Piece.render]: with every block within the columns and
    above the floor, it paints the cells of the blocks that are on the
    grid, and no other. *)
Lemma Piece_render_loop_run (this : Piece.t) (col : option string)
    (posX posY : Q) (pts : list Point.t) (scr : Screen) :
  screen_ok scr = true ->
  Forall (fun b =>
    integral (Point.y b + posY) = true
    /\ (Point.y b + posY < inject_Z (Z.of_nat GRID_HEIGHT))%Q
    /\ integral (Point.x b + posX) = true
    /\ (0 <= Point.x b + posX)%Q
    /\ (Point.x b + posX < inject_Z (Z.of_nat GRID_WIDTH))%Q) pts ->
  exists scr',
    Piece_render_loop this col posX posY pts scr = Ret tt scr'
    /\ screen_ok scr' = true
    /\ forall r c,
         colour_of scr' r c
         = if existsb (on_cell posX posY r c) pts
           then Some (color_or col (COLORS_at (Some (Piece.index this))))
           else colour_of scr r c.
Proof.
  intros Hok Hall. revert scr Hok.
  induction Hall as [|b pts (Hyi & Hyh & Hxi & Hx0 & Hxw) _ IH]; intros scr Hok.
  - exists scr. by split; [|split].
  - cbn [Piece_render_loop existsb].
    destruct (Qltb (Point.y b + posY) 0) eqn:Eneg.
    + apply Qltb_lt in Eneg.
      destruct (IH scr Hok) as (scr' & Hrun & Hok' & Hcol).
      exists scr'. split; [exact Hrun|]. split; [exact Hok'|].
      intros r c. rewrite Hcol.
      assert (on_cell posX posY r c b = false) as ->; [|done].
      unfold on_cell. apply andb_false_iff. left.
      destruct (Qeq_bool _ _) eqn:E; [|done]. apply Qeq_bool_iff in E.
      assert (0 <= inject_Z (Z.of_nat r))%Q
        by (unfold Qle; cbn [Qnum Qden inject_Z]; lia).
      lra.
    + apply Qltb_ge in Eneg.
      destruct (index_below _ _ Hyi Eneg Hyh) as (i & Hi & Hih & Hiq).
      destruct (index_below _ _ Hxi Hx0 Hxw) as (j & Hj & Hjw & Hjq).
      destruct (setColor_at_run scr _ _
                  (color_or col (COLORS_at (Some (Piece.index this)))) i j
                  Hok Hi Hj Hih Hjw) as (scr1 & Hrun1 & Hok1 & Hcol1).
      destruct (IH scr1 Hok1) as (scr' & Hrun & Hok' & Hcol).
      exists scr'. split; [by unfold bind; rewrite Hrun1|].
      split; [exact Hok'|].
      intros r c. rewrite Hcol, Hcol1. unfold on_cell at 2.
      rewrite (Qeq_bool_index _ i r Hiq), (Qeq_bool_index _ j c Hjq).
      by destruct (existsb _ pts), ((r =? i)%nat && (c =? j)%nat).
Qed.

Lemma number_or_same (v : Q) : number_or (Some v) v = v.
Proof. unfold number_or. by destruct (Qeq_bool v 0). Qed.

Lemma fits_spec_proper (p : Piece.t) (g : Grid) (x y y' : Q) :
  (y == y')%Q -> fits_spec p g x y -> fits_spec p g x y'.
Proof.
  intros Hy Hfits. unfold fits_spec. eapply Forall_impl; [exact Hfits|].
  cbv beta. intros b (H0 & Hw & Hh & Hcell). unfold cell_passable, cell_empty in *.
  rewrite <- (grid_read_proper g (Point.y b + y) (Point.y b + y')
                (Point.x b + x) (Point.x b + x)) by (by rewrite ?Hy).
  rewrite <- Hy. done.
Qed.

(** The loop of [render()] that looks for the ghost row: it ends, changes
    nothing, and returns the lowest row the piece reaches by falling
    straight down. *)
Lemma ghost_loop_run (p : Piece.t) (g : Grid) (b0 : Point.t) (f : nat)
    (y0 : Q) :
  length g = GRID_HEIGHT ->
  integral_blocks p = true ->
  integral y0 = true ->
  head (Piece.blocks p) = Some b0 ->
  (inject_Z (Z.of_nat GRID_HEIGHT) - (Point.y b0 + y0)
   < inject_Z (Z.of_nat (S f)))%Q ->
  exists gy,
    ghost_loop (S f) y0 (Piece.Store p g) = Some (Ret gy (Piece.Store p g))
    /\ integral gy = true
    /\ (y0 <= gy)%Q
    /\ (forall y, integral y = true -> (y0 < y)%Q -> (y <= gy)%Q ->
        fits_spec p g (Point.x (Piece.position p)) y)
    /\ ~ fits_spec p g (Point.x (Piece.position p)) (gy + 1).
Proof.
  intros Hlen Hblocks. revert y0.
  induction f as [|f IH]; intros y0 Hy0 Hhead Hbound.
  all: assert (Hy1 : integral (y0 + 1) = true) by (by apply integral_plus).
  all: destruct (fitsAt_loop_spec (Piece.blocks p) (Point.x (Piece.position p))
              (y0 + 1) (Piece.Store p g) Hlen Hblocks Hy1) as (b & Hf & Hiff).
  all: assert (Hfp : Piece.fitsAt (Point.x (Piece.position p)) (y0 + 1)
                  (Piece.Store p g) = Ret b (Piece.Store p g)) by exact Hf.
  all: assert (Hstop : b = false ->
         forall n, exists gy,
           ghost_loop (S n) y0 (Piece.Store p g)
           = Some (Ret gy (Piece.Store p g))
           /\ integral gy = true /\ (y0 <= gy)%Q
           /\ (forall y, integral y = true -> (y0 < y)%Q -> (y <= gy)%Q ->
               fits_spec p g (Point.x (Piece.position p)) y)
           /\ ~ fits_spec p g (Point.x (Piece.position p)) (gy + 1)).
  1,3: intros -> n; exists y0; cbn [ghost_loop Piece.this]; rewrite Hfp;
       (split; [done|]); (split; [exact Hy0|]); (split; [lra|]);
       (split; [intros y _ H1 H2; lra|]);
       intros Hfits; by apply Hiff in Hfits.
  - assert (b = false) as ->; [|by apply Hstop].
    destruct b; [|done]. exfalso.
    assert (Hall := proj1 Hiff eq_refl). cbn [Piece.grid] in Hall.
    destruct (Piece.blocks p) as [|b0' bs]; [done|].
    injection Hhead as ->. apply Forall_cons_1 in Hall as [(_ & _ & Hlt & _) _].
    change (inject_Z (Z.of_nat 1)) with 1%Q in Hbound. lra.
  - destruct b; [|by apply Hstop].
    assert (Hall := proj1 Hiff eq_refl). cbn [Piece.grid] in Hall.
    destruct (IH (y0 + 1)%Q Hy1 Hhead) as (gy & Hrun & Hgi & Hge & Hbetween & Hnot).
    { rewrite Nat2Z.inj_succ, <- Z.add_1_r, inject_Z_plus in Hbound.
      change (inject_Z 1) with 1%Q in Hbound. lra. }
    exists gy. split.
    { cbn [ghost_loop Piece.this]. rewrite Hfp. exact Hrun. }
    split; [exact Hgi|]. split; [lra|]. split; [|exact Hnot].
    intros y Hyi H1 H2.
    destruct (Qlt_le_dec (y0 + 1) y) as [Hlt|Hle]; [by apply Hbetween|].
    (* an integer above [y0] and at most [y0 + 1] is [y0 + 1] *)
    assert (Hy : (y0 + 1 == y)%Q).
    { apply integral_iff in Hy0 as [a Ha]. apply integral_iff in Hyi as [c Hc].
      assert (Hac : (inject_Z a < inject_Z c)%Q) by lra.
      assert (Hca : (inject_Z c <= inject_Z (a + 1))%Q)
        by (rewrite inject_Z_plus; change (inject_Z 1) with 1%Q; lra).
      unfold Qlt, Qle in Hac, Hca. cbn [Qnum Qden inject_Z] in Hac, Hca.
      assert (c = (a + 1)%Z) as -> by lia.
      rewrite Ha, Hc, inject_Z_plus. reflexivity. }
    exact (fits_spec_proper p g _ _ _ Hy Hall).
Qed.

Lemma rows_above_floor_Forall (p : Piece.t) :
  rows_above_floor p = true ->
  Forall (fun b =>
    (Point.y b + Point.y (Piece.position p)
     < inject_Z (Z.of_nat GRID_HEIGHT))%Q) (Piece.blocks p).
Proof.
  unfold rows_above_floor. rewrite forallb_forall, Forall_forall.
  intros H b Hin. apply Qltb_lt, H. by apply list_elem_of_In.
Qed.

Lemma integral_blocks_Forall (p : Piece.t) :
  integral_blocks p = true ->
  Forall (fun b => integral (Point.x b) = true /\ integral (Point.y b) = true)
    (Piece.blocks p).
Proof.
  unfold integral_blocks, integral_point.
  rewrite forallb_forall, Forall_forall.
  intros H b Hin. apply andb_true_iff, H. by apply list_elem_of_In.
Qed.

(** A piece in order can be drawn in its column at any integer row where
    its blocks are above the floor. *)
Lemma drawable (p : Piece.t) (posY : Q) :
  piece_ok p = true -> integral posY = true ->
  Forall (fun b =>
    (Point.y b + posY < inject_Z (Z.of_nat GRID_HEIGHT))%Q) (Piece.blocks p) ->
  Forall (fun b =>
    integral (Point.y b + posY) = true
    /\ (Point.y b + posY < inject_Z (Z.of_nat GRID_HEIGHT))%Q
    /\ integral (Point.x b + Point.x (Piece.position p)) = true
    /\ (0 <= Point.x b + Point.x (Piece.position p))%Q
    /\ (Point.x b + Point.x (Piece.position p)
        < inject_Z (Z.of_nat GRID_WIDTH))%Q) (Piece.blocks p).
Proof.
  intros (Hblocks & Hpos & _ & _ & _ & Hcols & _)%piece_ok_iff Hy Hrows.
  apply andb_true_iff in Hpos as [Hpx Hpy].
  pose proof (columns_on_grid_Forall p Hcols Hblocks Hpx) as Hc.
  pose proof (integral_blocks_Forall p Hblocks) as Hi.
  rewrite Forall_forall in Hrows, Hc, Hi. apply Forall_forall. intros b Hin.
  destruct (Hc b Hin) as (? & ? & ?). destruct (Hi b Hin) as [? ?].
  split; [by apply integral_plus|]. split; [by apply Hrows|]. done.
Qed.

(** [render()] in a session that is in order. *)
Lemma render_run (fuel : nat) (g : Game.t) (scr : Screen) :
  session_ok g -> screen_ok scr = true ->
  (forall p b0,
      Game.currentPiece g = Some p -> head (Piece.blocks p) = Some b0 ->
      (inject_Z (Z.of_nat GRID_HEIGHT)
       - (Point.y b0 + Point.y (Piece.position p))
       < inject_Z (Z.of_nat fuel))%Q) ->
  exists gy scr',
    render fuel (Page g scr) = Some (Ret tt (Page g scr'))
    /\ screen_ok scr' = true
    /\ (forall p, Game.currentPiece g = Some p ->
        ghostRow fuel (Piece.Store p (Game.grid g))
        = Some (Ret gy (Piece.Store p (Game.grid g))))
    /\ forall r c, (r < GRID_HEIGHT)%nat -> (c < GRID_WIDTH)%nat ->
         colour_of scr' r c = Some (shown g gy r c).
Proof.
  destruct g as [gr cp bg en]. intros (Hwf & _ & Hpiece) Hok Hfuel.
  cbn [Game.grid Game.currentPiece] in *.
  pose proof Hwf as [Hlen _]%wf_grid_iff.
  destruct (renderGrid_run gr scr Hok Hlen) as (scr1 & Hrun1 & Hok1 & Hcol1).
  unfold render, on_screen, zoom.
  cbn [session gridEls Game.grid Game.currentPiece Game.bag Game.entropy].
  rewrite Hrun1. cbn [session gridEls Game.currentPiece].
  destruct cp as [p|]; cycle 1.
  { exists 0%Q, scr1. split; [done|]. split; [exact Hok1|]. split; [done|].
    exact Hcol1. }
  pose proof Hpiece as (Hblocks & Hpos & _ & _ & Hvalid & Hcols & Hrows)%piece_ok_iff.
  pose proof Hpos as [Hpx Hpy]%andb_true_iff.
  assert (Hhead : exists b0, head (Piece.blocks p) = Some b0).
  { unfold valid_piece in Hvalid. rewrite !andb_true_iff in Hvalid.
    destruct Hvalid as [[[Hn _] _] _]. apply Nat.eqb_eq in Hn.
    destruct (Piece.blocks p); [done|]. by eexists. }
  destruct Hhead as [b0 Hhead].
  specialize (Hfuel p b0 eq_refl Hhead).
  pose proof (rows_above_floor_Forall p Hrows) as Hfloor.
  assert (Hb0 : (Point.y b0 + Point.y (Piece.position p)
                 < inject_Z (Z.of_nat GRID_HEIGHT))%Q).
  { destruct (Piece.blocks p) as [|b bs]; [done|]. injection Hhead as ->.
    by apply Forall_cons_1 in Hfloor as [? _]. }
  destruct fuel as [|f].
  { change (inject_Z (Z.of_nat 0)) with 0%Q in Hfuel. lra. }
  destruct (ghost_loop_run p gr b0 f (Point.y (Piece.position p))
              Hlen Hblocks Hpy Hhead Hfuel)
    as (gy & Hghost & Hgi & Hge & Hbetween & _).
  unfold ghostRow.
  cbn [session gridEls Game.grid Game.currentPiece Game.bag Game.entropy
       Piece.this].
  rewrite Hghost.
  cbn [session gridEls Game.grid Game.currentPiece Game.bag Game.entropy
       Piece.this Piece.grid].
  set (posY := number_or (Some gy) (Point.y (Piece.position p))).
  assert (HposY : integral posY = true
          /\ Forall (fun b => (Point.y b + posY
                               < inject_Z (Z.of_nat GRID_HEIGHT))%Q)
               (Piece.blocks p)).
  { unfold posY, number_or. destruct (Qeq_bool gy 0); [by split|].
    split; [exact Hgi|].
    destruct (Qlt_le_dec (Point.y (Piece.position p)) gy) as [Hlt|Hle].
    - pose proof (Hbetween gy Hgi Hlt ltac:(lra)) as Hfits.
      eapply Forall_impl; [exact Hfits|]. by intros b (_ & _ & ? & _).
    - eapply Forall_impl; [exact Hfloor|]. cbv beta. intros b Hb. lra. }
  destruct HposY as [HposYi HposYh].
  destruct (Piece_render_loop_run p (Some "gray"%string)
              (Point.x (Piece.position p)) posY (Piece.blocks p) scr1 Hok1
              (drawable p posY Hpiece HposYi HposYh))
    as (scr2 & Hrun2 & Hok2 & Hcol2).
  destruct (Piece_render_loop_run p None
              (Point.x (Piece.position p)) (Point.y (Piece.position p))
              (Piece.blocks p) scr2 Hok2
              (drawable p _ Hpiece Hpy Hfloor))
    as (scr3 & Hrun3 & Hok3 & Hcol3).
  exists gy, scr3. split.
  { unfold Piece_render, bind. cbv zeta. rewrite number_or_same.
    fold posY. rewrite Hrun2. cbn [number_or]. by rewrite Hrun3. }
  split; [exact Hok3|]. split; [by intros ? [= <-]|].
  intros r c Hr Hc. rewrite Hcol3, Hcol2, (Hcol1 r c Hr Hc).
  unfold shown, covers. cbn [Game.currentPiece Game.grid]. cbv zeta.
  fold posY.
  destruct (existsb (on_cell _ (Point.y (Piece.position p)) r c) _); [done|].
  by destruct (existsb (on_cell _ posY r c) _).
Qed.

(** X15: the ghost row is the lowest row the piece reaches by falling
    straight down.  On a grid of [GRID_HEIGHT] rows, for a piece with
    integer blocks and row, once the bound on the iterations exceeds the
    distance from the first block's row to the floor, the loop of
    [render()] ends without changing anything and returns an integer row
    [gy], not above the piece's own; the piece fits in its column at every
    integer row from the one below its own down to [gy], and does not fit
    at row [gy + 1]. *)
Theorem ghostRow_lowest (fuel : nat) (p : Piece.t) (g : Grid) (b0 : Point.t) :
  length g = GRID_HEIGHT ->
  integral_blocks p = true ->
  integral (Point.y (Piece.position p)) = true ->
  head (Piece.blocks p) = Some b0 ->
  (0 < fuel)%nat ->
  (inject_Z (Z.of_nat GRID_HEIGHT) - (Point.y b0 + Point.y (Piece.position p))
   < inject_Z (Z.of_nat fuel))%Q ->
  exists gy,
    ghostRow fuel (Piece.Store p g) = Some (Ret gy (Piece.Store p g))
    /\ integral gy = true
    /\ (Point.y (Piece.position p) <= gy)%Q
    /\ (forall y, integral y = true ->
        (Point.y (Piece.position p) < y)%Q -> (y <= gy)%Q ->
        fits_spec p g (Point.x (Piece.position p)) y)
    /\ ~ fits_spec p g (Point.x (Piece.position p)) (gy + 1).
Proof.
  intros Hlen Hblocks Hpy Hhead Hfuel Hbound.
  destruct fuel as [|f]; [lia|].
  exact (ghost_loop_run p g b0 f _ Hlen Hblocks Hpy Hhead Hbound).
Qed.

(** The O piece as spawned, over a stack that leaves the two top rows
    free: the ghost row is 0. *)
Lemma ghostRow_lowest_witness :
  length high_stack = GRID_HEIGHT
  /\ integral_blocks O_spawned = true
  /\ integral (Point.y (Piece.position O_spawned)) = true
  /\ head (Piece.blocks O_spawned) = Some (Point.mk 0 0)
  /\ (0 < 30)%nat
  /\ (inject_Z (Z.of_nat GRID_HEIGHT) - (0 + -2) < inject_Z (Z.of_nat 30))%Q
  /\ exists gy,
       ghostRow 30 (Piece.Store O_spawned high_stack)
       = Some (Ret gy (Piece.Store O_spawned high_stack))
       /\ (gy == 0)%Q
       /\ ~ fits_spec O_spawned high_stack 4 (gy + 1).
Proof.
  do 4 (split; [reflexivity|]). split; [lia|]. split; [reflexivity|].
  destruct (ghostRow_lowest 30 O_spawned high_stack (Point.mk 0 0)
              eq_refl eq_refl eq_refl eq_refl ltac:(lia) eq_refl)
    as (gy & Hrun & _ & _ & _ & Hnot).
  exists gy. split; [exact Hrun|]. split; [|exact Hnot].
  vm_compute in Hrun. injection Hrun as <-. reflexivity.
Defined.

(** X16: what [render()] leaves on the page.  In a session that is in
    order, on a page of [GRID_HEIGHT] rows of [GRID_WIDTH] cells, with the
    bound on the ghost loop above the distance from the active piece's
    first block to the floor, [render()] returns and changes nothing but
    the colours; every cell is repainted, whatever it showed before: a
    cell under a block of the active piece gets the piece's colour, any
    other cell under a block of the ghost gets gray, and every other cell
    gets the colour of the grid's number.  The ghost is the piece in the
    row [ghostY || position.y]: at the row the loop found, except that a
    found row of 0 is replaced by the piece's own row. *)
Theorem render_spec (fuel : nat) (u : page) :
  session_ok (session u) -> screen_ok (gridEls u) = true ->
  (forall p b0,
      Game.currentPiece (session u) = Some p ->
      head (Piece.blocks p) = Some b0 ->
      (inject_Z (Z.of_nat GRID_HEIGHT)
       - (Point.y b0 + Point.y (Piece.position p))
       < inject_Z (Z.of_nat fuel))%Q) ->
  exists gy scr',
    render fuel u = Some (Ret tt (Page (session u) scr'))
    /\ screen_ok scr' = true
    /\ (forall p, Game.currentPiece (session u) = Some p ->
        ghostRow fuel (Piece.Store p (Game.grid (session u)))
        = Some (Ret gy (Piece.Store p (Game.grid (session u)))))
    /\ forall r c, (r < GRID_HEIGHT)%nat -> (c < GRID_WIDTH)%nat ->
         colour_of scr' r c = Some (shown (session u) gy r c).
Proof.
  destruct u as [g scr]. cbn [session gridEls]. apply render_run.
Qed.

(** The O piece as spawned over the empty grid, on the page as
    [createGrid()] leaves it: the ghost is drawn on the floor. *)
Lemma render_spec_witness :
  exists b e,
    Bag.new (fun _ => 0%Q) = Ret b e
    /\ session_ok (Game.mk emptyGrid (Some O_spawned) b e)
    /\ screen_ok blank_page = true
    /\ exists scr',
         render 30 (Page (Game.mk emptyGrid (Some O_spawned) b e) blank_page)
         = Some (Ret tt (Page (Game.mk emptyGrid (Some O_spawned) b e) scr'))
         /\ colour_of scr' 19 4 = Some (Some "gray"%string)
         /\ colour_of scr' 17 4 = Some (Some BACKGROUND_COLOR).
Proof.
  assert (H : unit_interval (fun _ => 0%Q))
    by (intros k; split; [apply Qle_refl|reflexivity]).
  destruct (Bag_new_ok _ H) as (b & e & Hnew & Hok & _).
  assert (Hs : session_ok (Game.mk emptyGrid (Some O_spawned) b e)).
  { split; [reflexivity|]. split; [exact Hok|reflexivity]. }
  exists b, e. split; [exact Hnew|]. split; [exact Hs|].
  split; [reflexivity|].
  destruct (render_spec 30
              (Page (Game.mk emptyGrid (Some O_spawned) b e) blank_page)
              Hs eq_refl)
    as (gy & scr' & Hrun & _ & Hghost & Hcol).
  - intros p b0 [= <-] [= <-]. reflexivity.
  - exists scr'. split; [exact Hrun|].
    specialize (Hghost O_spawned eq_refl).
    vm_compute in Hghost. injection Hghost as <-.
    rewrite !Hcol by (unfold GRID_HEIGHT, GRID_WIDTH; lia).
    split; reflexivity.
Defined.

(** X17: a ghost that would stand in row 0 is not drawn.  In a session
    that is in order, when the ghost loop of [render()] finds the row 0,
    [ghostY || position.y] is the piece's own row: the ghost is painted
    under the piece itself, and after [render()] every cell shows the
    colour of the active piece or of the grid, none the gray of the
    ghost. *)
Theorem ghost_missing_at_row_zero (fuel : nat) (u : page) (p : Piece.t) (gy : Q) :
  session_ok (session u) -> screen_ok (gridEls u) = true ->
  Game.currentPiece (session u) = Some p ->
  (forall b0,
      head (Piece.blocks p) = Some b0 ->
      (inject_Z (Z.of_nat GRID_HEIGHT)
       - (Point.y b0 + Point.y (Piece.position p))
       < inject_Z (Z.of_nat fuel))%Q) ->
  ghostRow fuel (Piece.Store p (Game.grid (session u)))
  = Some (Ret gy (Piece.Store p (Game.grid (session u)))) ->
  (gy == 0)%Q ->
  exists scr',
    render fuel u = Some (Ret tt (Page (session u) scr'))
    /\ forall r c, (r < GRID_HEIGHT)%nat -> (c < GRID_WIDTH)%nat ->
         colour_of scr' r c
         = Some (if covers p (Point.y (Piece.position p)) r c
                 then COLORS_at (Some (Piece.index p))
                 else grid_colour (Game.grid (session u)) r c).
Proof.
  destruct u as [g scr]. cbn [session gridEls].
  intros Hok Hscr Hcur Hfuel Hghost Hzero.
  destruct (render_run fuel g scr Hok Hscr)
    as (gy' & scr' & Hrun & _ & Hghost' & Hcol).
  { intros q b0 Hq. rewrite Hcur in Hq. injection Hq as <-. apply Hfuel. }
  rewrite (Hghost' p Hcur) in Hghost. injection Hghost as ->.
  exists scr'. split; [exact Hrun|].
  intros r c Hr Hc. rewrite (Hcol r c Hr Hc). f_equal.
  unfold shown. rewrite Hcur. cbv zeta. unfold number_or.
  apply Qeq_bool_iff in Hzero. rewrite Hzero.
  by destruct (covers p _ r c).
Qed.

(** The O piece as spawned, over a stack that leaves the two top rows
    free: it will land in rows 0 and 1, where no ghost is shown. *)
Lemma ghost_missing_at_row_zero_witness :
  exists b e scr',
    Bag.new (fun _ => 0%Q) = Ret b e
    /\ session_ok (Game.mk high_stack (Some O_spawned) b e)
    /\ screen_ok blank_page = true
    /\ ghostRow 30 (Piece.Store O_spawned high_stack)
       = Some (Ret 0%Q (Piece.Store O_spawned high_stack))
    /\ render 30 (Page (Game.mk high_stack (Some O_spawned) b e) blank_page)
       = Some (Ret tt (Page (Game.mk high_stack (Some O_spawned) b e) scr'))
    /\ colour_of scr' 0 4 = Some (Some BACKGROUND_COLOR)
    /\ colour_of scr' 1 5 = Some (Some BACKGROUND_COLOR).
Proof.
  assert (H : unit_interval (fun _ => 0%Q))
    by (intros k; split; [apply Qle_refl|reflexivity]).
  destruct (Bag_new_ok _ H) as (b & e & Hnew & Hok & _).
  assert (Hs : session_ok (Game.mk high_stack (Some O_spawned) b e)).
  { split; [reflexivity|]. split; [exact Hok|reflexivity]. }
  destruct (ghost_missing_at_row_zero 30
              (Page (Game.mk high_stack (Some O_spawned) b e) blank_page)
              O_spawned 0%Q Hs eq_refl eq_refl)
    as (scr' & Hrun & Hcol).
  - intros b0 [= <-]. reflexivity.
  - reflexivity.
  - reflexivity.
  - exists b, e, scr'. split; [exact Hnew|]. split; [exact Hs|].
    split; [reflexivity|]. split; [reflexivity|]. split; [exact Hrun|].
    rewrite !Hcol by (unfold GRID_HEIGHT, GRID_WIDTH; lia).
    split; reflexivity.
Defined.

(** The step of the timer on an active piece, and the piece it leaves. *)
Lemma tick_shape (fuel : nat) (g : Game.t) (p : Piece.t) :
  session_ok g -> (GRID_HEIGHT <= fuel)%nat ->
  Game.currentPiece g = Some p ->
  exists o,
    Game.movePieceDown fuel g = Some o
    /\ match o with
       | Ret _ g' =>
           session_ok g'
           /\ match Game.currentPiece g' with
              | Some p' =>
                  Piece.blocks p' = Piece.blocks p
                  /\ Piece.position p'
                     = Point.mk (Point.x (Piece.position p))
                                (Point.y (Piece.position p) + 1)
              | None => True
              end
       | Throw e _ => e = TypeError
       end.
Proof.
  intros Hok Hfuel Hcur.
  destruct (tick_active fuel g p Hok Hfuel Hcur) as (o & Hrun & Ho).
  exists o. split; [exact Hrun|].
  destruct o as [[] g'|e g']; [|by destruct Ho]. split; [exact Ho|].
  rewrite (movePieceDown_active fuel g p Hcur), moveDown_unfold in Hrun.
  cbv zeta in Hrun. cbn [Piece.this Piece.position] in Hrun.
  destruct (fitsAt_pure (Point.x (Piece.position p))
              (Point.y (Piece.position p) + 1) (Piece.Store p (Game.grid g)))
    as [[[|] Hf]|Hf]; rewrite Hf in Hrun.
  - cbn [Piece.on_this Piece.this Piece.grid] in Hrun.
    destruct (Game.clearLines fuel _) as [[[] gr'|e gr']|]; [|done..].
    injection Hrun as <-. by cbn.
  - destruct (Piece.place _) as [[] [p' gr]|e [p' gr]]; [|done].
    injection Hrun as <-. by cbn.
  - done.
Qed.

(** X18: drawing never stops the game.  In a session that is in order,
    on a page of [GRID_HEIGHT] rows of [GRID_WIDTH] cells, the whole step
    of the timer, [movePieceDown()] with its [render()], ends as the
    rules alone decide: it returns with the session the rules leave, which
    is in order, or throws the TypeError of a lock above the grid, before
    anything is drawn.  When it returns after [spawn()] the page is
    untouched; otherwise every cell of the page shows the new session. *)
Theorem movePieceDown_drawn_spec (fuel : nat) (u : page) :
  session_ok (session u) -> screen_ok (gridEls u) = true ->
  (GRID_HEIGHT <= fuel)%nat ->
  (forall p b0,
      Game.currentPiece (session u) = Some p ->
      head (Piece.blocks p) = Some b0 ->
      (inject_Z (Z.of_nat GRID_HEIGHT)
       - (Point.y b0 + Point.y (Piece.position p))
       < inject_Z (Z.of_nat fuel))%Q) ->
  exists o,
    Game.movePieceDown fuel (session u) = Some o
    /\ match o with
       | Ret _ g' =>
           session_ok g'
           /\ exists scr',
                movePieceDown_drawn fuel u = Some (Ret tt (Page g' scr'))
                /\ screen_ok scr' = true
                /\ match Game.currentPiece (session u) with
                   | None => scr' = gridEls u
                   | Some _ =>
                       exists gy,
                         (forall p', Game.currentPiece g' = Some p' ->
                          ghostRow fuel (Piece.Store p' (Game.grid g'))
                          = Some (Ret gy (Piece.Store p' (Game.grid g'))))
                         /\ forall r c,
                              (r < GRID_HEIGHT)%nat -> (c < GRID_WIDTH)%nat ->
                              colour_of scr' r c = Some (shown g' gy r c)
                   end
       | Throw e g' =>
           e = TypeError
           /\ movePieceDown_drawn fuel u
              = Some (Throw TypeError (Page g' (gridEls u)))
       end.
Proof.
  destruct u as [g scr]. cbn [session gridEls].
  intros Hok Hscr Hfuel Hbound. unfold movePieceDown_drawn.
  cbn [session gridEls].
  destruct (Game.currentPiece g) as [p|] eqn:Hcur.
  - destruct (tick_shape fuel g p Hok Hfuel Hcur) as (o & Hrun & Ho).
    exists o. split; [exact Hrun|]. rewrite Hrun.
    destruct o as [[] g'|e g']; [|by subst e].
    destruct Ho as [Hok' Hshape]. split; [exact Hok'|].
    destruct (render_run fuel g' scr Hok' Hscr)
      as (gy & scr' & Hdraw & Hscr' & Hghost & Hcol).
    { intros p' b0 Hcur' Hhead. rewrite Hcur' in Hshape.
      destruct Hshape as [Hb Hpos]. rewrite Hb in Hhead.
      specialize (Hbound p b0 eq_refl Hhead).
      rewrite Hpos. cbn [Point.y]. lra. }
    exists scr'. split; [exact Hdraw|]. split; [exact Hscr'|].
    exists gy. by split.
  - pose proof Hok as (Hwf & Hbag & _).
    destruct (spawn_run g Hcur Hbag) as (k & b' & e' & Hin & Hrun & Hbag').
    unfold Game.movePieceDown, zoom. cbn [session gridEls].
    rewrite Hcur, Hrun.
    eexists. split; [reflexivity|]. cbv beta iota. split.
    + split; [exact Hwf|]. split; [exact Hbag'|].
      pose proof catalog_spawns_ok as Hcat. rewrite forallb_forall in Hcat.
      specialize (Hcat k Hin). by apply andb_true_iff in Hcat as [_ ?].
    + exists scr. by split; [|split].
Qed.

(** The O piece one row above the floor of the empty grid: the step moves
    it down and draws it there. *)
Lemma movePieceDown_drawn_spec_witness :
  exists b e g' scr',
    Bag.new (fun _ => 0%Q) = Ret b e
    /\ session_ok (Game.mk emptyGrid (Some O_above_floor) b e)
    /\ screen_ok blank_page = true
    /\ (GRID_HEIGHT <= 30)%nat
    /\ Game.movePieceDown 30 (Game.mk emptyGrid (Some O_above_floor) b e)
       = Some (Ret tt g')
    /\ movePieceDown_drawn 30
         (Page (Game.mk emptyGrid (Some O_above_floor) b e) blank_page)
       = Some (Ret tt (Page g' scr'))
    /\ screen_ok scr' = true.
Proof.
  assert (H : unit_interval (fun _ => 0%Q))
    by (intros k; split; [apply Qle_refl|reflexivity]).
  destruct (Bag_new_ok _ H) as (b & e & Hnew & Hok & _).
  assert (Hs : session_ok (Game.mk emptyGrid (Some O_above_floor) b e)).
  { split; [reflexivity|]. split; [exact Hok|reflexivity]. }
  destruct (movePieceDown_drawn_spec 30
              (Page (Game.mk emptyGrid (Some O_above_floor) b e) blank_page)
              Hs eq_refl)
    as (o & Hrun & Ho).
  - unfold GRID_HEIGHT. lia.
  - intros p b0 [= <-] [= <-]. reflexivity.
  - cbn [session] in Hrun.
    destruct o as [[] g'|e' g'];
      [|exfalso; vm_compute in Hrun; discriminate Hrun].
    destruct Ho as (_ & scr' & Hdraw & Hscr' & _).
    exists b, e, g', scr'. split; [exact Hnew|]. split; [exact Hs|].
    split; [reflexivity|]. split; [unfold GRID_HEIGHT; lia|].
    split; [exact Hrun|]. split; [exact Hdraw|exact Hscr'].
Defined.
